(** * ChromeDebugAdapter: a shallow embedding of src/chrome/chromeDebugAdapter.ts

    The adapter is a single object whose private fields are mutated by
    DAP requests and by CDP notifications.  It is embedded as a record
    [Adapter] threaded explicitly through every method.  Promises are
    embedded by the way they settle; the Chrome target, the three
    transformers and the helpers of [utils], [variables] and [errors]
    are collaborators gathered in the record [Env]. *)

From stdpp Require Import base strings pretty gmap list option.

Local Open Scope string_scope.
Local Open Scope Z_scope.

(** ** JavaScript values *)

(** A string tested as a condition: only the empty string is falsy. *)
Definition truthy (s : string) : bool := negb (String.eqb s "").

(** [string | undefined] tested as a condition. *)
Definition truthy_opt (o : option string) : bool :=
  match o with
  | Some s => truthy s
  | None => false
  end.

(** [s.startsWith(p)]. *)
Definition startsWith (s p : string) : bool := String.prefix p s.

(** The JSON values that a [RemoteObject] carries in [value].  A number
    is kept as its integer part: the adapter never computes with it. *)
Inductive JsValue :=
| JsUndefined
| JsNull
| JsBool (b : bool)
| JsNumber (n : Z)
| JsString (s : string).

(** A value returned by value, as [Runtime.callFunctionOn] gives it with
    [returnByValue]: any JSON value. *)
#[local] Set Warnings "-register-all".
Inductive Json :=
| JsonNull
| JsonBool (b : bool)
| JsonNumber (n : Z)
| JsonString (s : string)
| JsonArray (elements : list Json)
| JsonObject (members : list (string * Json)).

(** A value of type [string] that may be [undefined]. *)
Definition js_of_opt (o : option string) : JsValue :=
  match o with
  | Some s => JsString s
  | None => JsUndefined
  end.

(** ** Errors and promises *)

(** The typed errors of [errors.ts] that the adapter rejects with. *)
Inductive DomainError :=
| pathFormat
| setValueNotSupported
| sourceRequestIllegalHandle
| completionsStackFrameNotValid
| errorFromEvaluate (msg : option string).

(** What a promise is rejected with, or what a method throws. *)
Inductive JsError :=
| Error (message : string)        (* new Error(message), utils.errP *)
| Thrown (s : string)             (* reject('...') with a bare string *)
| TypeError                       (* property read on undefined or null *)
| Domain (d : DomainError).

(** A promise, by the way it settles. *)
Inductive promise (A : Type) :=
| Resolved (v : A)
| Rejected (e : JsError).
Arguments Resolved {A} v.
Arguments Rejected {A} e.

(** [p.then(f)] for a pure [f] returning a promise. *)
Definition then_ {A B} (p : promise A) (f : A → promise B) : promise B :=
  match p with
  | Resolved v => f v
  | Rejected e => Rejected e
  end.

(** [p.then(x => g x)] for a callback returning a plain value. *)
Definition then_val {A B} (p : promise A) (g : A → B) : promise B :=
  then_ p (λ v, Resolved (g v)).

(** [p.catch(h)]. *)
Definition catch_ {A} (p : promise A) (h : JsError → A) : promise A :=
  match p with
  | Resolved v => Resolved v
  | Rejected e => Resolved (h e)
  end.

(** [Promise.all(ps)]: every value, or the rejection of the first promise
    of the list that rejects. *)
Fixpoint Promise_all {A} (ps : list (promise A)) : promise (list A) :=
  match ps with
  | [] => Resolved []
  | p :: ps' =>
      match p, Promise_all ps' with
      | Rejected e, _ => Rejected e
      | Resolved _, Rejected e => Rejected e
      | Resolved v, Resolved vs => Resolved (v :: vs)
      end
  end.

(** Modelled from the spec: [utils.promiseTimeout(p, timeoutMs, timeoutMsg)]
    is defined in utils.ts, which is missing.  The guarded work is bounded
    by [timeoutMs]; on expiry the result is a rejection with [timeoutMsg].
    [p] is how the guarded promise has settled when [timeoutMs]
    milliseconds have passed, and nothing when it is still pending then. *)
Definition promiseTimeout {A} (p : option (promise A)) (timeoutMs : nat)
    (timeoutMsg : string) : promise A :=
  match p with
  | Some settled => settled
  | None => Rejected (Thrown timeoutMsg)
  end.

(** ** Handle registries *)

(** Modelled from the spec: the class [Handles] of vscode-debugadapter and
    its subclass [utils.ReverseHandles], defined in utils.ts, are missing.
    A registry issues an increasing number per inserted value, from
    [START_HANDLE] on; [get] returns the value or nothing; [reset] forgets
    every value and starts the numbering again. *)
Record Handles (V : Type) := mkHandles {
  START_HANDLE : nat;
  _nextHandle : nat;
  _handleMap : gmap nat V
}.
Arguments mkHandles {V} _ _ _.
Arguments START_HANDLE {V} _.
Arguments _nextHandle {V} _.
Arguments _handleMap {V} _.

Definition Handles_new {V} (start : nat) : Handles V := mkHandles start start ∅.

Definition Handles_reset {V} (h : Handles V) : Handles V :=
  mkHandles (START_HANDLE h) (START_HANDLE h) ∅.

Definition Handles_create {V} (v : V) (h : Handles V) : nat * Handles V :=
  (_nextHandle h,
   mkHandles (START_HANDLE h) (S (_nextHandle h)) (<[_nextHandle h := v]> (_handleMap h))).

Definition Handles_get {V} (h : Handles V) (handle : nat) : option V :=
  _handleMap h !! handle.

(** The bidirectional registry of breakpoint ids.  Its values are CDP
    breakpoint ids, or [undefined] when [create] is called without one. *)
Record ReverseHandles := mkReverseHandles {
  rh_handles : Handles (option string);
  _reverseMap : gmap (option string) nat
}.

Definition ReverseHandles_new (start : nat) : ReverseHandles :=
  mkReverseHandles (Handles_new start) ∅.

Definition ReverseHandles_create (v : option string) (r : ReverseHandles)
    : nat * ReverseHandles :=
  let '(handle, h) := Handles_create v (rh_handles r) in
  (handle, mkReverseHandles h (<[v := handle]> (_reverseMap r))).

Definition ReverseHandles_get (r : ReverseHandles) (handle : nat) : option (option string) :=
  Handles_get (rh_handles r) handle.

Definition ReverseHandles_lookup (r : ReverseHandles) (v : option string) : option nat :=
  _reverseMap r !! v.

(** Every issued handle lies in [START_HANDLE, _nextHandle). *)
Definition Handles_wf {V} (h : Handles V) : Prop :=
  (START_HANDLE h ≤ _nextHandle h)%nat ∧
  ∀ k, is_Some (_handleMap h !! k) → (START_HANDLE h ≤ k < _nextHandle h)%nat.

(** ** CDP data (Crdp.Debugger, Crdp.Runtime) *)

Record Location := mkLocation {
  loc_scriptId : string;
  lineNumber : Z;
  columnNumber : option Z
}.

Record PropertyPreview := mkPropertyPreview {
  pp_name : string;
  pp_value : option string
}.

Record ObjectPreview := mkObjectPreview {
  overflow : bool;
  properties : list PropertyPreview
}.

Record RemoteObject := mkRemoteObject {
  type : string;
  subtype : option string;
  value : JsValue;
  description : option string;
  objectId : option string;
  preview : option ObjectPreview
}.

Record Scope := mkScope {
  scope_type : string;
  scope_object : RemoteObject
}.

Record CallFrame := mkCallFrame {
  callFrameId : string;
  functionName : string;
  location : Location;
  scopeChain : list Scope;
  this : option RemoteObject;
  returnValue : option RemoteObject
}.

Record PausedEvent := mkPausedEvent {
  callFrames : list CallFrame;
  reason : string;
  data : option RemoteObject;
  hitBreakpoints : option (list string)
}.

Record ScriptParsedEvent := mkScriptParsedEvent {
  scriptId : string;
  url : string;
  sourceMapURL : option string
}.

(** The response of [Debugger.setBreakpoint]; the empty object [{}] has
    neither field. *)
Record SetBreakpointResponse := mkSetBreakpointResponse {
  breakpointId : option string;
  actualLocation : option Location
}.

Definition empty_object : SetBreakpointResponse := mkSetBreakpointResponse None None.

Record SetBreakpointByUrlResponse := mkSetBreakpointByUrlResponse {
  byurl_breakpointId : string;
  locations : list Location
}.

(** The commands sent to the target, in the order they are issued. *)
Inductive CrdpCall :=
| Debugger_resume
| Debugger_stepOver
| Debugger_stepInto
| Debugger_stepOut
| Debugger_pause
| Debugger_removeBreakpoint (id : string)
| Debugger_setBreakpoint (loc : Location) (condition : option string)
| Debugger_setBreakpointByUrl (urlRegex : string) (line : Z) (column : Z)
    (condition : option string)
| Runtime_callFunctionOn (objectId : option string) (functionDeclaration : string).

(** ** DAP data (DebugProtocol) *)

Record Source := mkSource {
  src_name : option string;
  src_path : option string;
  sourceReference : option nat
}.

Record SourceBreakpoint := mkSourceBreakpoint {
  sbp_line : Z;
  sbp_column : option Z;
  sbp_condition : option string
}.

Record ISetBreakpointsArgs := mkISetBreakpointsArgs {
  source : Source;
  breakpoints : list SourceBreakpoint
}.

Record Breakpoint := mkBreakpoint {
  bp_id : option nat;
  verified : bool;
  bp_line : option Z;
  bp_column : option Z;
  bp_message : option string
}.

Record ISetBreakpointsResponseBody := mkBody {
  body_breakpoints : list Breakpoint
}.

Record StackFrame := mkStackFrame {
  sf_id : nat;
  sf_name : string;
  sf_source : Source;
  sf_line : Z;
  sf_column : option Z
}.

Record DapScope := mkDapScope {
  ds_name : string;
  ds_variablesReference : nat;
  ds_expensive : option bool
}.

Record DapVariable := mkVariable {
  var_name : string;
  var_value : JsValue;
  variablesReference : nat;
  var_type : option JsValue;
  indexedVariables : option Json;
  namedVariables : option Json
}.

(** The events sent to the session. *)
Inductive SessionEvent :=
| StoppedEvent (reason : string) (threadId : nat)
| ContinuedEvent (threadId : nat)
| BreakpointEvent (reason : string) (bp : Breakpoint).

(** ** Adapter-side containers *)

Record ISourceContainer := mkISourceContainer {
  sc_scriptId : option string;
  contents : option string;
  mappedPath : option string
}.

Record IPendingBreakpoint := mkIPendingBreakpoint {
  args : ISetBreakpointsArgs;
  ids : list nat
}.

(** The three implementations of [IVariableContainer] (variables.ts), by
    their constructor arguments. *)
Inductive IVariableContainer :=
| PropertyContainer (objectId : option string)
| ScopeContainer (frameId : string) (scopeIndex : option nat)
    (objectId : option string) (thisObj : option RemoteObject)
    (returnValue : option RemoteObject)
| ExceptionContainer (exception : RemoteObject).

(** What an exchange of [setBreakpoints] waits for: the answer to the
    removal it sent last, with the removals still to send, or the joined
    answers of the breakpoints it added. *)
Inductive Stage :=
| Removing (sent : string) (rest : list string)
| Adding (responses : promise (list SetBreakpointResponse)).

(** An exchange that waits for the target: the promise chain
    [clearAllBreakpoints(url).then(addBreakpoints).then(translate)] with
    the arguments its callbacks close over. *)
Record Exchange := mkExchange {
  ex_url : string;
  ex_breakpoints : list SourceBreakpoint;
  ex_stage : Stage
}.

(** ** The adapter *)

(** The fields of [ChromeDebugAdapter] that the modelled methods read or
    write.  [null] and [undefined] are both [None].  [_session] and
    [_chrome] record what was sent to the two peers, oldest first;
    [_overlay] is the last message handed to the debounced overlay.
    [inFlight] is no field of the class: it lists, oldest first, the
    exchanges of [setBreakpoints] that outlived their timer, which the
    program holds as pending promise chains. *)
Record Adapter := mkAdapter {
  _currentStack : option (list CallFrame);
  _committedBreakpointsByUrl : gmap string (option (list string));
  _exception : option RemoteObject;
  _setBreakpointsRequestQ : promise unit;
  _expectingResumedEvent : bool;
  _expectingStopReason : option string;
  _frameHandles : Handles (option CallFrame);
  _variableHandles : Handles IVariableContainer;
  _breakpointIdHandles : ReverseHandles;
  _sourceHandles : Handles ISourceContainer;
  _scriptsById : gmap string ScriptParsedEvent;
  _scriptsByUrl : gmap string ScriptParsedEvent;
  _pendingBreakpointsByUrl : gmap string IPendingBreakpoint;
  _currentStep : promise unit;
  _nextUnboundBreakpointId : nat;
  _sourceMaps : bool;
  _smartStep : bool;
  _smartStepCount : nat;
  _overlay : option string;
  _session : list SessionEvent;
  _chrome : list CrdpCall;
  inFlight : list Exchange
}.

(** Field assignments [this.f = v]. *)
Definition set_currentStack v (a : Adapter) : Adapter :=
  mkAdapter v (_committedBreakpointsByUrl a) (_exception a) (_setBreakpointsRequestQ a)
    (_expectingResumedEvent a) (_expectingStopReason a) (_frameHandles a)
    (_variableHandles a) (_breakpointIdHandles a) (_sourceHandles a) (_scriptsById a)
    (_scriptsByUrl a) (_pendingBreakpointsByUrl a) (_currentStep a)
    (_nextUnboundBreakpointId a) (_sourceMaps a) (_smartStep a) (_smartStepCount a)
    (_overlay a) (_session a) (_chrome a) (inFlight a).
Definition set_committedBreakpointsByUrl v (a : Adapter) : Adapter :=
  mkAdapter (_currentStack a) v (_exception a) (_setBreakpointsRequestQ a)
    (_expectingResumedEvent a) (_expectingStopReason a) (_frameHandles a)
    (_variableHandles a) (_breakpointIdHandles a) (_sourceHandles a) (_scriptsById a)
    (_scriptsByUrl a) (_pendingBreakpointsByUrl a) (_currentStep a)
    (_nextUnboundBreakpointId a) (_sourceMaps a) (_smartStep a) (_smartStepCount a)
    (_overlay a) (_session a) (_chrome a) (inFlight a).
Definition set_exception v (a : Adapter) : Adapter :=
  mkAdapter (_currentStack a) (_committedBreakpointsByUrl a) v (_setBreakpointsRequestQ
    a) (_expectingResumedEvent a) (_expectingStopReason a) (_frameHandles a)
    (_variableHandles a) (_breakpointIdHandles a) (_sourceHandles a) (_scriptsById a)
    (_scriptsByUrl a) (_pendingBreakpointsByUrl a) (_currentStep a)
    (_nextUnboundBreakpointId a) (_sourceMaps a) (_smartStep a) (_smartStepCount a)
    (_overlay a) (_session a) (_chrome a) (inFlight a).
Definition set_setBreakpointsRequestQ v (a : Adapter) : Adapter :=
  mkAdapter (_currentStack a) (_committedBreakpointsByUrl a) (_exception a) v
    (_expectingResumedEvent a) (_expectingStopReason a) (_frameHandles a)
    (_variableHandles a) (_breakpointIdHandles a) (_sourceHandles a) (_scriptsById a)
    (_scriptsByUrl a) (_pendingBreakpointsByUrl a) (_currentStep a)
    (_nextUnboundBreakpointId a) (_sourceMaps a) (_smartStep a) (_smartStepCount a)
    (_overlay a) (_session a) (_chrome a) (inFlight a).
Definition set_expectingResumedEvent v (a : Adapter) : Adapter :=
  mkAdapter (_currentStack a) (_committedBreakpointsByUrl a) (_exception a)
    (_setBreakpointsRequestQ a) v (_expectingStopReason a) (_frameHandles a)
    (_variableHandles a) (_breakpointIdHandles a) (_sourceHandles a) (_scriptsById a)
    (_scriptsByUrl a) (_pendingBreakpointsByUrl a) (_currentStep a)
    (_nextUnboundBreakpointId a) (_sourceMaps a) (_smartStep a) (_smartStepCount a)
    (_overlay a) (_session a) (_chrome a) (inFlight a).
Definition set_expectingStopReason v (a : Adapter) : Adapter :=
  mkAdapter (_currentStack a) (_committedBreakpointsByUrl a) (_exception a)
    (_setBreakpointsRequestQ a) (_expectingResumedEvent a) v (_frameHandles a)
    (_variableHandles a) (_breakpointIdHandles a) (_sourceHandles a) (_scriptsById a)
    (_scriptsByUrl a) (_pendingBreakpointsByUrl a) (_currentStep a)
    (_nextUnboundBreakpointId a) (_sourceMaps a) (_smartStep a) (_smartStepCount a)
    (_overlay a) (_session a) (_chrome a) (inFlight a).
Definition set_frameHandles v (a : Adapter) : Adapter :=
  mkAdapter (_currentStack a) (_committedBreakpointsByUrl a) (_exception a)
    (_setBreakpointsRequestQ a) (_expectingResumedEvent a) (_expectingStopReason a) v
    (_variableHandles a) (_breakpointIdHandles a) (_sourceHandles a) (_scriptsById a)
    (_scriptsByUrl a) (_pendingBreakpointsByUrl a) (_currentStep a)
    (_nextUnboundBreakpointId a) (_sourceMaps a) (_smartStep a) (_smartStepCount a)
    (_overlay a) (_session a) (_chrome a) (inFlight a).
Definition set_variableHandles v (a : Adapter) : Adapter :=
  mkAdapter (_currentStack a) (_committedBreakpointsByUrl a) (_exception a)
    (_setBreakpointsRequestQ a) (_expectingResumedEvent a) (_expectingStopReason a)
    (_frameHandles a) v (_breakpointIdHandles a) (_sourceHandles a) (_scriptsById a)
    (_scriptsByUrl a) (_pendingBreakpointsByUrl a) (_currentStep a)
    (_nextUnboundBreakpointId a) (_sourceMaps a) (_smartStep a) (_smartStepCount a)
    (_overlay a) (_session a) (_chrome a) (inFlight a).
Definition set_breakpointIdHandles v (a : Adapter) : Adapter :=
  mkAdapter (_currentStack a) (_committedBreakpointsByUrl a) (_exception a)
    (_setBreakpointsRequestQ a) (_expectingResumedEvent a) (_expectingStopReason a)
    (_frameHandles a) (_variableHandles a) v (_sourceHandles a) (_scriptsById a)
    (_scriptsByUrl a) (_pendingBreakpointsByUrl a) (_currentStep a)
    (_nextUnboundBreakpointId a) (_sourceMaps a) (_smartStep a) (_smartStepCount a)
    (_overlay a) (_session a) (_chrome a) (inFlight a).
Definition set_sourceHandles v (a : Adapter) : Adapter :=
  mkAdapter (_currentStack a) (_committedBreakpointsByUrl a) (_exception a)
    (_setBreakpointsRequestQ a) (_expectingResumedEvent a) (_expectingStopReason a)
    (_frameHandles a) (_variableHandles a) (_breakpointIdHandles a) v (_scriptsById a)
    (_scriptsByUrl a) (_pendingBreakpointsByUrl a) (_currentStep a)
    (_nextUnboundBreakpointId a) (_sourceMaps a) (_smartStep a) (_smartStepCount a)
    (_overlay a) (_session a) (_chrome a) (inFlight a).
Definition set_scriptsById v (a : Adapter) : Adapter :=
  mkAdapter (_currentStack a) (_committedBreakpointsByUrl a) (_exception a)
    (_setBreakpointsRequestQ a) (_expectingResumedEvent a) (_expectingStopReason a)
    (_frameHandles a) (_variableHandles a) (_breakpointIdHandles a) (_sourceHandles a) v
    (_scriptsByUrl a) (_pendingBreakpointsByUrl a) (_currentStep a)
    (_nextUnboundBreakpointId a) (_sourceMaps a) (_smartStep a) (_smartStepCount a)
    (_overlay a) (_session a) (_chrome a) (inFlight a).
Definition set_scriptsByUrl v (a : Adapter) : Adapter :=
  mkAdapter (_currentStack a) (_committedBreakpointsByUrl a) (_exception a)
    (_setBreakpointsRequestQ a) (_expectingResumedEvent a) (_expectingStopReason a)
    (_frameHandles a) (_variableHandles a) (_breakpointIdHandles a) (_sourceHandles a)
    (_scriptsById a) v (_pendingBreakpointsByUrl a) (_currentStep a)
    (_nextUnboundBreakpointId a) (_sourceMaps a) (_smartStep a) (_smartStepCount a)
    (_overlay a) (_session a) (_chrome a) (inFlight a).
Definition set_pendingBreakpointsByUrl v (a : Adapter) : Adapter :=
  mkAdapter (_currentStack a) (_committedBreakpointsByUrl a) (_exception a)
    (_setBreakpointsRequestQ a) (_expectingResumedEvent a) (_expectingStopReason a)
    (_frameHandles a) (_variableHandles a) (_breakpointIdHandles a) (_sourceHandles a)
    (_scriptsById a) (_scriptsByUrl a) v (_currentStep a) (_nextUnboundBreakpointId a)
    (_sourceMaps a) (_smartStep a) (_smartStepCount a) (_overlay a) (_session a)
    (_chrome a) (inFlight a).
Definition set_currentStep v (a : Adapter) : Adapter :=
  mkAdapter (_currentStack a) (_committedBreakpointsByUrl a) (_exception a)
    (_setBreakpointsRequestQ a) (_expectingResumedEvent a) (_expectingStopReason a)
    (_frameHandles a) (_variableHandles a) (_breakpointIdHandles a) (_sourceHandles a)
    (_scriptsById a) (_scriptsByUrl a) (_pendingBreakpointsByUrl a) v
    (_nextUnboundBreakpointId a) (_sourceMaps a) (_smartStep a) (_smartStepCount a)
    (_overlay a) (_session a) (_chrome a) (inFlight a).
Definition set_nextUnboundBreakpointId v (a : Adapter) : Adapter :=
  mkAdapter (_currentStack a) (_committedBreakpointsByUrl a) (_exception a)
    (_setBreakpointsRequestQ a) (_expectingResumedEvent a) (_expectingStopReason a)
    (_frameHandles a) (_variableHandles a) (_breakpointIdHandles a) (_sourceHandles a)
    (_scriptsById a) (_scriptsByUrl a) (_pendingBreakpointsByUrl a) (_currentStep a) v
    (_sourceMaps a) (_smartStep a) (_smartStepCount a) (_overlay a) (_session a)
    (_chrome a) (inFlight a).
Definition set_smartStepCount v (a : Adapter) : Adapter :=
  mkAdapter (_currentStack a) (_committedBreakpointsByUrl a) (_exception a)
    (_setBreakpointsRequestQ a) (_expectingResumedEvent a) (_expectingStopReason a)
    (_frameHandles a) (_variableHandles a) (_breakpointIdHandles a) (_sourceHandles a)
    (_scriptsById a) (_scriptsByUrl a) (_pendingBreakpointsByUrl a) (_currentStep a)
    (_nextUnboundBreakpointId a) (_sourceMaps a) (_smartStep a) v (_overlay a) (_session
    a) (_chrome a) (inFlight a).
Definition set_overlay v (a : Adapter) : Adapter :=
  mkAdapter (_currentStack a) (_committedBreakpointsByUrl a) (_exception a)
    (_setBreakpointsRequestQ a) (_expectingResumedEvent a) (_expectingStopReason a)
    (_frameHandles a) (_variableHandles a) (_breakpointIdHandles a) (_sourceHandles a)
    (_scriptsById a) (_scriptsByUrl a) (_pendingBreakpointsByUrl a) (_currentStep a)
    (_nextUnboundBreakpointId a) (_sourceMaps a) (_smartStep a) (_smartStepCount a) v
    (_session a) (_chrome a) (inFlight a).
Definition set_session v (a : Adapter) : Adapter :=
  mkAdapter (_currentStack a) (_committedBreakpointsByUrl a) (_exception a)
    (_setBreakpointsRequestQ a) (_expectingResumedEvent a) (_expectingStopReason a)
    (_frameHandles a) (_variableHandles a) (_breakpointIdHandles a) (_sourceHandles a)
    (_scriptsById a) (_scriptsByUrl a) (_pendingBreakpointsByUrl a) (_currentStep a)
    (_nextUnboundBreakpointId a) (_sourceMaps a) (_smartStep a) (_smartStepCount a)
    (_overlay a) v (_chrome a) (inFlight a).
Definition set_chrome v (a : Adapter) : Adapter :=
  mkAdapter (_currentStack a) (_committedBreakpointsByUrl a) (_exception a)
    (_setBreakpointsRequestQ a) (_expectingResumedEvent a) (_expectingStopReason a)
    (_frameHandles a) (_variableHandles a) (_breakpointIdHandles a) (_sourceHandles a)
    (_scriptsById a) (_scriptsByUrl a) (_pendingBreakpointsByUrl a) (_currentStep a)
    (_nextUnboundBreakpointId a) (_sourceMaps a) (_smartStep a) (_smartStepCount a)
    (_overlay a) (_session a) v (inFlight a).
Definition set_sourceMaps v (a : Adapter) : Adapter :=
  mkAdapter (_currentStack a) (_committedBreakpointsByUrl a) (_exception a)
    (_setBreakpointsRequestQ a) (_expectingResumedEvent a) (_expectingStopReason a)
    (_frameHandles a) (_variableHandles a) (_breakpointIdHandles a) (_sourceHandles a)
    (_scriptsById a) (_scriptsByUrl a) (_pendingBreakpointsByUrl a) (_currentStep a)
    (_nextUnboundBreakpointId a) v (_smartStep a) (_smartStepCount a) (_overlay a)
    (_session a) (_chrome a) (inFlight a).
Definition set_smartStep v (a : Adapter) : Adapter :=
  mkAdapter (_currentStack a) (_committedBreakpointsByUrl a) (_exception a)
    (_setBreakpointsRequestQ a) (_expectingResumedEvent a) (_expectingStopReason a)
    (_frameHandles a) (_variableHandles a) (_breakpointIdHandles a) (_sourceHandles a)
    (_scriptsById a) (_scriptsByUrl a) (_pendingBreakpointsByUrl a) (_currentStep a)
    (_nextUnboundBreakpointId a) (_sourceMaps a) v (_smartStepCount a) (_overlay a)
    (_session a) (_chrome a) (inFlight a).
Definition set_inFlight v (a : Adapter) : Adapter :=
  mkAdapter (_currentStack a) (_committedBreakpointsByUrl a) (_exception a)
    (_setBreakpointsRequestQ a) (_expectingResumedEvent a) (_expectingStopReason a)
    (_frameHandles a) (_variableHandles a) (_breakpointIdHandles a) (_sourceHandles a)
    (_scriptsById a) (_scriptsByUrl a) (_pendingBreakpointsByUrl a) (_currentStep a)
    (_nextUnboundBreakpointId a) (_sourceMaps a) (_smartStep a) (_smartStepCount a)
    (_overlay a) (_session a) (_chrome a) v.

(** [this._session.sendEvent(e)] and a command sent to the target. *)
Definition sendEvent (e : SessionEvent) (a : Adapter) : Adapter :=
  set_session (_session a ++ [e]) a.

Definition issue (c : CrdpCall) (a : Adapter) : Adapter :=
  set_chrome (_chrome a ++ [c]) a.

(** ** Synchronous code that may throw, and the adapter monad *)

Inductive completion (A : Type) :=
| Return (v : A)
| Throw (e : JsError).
Arguments Return {A} v.
Arguments Throw {A} e.

(** A step of an asynchronous chain: it settles one way or the other and
    leaves the adapter in a new state either way. *)
Definition M (A : Type) : Type := Adapter → promise A * Adapter.

Definition ret {A} (v : A) : M A := λ a, (Resolved v, a).

Definition fail {A} (e : JsError) : M A := λ a, (Rejected e, a).

(** [m.then(f)]: [f] runs only when [m] resolves. *)
Definition bind {A B} (m : M A) (f : A → M B) : M B :=
  λ a, match m a with
       | (Resolved v, a') => f v a'
       | (Rejected e, a') => (Rejected e, a')
       end.

(** The chain is written with stdpp's monad notations [x ← m; k] and
    [m ;; k]. *)
#[export] Instance M_ret : MRet M := @ret.
#[export] Instance M_bind : MBind M := λ A B f m, bind m f.

(** A state change that cannot fail, as a step. *)
Definition lift_state (f : Adapter → Adapter) : M unit := λ a, (Resolved tt, f a).

(** ** Collaborators *)

(** The response of [Runtime.callFunctionOn] as [getNumPropsByEval] reads
    it: the message of [exceptionDetails] when there is one, and
    [result.value], which is whatever the function returned, or nothing
    when there is no value. *)
Record CallFunctionOnResponse := mkCallFunctionOnResponse {
  exceptionDetails : option string;
  result_value : option Json
}.

(** What the adapter calls but does not define: the target behind the CDP
    connection, the helpers of [utils], [path] and [variables], and the
    hooks of the three transformers.  The containers of [variables] come
    back to the adapter to turn remote objects into variables: [expand]
    may register variable handles, [setValue] writes no field.  Each
    collaborator answers by a function of what it is asked; the statements
    below hold for every such environment.  The environment also has the
    text that the engine gives a TypeError, and the time that the source
    map takes to look a path up, which nothing in the adapter reads. *)
Record Env := mkEnv {
  (* Crdp.CrdpClient *)
  chrome_command : CrdpCall → promise unit;
  chrome_setBreakpoint : Location → option string → promise SetBreakpointResponse;
  chrome_setBreakpointByUrl :
    string → Z → Z → option string → promise SetBreakpointByUrlResponse;
  chrome_callFunctionOn : option string → string → promise CallFunctionOnResponse;
  (* utils, path, JSON, variables *)
  fixDriveLetterAndSlashes : string → string;
  pathToRegex : string → string;
  localize : string → string → string;
  basename : string → string;
  isIndexedPropName : string → bool;
  JSON_stringify : JsValue → JsValue;
  JSON_stringify_value : Json → string;
  TypeError_message : string;
  toUpperCase : string → string;
  expand : IVariableContainer → option string → option Z → option Z →
           Handles IVariableContainer →
           promise (list DapVariable) * Handles IVariableContainer;
  setValue : IVariableContainer → string → string → promise string;
  (* LineColTransformer *)
  lineCol_setBreakpoints : ISetBreakpointsArgs → ISetBreakpointsArgs;
  lineCol_setBreakpointsResponse : ISetBreakpointsResponseBody → ISetBreakpointsResponseBody;
  lineCol_stackTraceResponse : list StackFrame → list StackFrame;
  (* BaseSourceMapTransformer *)
  sourceMap_setBreakpoints : ISetBreakpointsArgs → nat → ISetBreakpointsArgs;
  sourceMap_setBreakpointsResponse :
    ISetBreakpointsResponseBody → nat → ISetBreakpointsResponseBody;
  sourceMap_stackTraceResponse : list StackFrame → list StackFrame;
  sourceMap_scriptParsed : string → option string → promise (option (list string));
  getGeneratedPathFromAuthoredPath : string → promise (option string);
  getGeneratedPathFromAuthoredPath_ms : string → nat;
  mapToAuthored : option string → Z → option Z → promise bool;
  (* BasePathTransformer *)
  path_setBreakpoints : ISetBreakpointsArgs → ISetBreakpointsArgs;
  path_stackTraceResponse : list StackFrame → list StackFrame;
  path_scriptParsed : string → string;
  getTargetPathFromClientPath : string → option string;
  getClientPathFromTargetPath : option string → option string
}.

(** [e.message]: an Error has the message it was made with and a
    TypeError the text of the engine; a bare string and the typed errors
    of [errors.ts] have none. *)
Definition message_of (E : Env) (e : JsError) : option string :=
  match e with
  | Error m => Some m
  | TypeError => Some (TypeError_message E)
  | _ => None
  end.

(** ** Constants *)

Definition THREAD_ID : nat := 1.
Definition PAGE_PAUSE_MESSAGE : string := "Paused in Visual Studio Code".
Definition PLACEHOLDER_URL_PROTOCOL : string := "debugadapter://".
Definition SET_BREAKPOINTS_TIMEOUT : nat := 3000.

(** Modelled from the spec: [utils.lstrip(s, lStr)] is defined in
    utils.ts, which is missing.  It removes the placeholder scheme in front
    of a placeholder URL and gives the script id that follows it. *)
Definition lstrip (s lStr : string) : string :=
  if startsWith s lStr then String.substring (String.length lStr)
                              (String.length s - String.length lStr) s
  else s.

(** ** The methods of ChromeDebugAdapter *)

Section Methods.
Context (E : Env).

(** Called on 'clearEverything' or on a navigation/refresh.  The two
    calls [clearTargetContext()] on the transformers change their state
    only. *)
Definition clearTargetContext (a : Adapter) : Adapter :=
  let a := set_scriptsById ∅ a in
  let a := set_scriptsByUrl ∅ a in
  let a := set_committedBreakpointsByUrl ∅ a in
  let a := set_setBreakpointsRequestQ (Resolved tt) a in
  a.

(** The constructor followed by the field initialisers; [start] is the
    first number the registries issue. *)
Definition new_ChromeDebugAdapter (start : nat) : Adapter :=
  clearTargetContext
    {| _currentStack := None;
       _committedBreakpointsByUrl := ∅;
       _exception := None;
       _setBreakpointsRequestQ := Resolved tt;
       _expectingResumedEvent := false;
       _expectingStopReason := None;
       _frameHandles := Handles_new start;
       _variableHandles := Handles_new start;
       _breakpointIdHandles := ReverseHandles_new start;
       _sourceHandles := Handles_new start;
       _scriptsById := ∅;
       _scriptsByUrl := ∅;
       _pendingBreakpointsByUrl := ∅;
       _currentStep := Resolved tt;
       _nextUnboundBreakpointId := 0;
       _sourceMaps := false;
       _smartStep := false;
       _smartStepCount := 0;
       _overlay := None;
       _session := [];
       _chrome := [];
       inFlight := [] |}.

(** The part of [commonArgs] that writes adapter fields. *)
Definition commonArgs (sourceMaps smartStep : bool) (a : Adapter) : Adapter :=
  set_smartStep smartStep (set_sourceMaps sourceMaps a).

(** e.g. the target navigated *)
Definition onGlobalObjectCleared (a : Adapter) : Adapter := clearTargetContext a.

(** The overlay is debounced and its failure is caught: only the message
    last asked for is kept. *)
Definition setOverlay (msg : option string) (a : Adapter) : Adapter := set_overlay msg a.

(** *** continue, next, stepIn, stepOut, pause *)

Definition continue (a : Adapter) : promise unit * Adapter :=
  let a := set_expectingResumedEvent true a in
  let a := issue Debugger_resume a in
  let p := then_val (chrome_command E Debugger_resume) (λ _, tt) in
  (p, set_currentStep p a).

Definition next (a : Adapter) : promise unit * Adapter :=
  let a := set_expectingStopReason (Some "step") a in
  let a := set_expectingResumedEvent true a in
  let a := issue Debugger_stepOver a in
  let p := then_val (chrome_command E Debugger_stepOver) (λ _, tt) in
  (p, set_currentStep p a).

Definition stepIn (a : Adapter) : promise unit * Adapter :=
  let a := set_expectingStopReason (Some "step") a in
  let a := set_expectingResumedEvent true a in
  let a := issue Debugger_stepInto a in
  let p := then_val (chrome_command E Debugger_stepInto) (λ _, tt) in
  (p, set_currentStep p a).

Definition stepOut (a : Adapter) : promise unit * Adapter :=
  let a := set_expectingStopReason (Some "step") a in
  let a := set_expectingResumedEvent true a in
  let a := issue Debugger_stepOut a in
  let p := then_val (chrome_command E Debugger_stepOut) (λ _, tt) in
  (p, set_currentStep p a).

Definition pause (a : Adapter) : promise unit * Adapter :=
  let a := set_expectingStopReason (Some "user_request") a in
  let a := issue Debugger_pause a in
  let p := then_val (chrome_command E Debugger_pause) (λ _, tt) in
  (p, set_currentStep p a).

(** *** Debugger.resumed *)

Definition onDebuggerResumed (a : Adapter) : Adapter :=
  let a := setOverlay None a in
  let a := set_currentStack None a in
  if negb (_expectingResumedEvent a) then sendEvent (ContinuedEvent THREAD_ID) a
  else set_expectingResumedEvent false a.

(** *** Stack frames *)

Definition shouldIgnoreScript (script : ScriptParsedEvent) : bool :=
  startsWith (url script) "extensions::" || startsWith (url script) "chrome-extension://".

(** The body of the [try] block; it throws when the frame has no function
    name and its script is unknown, after the source handle is created. *)
Definition callFrameToStackFrame_try (frame : CallFrame) (a : Adapter)
    : completion StackFrame * Adapter :=
  let script := _scriptsById a !! loc_scriptId (location frame) in
  let '(src, a) :=
    match script with
    | Some s =>
        if negb (shouldIgnoreScript s) then
          let '(h, sh) := Handles_create (mkISourceContainer (Some (scriptId s)) None None)
                            (_sourceHandles a) in
          (mkSource (Some (basename E (url s))) (Some (url s)) (Some h),
           set_sourceHandles sh a)
        else
          let '(h, sh) := Handles_create
                            (mkISourceContainer (Some (loc_scriptId (location frame))) None None)
                            (_sourceHandles a) in
          (mkSource (Some (basename E (url s)))
             (Some (PLACEHOLDER_URL_PROTOCOL +:+ loc_scriptId (location frame))) (Some h),
           set_sourceHandles sh a)
    | None =>
        let '(h, sh) := Handles_create
                          (mkISourceContainer (Some (loc_scriptId (location frame))) None None)
                          (_sourceHandles a) in
        (mkSource None
           (Some (PLACEHOLDER_URL_PROTOCOL +:+ loc_scriptId (location frame))) (Some h),
         set_sourceHandles sh a)
    end in
  let frameName : completion string :=
    if truthy (functionName frame) then Return (functionName frame)
    else match script with
         | Some s => Return (if truthy (url s) then "(anonymous function)" else "(eval code)")
         | None => Throw TypeError
         end in
  match frameName with
  | Throw e => (Throw e, a)
  | Return name =>
      let '(h, fh) := Handles_create (Some frame) (_frameHandles a) in
      (Return (mkStackFrame h name src (lineNumber (location frame))
                 (columnNumber (location frame))),
       set_frameHandles fh a)
  end.

Definition callFrameToStackFrame (frame : CallFrame) (a : Adapter) : StackFrame * Adapter :=
  match callFrameToStackFrame_try frame a with
  | (Return sf, a) => (sf, a)
  | (Throw _, a) =>
      (* Some targets return nonsense callFrames: a dummy stack frame *)
      let '(h, fh) := Handles_create None (_frameHandles a) in
      (mkStackFrame h "Unknown"
         (mkSource (Some "eval:Unknown") (Some (PLACEHOLDER_URL_PROTOCOL +:+ "Unknown")) None)
         (lineNumber (location frame)) (columnNumber (location frame)),
       set_frameHandles fh a)
  end.

(** *** Debugger.paused *)

(** [frame] is [this._currentStack[0]]: nothing when the stack is empty,
    and then the destructuring in [callFrameToStackFrame] throws. *)
Definition shouldSmartStep (frame : option CallFrame) (a : Adapter)
    : completion (promise bool) * Adapter :=
  if negb (_sourceMaps a) then (Return (Resolved false), a)
  else
    match frame with
    | None => (Throw TypeError, a)
    | Some frame =>
        let '(stackFrame, a) := callFrameToStackFrame frame a in
        let clientPath := getClientPathFromTargetPath E (src_path (sf_source stackFrame)) in
        (Return (then_val
                   (mapToAuthored E clientPath (lineNumber (location frame))
                      (columnNumber (location frame)))
                   negb),
         a)
    end.

Definition stopReasonText (reason : string) : string :=
  if String.eqb reason "entry" then localize E "reason.entry" "entry"
  else if String.eqb reason "exception" then localize E "reason.exception" "exception"
  else if String.eqb reason "breakpoint" then localize E "reason.breakpoint" "breakpoint"
  else if String.eqb reason "debugger" then
    localize E "reason.debugger_statement" "debugger statement"
  else if String.eqb reason "frame_entry" then localize E "reason.restart" "frame entry"
  else if String.eqb reason "step" then localize E "reason.step" "step"
  else if String.eqb reason "user_request" then localize E "reason.user_request" "user request"
  else reason.

(** [notification.hitBreakpoints && notification.hitBreakpoints.length] *)
Definition hasHitBreakpoints (notification : PausedEvent) : bool :=
  match hitBreakpoints notification with
  | Some (_ :: _) => true
  | _ => false
  end.

(** The handler up to the registration of the callback on [smartStepP]:
    it gives the chosen reason and [smartStepP]. *)
Definition onDebuggerPaused (notification : PausedEvent) (a : Adapter)
    : completion (string * promise bool) * Adapter :=
  let a := set_variableHandles (Handles_reset (_variableHandles a)) a in
  let a := set_frameHandles (Handles_reset (_frameHandles a)) a in
  let a := set_sourceHandles (Handles_reset (_sourceHandles a)) a in
  let a := set_exception None a in
  let a := setOverlay (Some PAGE_PAUSE_MESSAGE) a in
  let a := set_currentStack (Some (callFrames notification)) a in
  let '(chosen, a) :=
    if String.eqb (reason notification) "exception" then
      (Return ("exception", Resolved false), set_exception (data notification) a)
    else if hasHitBreakpoints notification then
      (Return ("breakpoint", Resolved false), a)
    else if truthy_opt (_expectingStopReason a) then
      (* If this was a step, check whether to smart step *)
      let reason := default "" (_expectingStopReason a) in
      if _smartStep a then
        match shouldSmartStep (head (callFrames notification)) a with
        | (Return p, a) => (Return (reason, p), a)
        | (Throw e, a) => (Throw e, a)
        end
      else (Return (reason, Resolved false), a)
    else
      (Return ("debugger", Resolved false), a) in
  match chosen with
  | Throw e => (Throw e, a)
  | Return r => (Return r, set_expectingStopReason None a)
  end.

(** The callback on [smartStepP].  The stopped event waits for
    [_currentStep] or for 300 ms and is sent either way. *)
Definition onDebuggerPaused_then (reason : string) (should : bool) (a : Adapter) : Adapter :=
  if should then
    let a := set_smartStepCount (S (_smartStepCount a)) a in
    snd (stepIn a)
  else
    let a := if (0 <? _smartStepCount a)%nat then set_smartStepCount 0%nat a else a in
    sendEvent (StoppedEvent (stopReasonText reason) THREAD_ID) a.

(** The whole handling of a paused notification, the callback included.
    A rejected [smartStepP] leaves the callback unrun. *)
Definition handle_paused (notification : PausedEvent) (a : Adapter) : Adapter :=
  match onDebuggerPaused notification a with
  | (Return (reason, Resolved should), a) => onDebuggerPaused_then reason should a
  | (Return (_, Rejected _), a) => a
  | (Throw _, a) => a
  end.

(** *** stackTrace and scopes *)

Fixpoint mapM_frames (stack : list CallFrame) (a : Adapter) : list StackFrame * Adapter :=
  match stack with
  | [] => ([], a)
  | frame :: rest =>
      let '(sf, a) := callFrameToStackFrame frame a in
      let '(sfs, a) := mapM_frames rest a in
      (sf :: sfs, a)
  end.

(** [levels] is [args.levels]; zero and absent are both falsy. *)
Definition stackTrace (levels : option nat) (a : Adapter)
    : completion (list StackFrame) * Adapter :=
  match _currentStack a with
  | None => (Throw TypeError, a)
  | Some currentStack =>
      let stack :=
        match levels with
        | Some (S n) => take (S n) currentStack
        | _ => currentStack
        end in
      let '(stackFrames, a) := mapM_frames stack a in
      (Return (lineCol_stackTraceResponse E
                 (sourceMap_stackTraceResponse E (path_stackTraceResponse E stackFrames))),
       a)
  end.

(** The scopes of one frame, [i] being the index of the first of them. *)
Fixpoint scopes_map (currentFrame : CallFrame) (i : nat) (chain : list Scope) (a : Adapter)
    : list DapScope * Adapter :=
  match chain with
  | [] => ([], a)
  | scope :: rest =>
      let thisObj := if (i =? 0)%nat then this currentFrame else None in
      let returnValue := if (i =? 0)%nat then returnValue currentFrame else None in
      let '(variablesReference, vh) :=
        Handles_create
          (ScopeContainer (callFrameId currentFrame) (Some i)
             (objectId (scope_object scope)) thisObj returnValue)
          (_variableHandles a) in
      let a := set_variableHandles vh a in
      let '(rest', a) := scopes_map currentFrame (S i) rest a in
      (mkDapScope
         (toUpperCase E (String.substring 0 1 (scope_type scope)) +:+
          String.substring 1 (String.length (scope_type scope) - 1) (scope_type scope))
         variablesReference
         (Some (String.eqb (scope_type scope) "global")) :: rest', a)
  end.

Definition scopes (frameId : nat) (a : Adapter) : completion (list DapScope) * Adapter :=
  match Handles_get (_frameHandles a) frameId with
  | Some (Some currentFrame) =>
      let '(scopes, a) := scopes_map currentFrame 0 (scopeChain currentFrame) a in
      match _exception a with
      | Some exception =>
          let '(variablesReference, vh) :=
            Handles_create (ExceptionContainer exception) (_variableHandles a) in
          (Return (mkDapScope (localize E "scope.exception" "Exception")
                     variablesReference None :: scopes),
           set_variableHandles vh a)
      | None => (Return scopes, a)
      end
  | _ => (Throw TypeError, a)
  end.

(** *** variables and setVariable *)

(** The body is [undefined] ([None]) when the reference is not a
    registered variable handle. *)
Definition variables (variablesReference : nat) (filter : option string)
    (start count : option Z) (a : Adapter) : promise (option (list DapVariable)) * Adapter :=
  match Handles_get (_variableHandles a) variablesReference with
  | None => (Resolved None, a)
  | Some handle =>
      let '(p, vh) := expand E handle filter start count (_variableHandles a) in
      (then_val p Some, set_variableHandles vh a)
  end.

Definition setVariable (variablesReference : nat) (name value : string) (a : Adapter)
    : promise string * Adapter :=
  match Handles_get (_variableHandles a) variablesReference with
  | None => (Rejected (Domain setValueNotSupported), a)
  | Some handle => (then_val (setValue E handle name value) (λ value, value), a)
  end.

(** *** Remote objects as variables *)

Record IPropCount := mkIPropCount {
  pc_indexedVariables : option Json;
  pc_namedVariables : option Json
}.

(** [members[name]] of an object: the last member of that name. *)
Definition Json_member (name : string) (members : list (string * Json)) : option Json :=
  snd <$> list.last (filter (λ member, member.1 = name) members).

(** [v.length], nothing for [undefined]: an array and a string have a
    length, an object has the member of that name, if any. *)
Definition Json_length (v : Json) : option Json :=
  match v with
  | JsonArray elements => Some (JsonNumber (Z.of_nat (length elements)))
  | JsonString s => Some (JsonNumber (Z.of_nat (String.length s)))
  | JsonObject members => Json_member "length" members
  | _ => None
  end.

(** [v[i]], nothing for [undefined]. *)
Definition Json_index (v : Json) (i : nat) : option Json :=
  match v with
  | JsonArray elements => elements !! i
  | JsonString s => (λ c, JsonString (String c "")) <$> String.get i s
  | JsonObject members => Json_member (pretty i) members
  | _ => None
  end.

(** [v.length === n] *)
Definition length_is (v : Json) (n : Z) : bool :=
  match Json_length v with
  | Some (JsonNumber m) => (m =? n)%Z
  | _ => false
  end.

(** The callback reads [response.result.value.length]: on a missing or
    null value the read throws, and a throw inside the callback of [then]
    is a rejection that the second callback does not see. *)
Definition getNumPropsByEval (objectId : option string) (getNumPropsFn : string) (a : Adapter)
    : promise IPropCount * Adapter :=
  let a := issue (Runtime_callFunctionOn objectId getNumPropsFn) a in
  (match chrome_callFunctionOn E objectId getNumPropsFn with
   | Resolved response =>
       match exceptionDetails response with
       | Some errMsg => Rejected (Domain (errorFromEvaluate (Some errMsg)))
       | None =>
           match result_value response with
           | None | Some JsonNull => Rejected TypeError
           | Some resultProps =>
               if negb (length_is resultProps 2) then
                 Rejected (Domain (errorFromEvaluate
                   (Some ("Did not get expected props, got " +:+
                          JSON_stringify_value E resultProps))))
               else
                 Resolved (mkIPropCount (Json_index resultProps 0)
                             (Json_index resultProps 1))
           end
       end
   | Rejected error => Rejected (Domain (errorFromEvaluate (message_of E error)))
   end, a).

Definition getArrayNumPropsByEval (objectId : option string) : Adapter → promise IPropCount * Adapter :=
  getNumPropsByEval objectId
    "function() { return [this.length, Object.keys(this).length - this.length]; }".

Definition getArrayNumPropsByPreview (p : ObjectPreview) : IPropCount :=
  let indexed := filter (λ prop, isIndexedPropName E (pp_name prop) = true) (properties p) in
  mkIPropCount (Some (JsonNumber (Z.of_nat (length indexed))))
    (Some (JsonNumber (Z.of_nat (length (properties p) - length indexed)))).

Definition getCollectionNumPropsByEval (objectId : option string) : Adapter → promise IPropCount * Adapter :=
  getNumPropsByEval objectId "function() { return [0, Object.keys(this).length + 1]; }".

Definition getCollectionNumPropsByPreview (p : ObjectPreview) : IPropCount :=
  mkIPropCount (Some (JsonNumber 0)) (Some (JsonNumber (Z.of_nat (length (properties p)) + 1))).

(** A string operand of [+] that may be [undefined]. *)
Definition concat_opt (o : option string) : string := default "undefined" o.

(** [preview.properties.filter(prop => prop.name === name)[0]] *)
Definition previewStatus (name : string) (p : ObjectPreview) : option PropertyPreview :=
  head (filter (λ prop, pp_name prop = name) (properties p)).

Definition subtype_is (object : RemoteObject) (s : string) : bool :=
  bool_decide (subtype object = Some s).

Definition createObjectVariable (name : string) (object : RemoteObject) (a : Adapter)
    : completion (promise DapVariable) * Adapter :=
  let usable := match preview object with Some p => negb (overflow p) | None => false end in
  let '(prepared, a) :=
    if subtype_is object "array" || subtype_is object "typedarray" then
      match preview object with
      | Some p => if usable then (Return (description object, Resolved (getArrayNumPropsByPreview p)), a)
                  else let '(c, a) := getArrayNumPropsByEval (objectId object) a in
                       (Return (description object, c), a)
      | None => let '(c, a) := getArrayNumPropsByEval (objectId object) a in
                (Return (description object, c), a)
      end
    else if subtype_is object "set" || subtype_is object "map" then
      match preview object with
      | Some p => if usable then (Return (description object, Resolved (getCollectionNumPropsByPreview p)), a)
                  else let '(c, a) := getCollectionNumPropsByEval (objectId object) a in
                       (Return (description object, c), a)
      | None => let '(c, a) := getCollectionNumPropsByEval (objectId object) a in
                (Return (description object, c), a)
      end
    else
      let value : completion (option string) :=
        if subtype_is object "error" then
          match description object with
          | None => Throw TypeError
          | Some d =>
              match String.index 0 (String (Ascii.ascii_of_nat 10) "") d with
              | Some firstNewlineIdx => Return (Some (String.substring 0 firstNewlineIdx d))
              | None => Return (Some d)
              end
          end
        else
          match preview object with
          | Some p =>
              if subtype_is object "promise" then
                match previewStatus "[[PromiseStatus]]" p with
                | Some status =>
                    Return (Some (concat_opt (description object) +:+ " { " +:+
                                  concat_opt (pp_value status) +:+ " }"))
                | None => Return (description object)
                end
              else if subtype_is object "generator" then
                match previewStatus "[[GeneratorStatus]]" p with
                | Some status =>
                    Return (Some (concat_opt (description object) +:+ " { " +:+
                                  concat_opt (pp_value status) +:+ " }"))
                | None => Return (description object)
                end
              else Return (description object)
          | None => Return (description object)
          end in
      match value with
      | Throw e => (Throw e, a)
      | Return v => (Return (v, Resolved (mkIPropCount None None)), a)
      end in
  match prepared with
  | Throw e => (Throw e, a)
  | Return (value, propCountP) =>
      let '(variablesReference, vh) :=
        Handles_create (PropertyContainer (objectId object)) (_variableHandles a) in
      (Return (then_val propCountP (λ c,
         mkVariable name (js_of_opt value) variablesReference (Some (js_of_opt value))
           (pc_indexedVariables c) (pc_namedVariables c))),
       set_variableHandles vh a)
  end.

Definition createFunctionVariable (name : string) (object : RemoteObject) (a : Adapter)
    : completion DapVariable * Adapter :=
  match description object with
  | None => (Throw TypeError, a)
  | Some d =>
      let value :=
        match String.index 0 "{" d with
        | Some firstBraceIdx => String.substring 0 firstBraceIdx d +:+ "{ … }"
        | None =>
            match String.index 0 "=>" d with
            | Some firstArrowIdx => String.substring 0 (firstArrowIdx + 2) d +:+ " …"
            | None => d
            end
        end in
      let '(variablesReference, vh) :=
        Handles_create (PropertyContainer (objectId object)) (_variableHandles a) in
      (Return (mkVariable name (JsString value) variablesReference (Some (JsString value))
                 None None),
       set_variableHandles vh a)
  end.

(** [object] is nothing when the argument is [undefined] or [null];
    [stringify] defaults to [true] at the call sites that omit it. *)
Definition remoteObjectToVariable (name : string) (object : option RemoteObject)
    (stringify : bool) (a : Adapter) : completion (promise DapVariable) * Adapter :=
  let plain (value : JsValue) :=
    (Return (Resolved (mkVariable name value 0 None None None)), a) in
  match object with
  | None => plain (JsString "")
  | Some object =>
      if String.eqb (type object) "object" then
        if subtype_is object "internal#location" then plain (JsString "internal#location")
        else if subtype_is object "null" then plain (JsString "null")
        else createObjectVariable name object a
      else if String.eqb (type object) "undefined" then plain (JsString "undefined")
      else if String.eqb (type object) "function" then
        match createFunctionVariable name object a with
        | (Return v, a) => (Return (Resolved v), a)
        | (Throw e, a) => (Throw e, a)
        end
      else
        match value object with
        | JsUndefined => plain (js_of_opt (description object))
        | v =>
            if String.eqb (type object) "number" then plain (js_of_opt (description object))
            else plain (if stringify then JSON_stringify E v else v)
        end
  end.

(** *** Debugger.scriptParsed *)

(** The handler up to the registration of the callback on the promise of
    authored sources, which is returned; the callback re-issues
    [setBreakpoints] for the sources that have a pending record.  Nothing
    is returned for an ignored script. *)
Definition onScriptParsed (script : ScriptParsedEvent) (a : Adapter)
    : option (promise (option (list string))) * Adapter :=
  (* Totally ignore extension scripts, internal Chrome scripts, and so on *)
  if shouldIgnoreScript script then (None, a)
  else
    let script :=
      mkScriptParsedEvent (scriptId script)
        (if truthy (url script) then fixDriveLetterAndSlashes E (url script)
         else PLACEHOLDER_URL_PROTOCOL +:+ scriptId script)
        (sourceMapURL script) in
    let a := set_scriptsById (<[scriptId script := script]> (_scriptsById a)) a in
    let a := set_scriptsByUrl (<[url script := script]> (_scriptsByUrl a)) a in
    let mappedUrl := path_scriptParsed E (url script) in
    (Some (sourceMap_scriptParsed E mappedUrl (sourceMapURL script)), a).

(** *** setBreakpoints *)

Definition validateBreakpointsPath (args : ISetBreakpointsArgs) : promise unit :=
  match src_path (source args) with
  | None => Resolved tt
  | Some path =>
      if negb (truthy path) then Resolved tt
      else
        then_ (getGeneratedPathFromAuthoredPath E path) (λ mappedPath,
          match mappedPath with
          | Some mapped =>
              if truthy mapped then
                if truthy_opt (getTargetPathFromClientPath E mapped) then Resolved tt
                else Rejected (Error "Breakpoint ignored because target path not found")
              else Rejected (Error (localize E "sourcemapping.fail.message"
                     "Breakpoint ignored because generated code not found (source map problem?)."))
          | None => Rejected (Error (localize E "sourcemapping.fail.message"
                     "Breakpoint ignored because generated code not found (source map problem?)."))
          end)
  end.

(** [args.breakpoints.map(...)] of [unverifiedBpResponse]: one fresh id
    per requested breakpoint, registered under the next unbound number
    written in decimal. *)
Fixpoint unverifiedBreakpoints (bps : list SourceBreakpoint) (message : option string)
    (a : Adapter) : list Breakpoint * Adapter :=
  match bps with
  | [] => ([], a)
  | bp :: rest =>
      let unbound := _nextUnboundBreakpointId a in
      let a := set_nextUnboundBreakpointId (S unbound) a in
      let '(id, bh) := ReverseHandles_create (Some (pretty unbound)) (_breakpointIdHandles a) in
      let a := set_breakpointIdHandles bh a in
      let '(rest', a) := unverifiedBreakpoints rest message a in
      (mkBreakpoint (Some id) false (Some (sbp_line bp)) (sbp_column bp) message :: rest', a)
  end.

Definition unverifiedBpResponse (args : ISetBreakpointsArgs) (message : option string)
    (a : Adapter) : ISetBreakpointsResponseBody * Adapter :=
  let '(breakpoints, a) := unverifiedBreakpoints (breakpoints args) message a in
  let a :=
    match src_path (source args) with
    | Some path =>
        if truthy path then
          let ids := omap bp_id breakpoints in
          set_pendingBreakpointsByUrl
            (<[path := mkIPendingBreakpoint args ids]> (_pendingBreakpointsByUrl a)) a
        else a
    | None => a
    end in
  (mkBody breakpoints, a).

(** Remove breakpoints one at a time: a removal is sent only when the one
    before it succeeded. *)
Fixpoint removeBreakpoints (ids : list string) : M unit :=
  match ids with
  | [] => ret tt
  | breakpointId :: rest =>
      (λ a, (chrome_command E (Debugger_removeBreakpoint breakpointId),
             issue (Debugger_removeBreakpoint breakpointId) a)) ;;
      removeBreakpoints rest
  end.

(** The committed list of a URL is [null] ([Some None]) between a clear
    and the add that follows; [reduce] on it throws. *)
Definition clearAllBreakpoints (url : string) : M unit :=
  λ a,
    match _committedBreakpointsByUrl a !! url with
    | None => ret tt a
    | Some None => fail TypeError a
    | Some (Some ids) =>
        ((removeBreakpoints ids ;;
          lift_state (λ a, set_committedBreakpointsByUrl
                             (<[url := None]> (_committedBreakpointsByUrl a)) a)) : M unit) a
    end.

(** The conversion of a [setBreakpointByUrl] result to the shape of a
    [setBreakpoint] response; an error becomes the empty object. *)
Definition byUrlResponse (script : option ScriptParsedEvent)
    (p : promise SetBreakpointByUrlResponse) : promise SetBreakpointResponse :=
  match p with
  | Resolved result =>
      match head (locations result) with
      | Some l0 =>
          match script with
          | Some s =>
              Resolved (mkSetBreakpointResponse (Some (byurl_breakpointId result))
                          (Some (mkLocation (scriptId s) (lineNumber l0) (columnNumber l0))))
          | None => Rejected TypeError
          end
      | None => Resolved (mkSetBreakpointResponse (Some (byurl_breakpointId result)) None)
      end
  | Rejected _ => Resolved empty_object (* Ignore errors, return an empty object *)
  end.

(** Makes the actual call to either Debugger.setBreakpoint or
    Debugger.setBreakpointByUrl, and returns the response.  Every command
    is sent at once; the responses are joined. *)
Definition addBreakpoints (url : string) (breakpoints : list SourceBreakpoint)
    : M (list SetBreakpointResponse) :=
  λ a,
    if startsWith url PLACEHOLDER_URL_PROTOCOL then
      (* eval script with no real url - use debugger_setBreakpoint *)
      let scriptId := lstrip url PLACEHOLDER_URL_PROTOCOL in
      let request (bp : SourceBreakpoint) :=
        (mkLocation scriptId (sbp_line bp) (Some (default 0 (sbp_column bp))),
         sbp_condition bp) in
      let responsePs :=
        (λ bp, chrome_setBreakpoint E (request bp).1 (request bp).2) <$> breakpoints in
      (Promise_all responsePs,
       set_chrome
         (_chrome a ++ ((λ bp, Debugger_setBreakpoint (request bp).1 (request bp).2)
                          <$> breakpoints)) a)
    else
      (* script that has a url - use debugger_setBreakpointByUrl *)
      let script := _scriptsByUrl a !! url in
      let urlRegex := pathToRegex E url in
      let responsePs :=
        (λ bp, byUrlResponse script
                 (chrome_setBreakpointByUrl E urlRegex (sbp_line bp)
                    (default 0 (sbp_column bp)) (sbp_condition bp))) <$> breakpoints in
      (Promise_all responsePs,
       set_chrome
         (_chrome a ++ ((λ bp, Debugger_setBreakpointByUrl urlRegex (sbp_line bp)
                                 (default 0 (sbp_column bp)) (sbp_condition bp))
                          <$> breakpoints)) a).

(** [responses.filter(response => !!response.breakpointId)
             .map(response => response.breakpointId)]; reading the
    property of a missing response throws. *)
Fixpoint committedBpIds (responses : list (option SetBreakpointResponse))
    : completion (list string) :=
  match responses with
  | [] => Return []
  | None :: _ => Throw TypeError
  | Some response :: rest =>
      match committedBpIds rest with
      | Throw e => Throw e
      | Return ids =>
          match breakpointId response with
          | Some id => Return (if truthy id then id :: ids else ids)
          | None => Return ids
          end
      end
  end.

(** The callback of [responses.map(...)]. *)
Definition responseToODPBreakpoint (response : option SetBreakpointResponse) (a : Adapter)
    : Breakpoint * Adapter :=
  match response with
  | None =>
      (* map errors to unverified breakpoints *)
      (mkBreakpoint None false None None None, a)
  | Some response =>
      let '(id, bh) := ReverseHandles_create (breakpointId response) (_breakpointIdHandles a) in
      let a := set_breakpointIdHandles bh a in
      match actualLocation response with
      | None => (mkBreakpoint (Some id) false None None None, a)
      | Some loc =>
          (mkBreakpoint (Some id) true (Some (lineNumber loc)) (columnNumber loc) None, a)
      end
  end.

Fixpoint responsesToODPBreakpoints (responses : list (option SetBreakpointResponse))
    (a : Adapter) : list Breakpoint * Adapter :=
  match responses with
  | [] => ([], a)
  | response :: rest =>
      let '(bp, a) := responseToODPBreakpoint response a in
      let '(bps, a) := responsesToODPBreakpoints rest a in
      (bp :: bps, a)
  end.

Definition chromeBreakpointResponsesToODPBreakpoints (url : string)
    (responses : list (option SetBreakpointResponse)) (requestBps : list SourceBreakpoint)
    (a : Adapter) : completion (list Breakpoint) * Adapter :=
  (* Don't cache errored responses *)
  match committedBpIds responses with
  | Throw e => (Throw e, a)
  | Return ids =>
      (* Cache successfully set breakpoint ids from chrome in committedBreakpoints set *)
      let a := set_committedBreakpointsByUrl
                 (<[url := Some ids]> (_committedBreakpointsByUrl a)) a in
      let '(bps, a) := responsesToODPBreakpoints responses a in
      (Return bps, a)
  end.

(** [targetScriptUrl] of [setBreakpoints]; reading [scriptId] of a source
    handle that is not registered throws. *)
Definition targetScriptUrl (args : ISetBreakpointsArgs) (a : Adapter)
    : completion (option string) :=
  if truthy_opt (src_path (source args)) then Return (src_path (source args))
  else
    match sourceReference (source args) with
    | Some (S n) =>
        match Handles_get (_sourceHandles a) (S n) with
        | None => Throw TypeError
        | Some handle =>
            match sc_scriptId handle ≫= (λ id, _scriptsById a !! id) with
            | Some targetScript => Return (Some (url targetScript))
            | None => Return None
            end
        end
    | _ => Return None
    end.

(** The exchange queued behind [_setBreakpointsRequestQ]: clear all
    breakpoints of the script, then add all of them, then translate. *)
Definition setBreakpointsExchange (targetScriptUrl : string)
    (breakpoints : list SourceBreakpoint) : M ISetBreakpointsResponseBody :=
  clearAllBreakpoints targetScriptUrl ;;
  responses ← addBreakpoints targetScriptUrl breakpoints ;
  ((λ a, match chromeBreakpointResponsesToODPBreakpoints targetScriptUrl
                 (Some <$> responses) breakpoints a with
         | (Return bps, a) => (Resolved (mkBody bps), a)
         | (Throw e, a) => (Rejected e, a)
         end) : M ISetBreakpointsResponseBody).

(** The exchange by the answers of the target.  A callback of the chain
    runs to its end without interruption; between two of them the chain
    waits for the target, and whatever else reaches the adapter is
    handled first. *)
Inductive Progress :=
| Waiting (stage : Stage)
| Settled (outcome : promise ISetBreakpointsResponseBody).

(** The last callback: the translation of the responses. *)
Definition exchange_translate (url : string) (breakpoints : list SourceBreakpoint)
    (responses : promise (list SetBreakpointResponse)) (a : Adapter)
    : Progress * Adapter :=
  match responses with
  | Rejected e => (Settled (Rejected e), a)
  | Resolved responses =>
      match chromeBreakpointResponsesToODPBreakpoints url (Some <$> responses)
              breakpoints a with
      | (Return bps, a) => (Settled (Resolved (mkBody bps)), a)
      | (Throw e, a) => (Settled (Rejected e), a)
      end
  end.

(** [addBreakpoints] sends all its commands at once and waits for their
    answers; [Promise.all] of no command has nothing to wait for. *)
Definition exchange_add (url : string) (breakpoints : list SourceBreakpoint) (a : Adapter)
    : Progress * Adapter :=
  let '(responses, a) := addBreakpoints url breakpoints a in
  match breakpoints with
  | [] => exchange_translate url breakpoints responses a
  | _ => (Waiting (Adding responses), a)
  end.

(** The [reduce] of [clearAllBreakpoints] from the removals still to send
    on: the next removal is sent, or the list of the URL is set to [null]
    and the breakpoints are added. *)
Definition exchange_remove (url : string) (breakpoints : list SourceBreakpoint)
    (ids : list string) (a : Adapter) : Progress * Adapter :=
  match ids with
  | breakpointId :: rest =>
      (Waiting (Removing breakpointId rest), issue (Debugger_removeBreakpoint breakpointId) a)
  | [] =>
      exchange_add url breakpoints
        (set_committedBreakpointsByUrl (<[url := None]> (_committedBreakpointsByUrl a)) a)
  end.

(** The first callback, which runs as soon as the queue lets it. *)
Definition exchange_start (url : string) (breakpoints : list SourceBreakpoint) (a : Adapter)
    : Progress * Adapter :=
  match _committedBreakpointsByUrl a !! url with
  | None => exchange_add url breakpoints a
  | Some None => (Settled (Rejected TypeError), a)
  | Some (Some ids) => exchange_remove url breakpoints ids a
  end.

(** The callback that the awaited answer triggers. *)
Definition exchange_step (x : Exchange) (a : Adapter) : Progress * Adapter :=
  match ex_stage x with
  | Removing breakpointId rest =>
      match chrome_command E (Debugger_removeBreakpoint breakpointId) with
      | Rejected e => (Settled (Rejected e), a)
      | Resolved _ => exchange_remove (ex_url x) (ex_breakpoints x) rest a
      end
  | Adding responses => exchange_translate (ex_url x) (ex_breakpoints x) responses a
  end.

(** The exchange from a stage on, to its end; the number of answers it
    waits for is at most [fuel]. *)
Fixpoint exchange_run (fuel : nat) (url : string) (breakpoints : list SourceBreakpoint)
    (progress : Progress * Adapter) : Progress * Adapter :=
  match fuel, progress with
  | S fuel, (Waiting stage, a) =>
      exchange_run fuel url breakpoints (exchange_step (mkExchange url breakpoints stage) a)
  | _, _ => progress
  end.

(** An answer of the target reaches the [i]-th exchange in flight, whose
    timer has fired: its next callback runs, and what the exchange settles
    to in the end is dropped. *)
Definition continueExchange (i : nat) (a : Adapter) : Adapter :=
  match inFlight a !! i with
  | None => a
  | Some x =>
      match exchange_step x a with
      | (Waiting stage, a) =>
          set_inFlight (<[i := mkExchange (ex_url x) (ex_breakpoints x) stage]> (inFlight a)) a
      | (Settled _, a) => set_inFlight (delete i (inFlight a)) a
      end
  end.

(** [elapsed] is the time the target takes to answer what the queued
    exchange asks of it.  Within the time of the timer the callbacks of
    the chain are run to their end here.  Beyond it the exchange is in
    time only when it settles without waiting for the target; otherwise
    the timer fires while the exchange is in flight, and its remaining
    callbacks run when the answers come ([continueExchange]). *)
Definition setBreakpoints (args : ISetBreakpointsArgs) (requestSeq : nat) (elapsed : nat)
    (a : Adapter) : promise ISetBreakpointsResponseBody * Adapter :=
  match validateBreakpointsPath args with
  | Rejected e =>
      let '(body, a) := unverifiedBpResponse args (message_of E e) a in
      (Resolved body, a)
  | Resolved _ =>
      let args := path_setBreakpoints E
                    (sourceMap_setBreakpoints E (lineCol_setBreakpoints E args) requestSeq) in
      match targetScriptUrl args a with
      | Throw e => (Rejected e, a)
      | Return target =>
          if truthy_opt target then
            let targetScriptUrl := default "" target in
            let '(setBreakpointsPFailOnError, a) :=
              match _setBreakpointsRequestQ a with
              | Rejected e => (Some (Rejected e), a)
              | Resolved _ =>
                  if (SET_BREAKPOINTS_TIMEOUT <? elapsed)%nat then
                    match exchange_start targetScriptUrl (breakpoints args) a with
                    | (Settled outcome, a) => (Some outcome, a)
                    | (Waiting stage, a) =>
                        (None,
                         set_inFlight
                           (inFlight a ++ [mkExchange targetScriptUrl (breakpoints args) stage])
                           a)
                    end
                  else
                    let '(outcome, a) :=
                      setBreakpointsExchange targetScriptUrl (breakpoints args) a in
                    (Some outcome, a)
              end in
            let setBreakpointsPTimeout :=
              promiseTimeout setBreakpointsPFailOnError SET_BREAKPOINTS_TIMEOUT
                "Set breakpoints request timed out" in
            (* Swallow errors in the promise queue chain so it doesn't get blocked,
               but return the failing promise for error handling. *)
            let a := set_setBreakpointsRequestQ
                       (catch_ (then_val setBreakpointsPTimeout (λ _, tt)) (λ _, tt)) a in
            (then_val setBreakpointsPTimeout (λ body,
               lineCol_setBreakpointsResponse E
                 (sourceMap_setBreakpointsResponse E body requestSeq)),
             a)
          else
            let '(body, a) :=
              unverifiedBpResponse args
                (Some (localize E "bp.fail.noscript" "Can't find script for breakpoint request"))
                a in
            (Resolved body, a)
      end
  end.

(** ** Sessions *)

(** What reaches the adapter: the notifications of the target, the
    requests of the client, and the answers of the target to an exchange
    in flight.  Left out are the notifications
    breakpointResolved and consoleAPICalled and the requests evaluate,
    source and completions, none of which assigns the stack or registers a
    frame, and the connection itself; of launch and attach only
    [commonArgs] is kept. *)
Inductive Event :=
| Request_launch (sourceMaps smartStep : bool)
| Debugger_paused (notification : PausedEvent)
| Debugger_resumed
| Debugger_scriptParsed (script : ScriptParsedEvent)
| Debugger_globalObjectCleared
| Request_continue
| Request_next
| Request_stepIn
| Request_stepOut
| Request_pause
| Request_stackTrace (levels : option nat)
| Request_scopes (frameId : nat)
| Request_variables (variablesReference : nat) (filter : option string)
    (start count : option Z)
| Request_setVariable (variablesReference : nat) (name value : string)
| Request_setBreakpoints (args : ISetBreakpointsArgs) (requestSeq elapsed : nat)
| Exchange_continues (i : nat).

(** One event handled to its end; what a request answers is dropped, and
    so is the callback of a parsed script, which goes through
    [setBreakpoints]. *)
Definition handle (a : Adapter) (ev : Event) : Adapter :=
  match ev with
  | Request_launch sourceMaps smartStep => commonArgs sourceMaps smartStep a
  | Debugger_paused notification => handle_paused notification a
  | Debugger_resumed => onDebuggerResumed a
  | Debugger_scriptParsed script => (onScriptParsed script a).2
  | Debugger_globalObjectCleared => onGlobalObjectCleared a
  | Request_continue => (continue a).2
  | Request_next => (next a).2
  | Request_stepIn => (stepIn a).2
  | Request_stepOut => (stepOut a).2
  | Request_pause => (pause a).2
  | Request_stackTrace levels => (stackTrace levels a).2
  | Request_scopes frameId => (scopes frameId a).2
  | Request_variables variablesReference filter start count =>
      (variables variablesReference filter start count a).2
  | Request_setVariable variablesReference name value =>
      (setVariable variablesReference name value a).2
  | Request_setBreakpoints args requestSeq elapsed =>
      (setBreakpoints args requestSeq elapsed a).2
  | Exchange_continues i => continueExchange i a
  end.

(** The adapter after a session, from its construction on. *)
Definition run (start : nat) (trace : list Event) : Adapter :=
  fold_left handle trace (new_ChromeDebugAdapter start).

End Methods.




(** ** A sample environment and sample data *)

(** A target that accepts every command and transformers that change
    nothing; [byUrl] answers [Debugger.setBreakpointByUrl] and [generated]
    is the source map's lookup of the generated path. *)
Definition sample_env
    (byUrl : string → Z → Z → option string → promise SetBreakpointByUrlResponse)
    (generated : string → promise (option string)) : Env :=
  {| chrome_command := λ _, Resolved tt;
     chrome_setBreakpoint := λ loc _, Resolved (mkSetBreakpointResponse (Some "7:0") (Some loc));
     chrome_setBreakpointByUrl := byUrl;
     chrome_callFunctionOn :=
       λ _ _, Resolved (mkCallFunctionOnResponse None
                          (Some (JsonArray [JsonNumber 0; JsonNumber 0])));
     fixDriveLetterAndSlashes := λ u, u;
     pathToRegex := λ u, u;
     localize := λ _ message, message;
     basename := λ p, p;
     isIndexedPropName := λ _, false;
     JSON_stringify := λ v, v;
     JSON_stringify_value := λ _, "[]";
     TypeError_message := "Cannot read property of undefined";
     toUpperCase := λ s, s;
     expand := λ _ _ _ _ vh, (Resolved [], vh);
     setValue := λ _ _ value, Resolved value;
     lineCol_setBreakpoints := λ args, args;
     lineCol_setBreakpointsResponse := λ body, body;
     lineCol_stackTraceResponse := λ frames, frames;
     sourceMap_setBreakpoints := λ args _, args;
     sourceMap_setBreakpointsResponse := λ body _, body;
     sourceMap_stackTraceResponse := λ frames, frames;
     sourceMap_scriptParsed := λ _ _, Resolved None;
     getGeneratedPathFromAuthoredPath := generated;
     getGeneratedPathFromAuthoredPath_ms := λ _, 0%nat;
     mapToAuthored := λ _ _ _, Resolved true;
     path_setBreakpoints := λ args, args;
     path_stackTraceResponse := λ frames, frames;
     path_scriptParsed := λ u, u;
     getTargetPathFromClientPath := λ p, Some p;
     getClientPathFromTargetPath := λ p, p |}.

(** The target binds every breakpoint where it is asked. *)
Definition binds : string → Z → Z → option string → promise SetBreakpointByUrlResponse :=
  λ _ line column _, Resolved (mkSetBreakpointByUrlResponse "1:0" [mkLocation "42" line (Some column)]).

(** The target refuses every breakpoint. *)
Definition refuses : string → Z → Z → option string → promise SetBreakpointByUrlResponse :=
  λ _ _ _ _, Rejected (Error "Breakpoint at specified location already exists.").

Definition found : string → promise (option string) := λ p, Resolved (Some p).
Definition not_found : string → promise (option string) := λ _, Resolved None.

Definition sample_object : RemoteObject :=
  mkRemoteObject "object" None JsUndefined (Some "Object") (Some "obj-1") None.

Definition sample_frame : CallFrame :=
  mkCallFrame "frame-0" "main" (mkLocation "42" 10 (Some 0))
    [mkScope "local" sample_object] (Some sample_object) None.

Definition sample_paused : PausedEvent :=
  mkPausedEvent [sample_frame] "other" None None.

Definition sample_args (path : option string) (reference : option nat) : ISetBreakpointsArgs :=
  mkISetBreakpointsArgs (mkSource None path reference) [mkSourceBreakpoint 10 None None].

(** The environment [E] with another answer of the source map to
    [mapToAuthored]. *)
Definition with_mapToAuthored (answer : option string → Z → option Z → promise bool)
    (E : Env) : Env :=
  {| chrome_command := chrome_command E;
     chrome_setBreakpoint := chrome_setBreakpoint E;
     chrome_setBreakpointByUrl := chrome_setBreakpointByUrl E;
     chrome_callFunctionOn := chrome_callFunctionOn E;
     fixDriveLetterAndSlashes := fixDriveLetterAndSlashes E;
     pathToRegex := pathToRegex E;
     localize := localize E;
     basename := basename E;
     isIndexedPropName := isIndexedPropName E;
     JSON_stringify := JSON_stringify E;
     JSON_stringify_value := JSON_stringify_value E;
     TypeError_message := TypeError_message E;
     toUpperCase := toUpperCase E;
     expand := expand E;
     setValue := setValue E;
     lineCol_setBreakpoints := lineCol_setBreakpoints E;
     lineCol_setBreakpointsResponse := lineCol_setBreakpointsResponse E;
     lineCol_stackTraceResponse := lineCol_stackTraceResponse E;
     sourceMap_setBreakpoints := sourceMap_setBreakpoints E;
     sourceMap_setBreakpointsResponse := sourceMap_setBreakpointsResponse E;
     sourceMap_stackTraceResponse := sourceMap_stackTraceResponse E;
     sourceMap_scriptParsed := sourceMap_scriptParsed E;
     getGeneratedPathFromAuthoredPath := getGeneratedPathFromAuthoredPath E;
     getGeneratedPathFromAuthoredPath_ms := getGeneratedPathFromAuthoredPath_ms E;
     mapToAuthored := answer;
     path_setBreakpoints := path_setBreakpoints E;
     path_stackTraceResponse := path_stackTraceResponse E;
     path_scriptParsed := path_scriptParsed E;
     getTargetPathFromClientPath := getTargetPathFromClientPath E;
     getClientPathFromTargetPath := getClientPathFromTargetPath E |}.

(** The environment [E] with another time for the source map's lookup of
    a generated path. *)
Definition with_lookup_ms (ms : string → nat) (E : Env) : Env :=
  {| chrome_command := chrome_command E;
     chrome_setBreakpoint := chrome_setBreakpoint E;
     chrome_setBreakpointByUrl := chrome_setBreakpointByUrl E;
     chrome_callFunctionOn := chrome_callFunctionOn E;
     fixDriveLetterAndSlashes := fixDriveLetterAndSlashes E;
     pathToRegex := pathToRegex E;
     localize := localize E;
     basename := basename E;
     isIndexedPropName := isIndexedPropName E;
     JSON_stringify := JSON_stringify E;
     JSON_stringify_value := JSON_stringify_value E;
     TypeError_message := TypeError_message E;
     toUpperCase := toUpperCase E;
     expand := expand E;
     setValue := setValue E;
     lineCol_setBreakpoints := lineCol_setBreakpoints E;
     lineCol_setBreakpointsResponse := lineCol_setBreakpointsResponse E;
     lineCol_stackTraceResponse := lineCol_stackTraceResponse E;
     sourceMap_setBreakpoints := sourceMap_setBreakpoints E;
     sourceMap_setBreakpointsResponse := sourceMap_setBreakpointsResponse E;
     sourceMap_stackTraceResponse := sourceMap_stackTraceResponse E;
     sourceMap_scriptParsed := sourceMap_scriptParsed E;
     getGeneratedPathFromAuthoredPath := getGeneratedPathFromAuthoredPath E;
     getGeneratedPathFromAuthoredPath_ms := ms;
     mapToAuthored := mapToAuthored E;
     path_setBreakpoints := path_setBreakpoints E;
     path_stackTraceResponse := path_stackTraceResponse E;
     path_scriptParsed := path_scriptParsed E;
     getTargetPathFromClientPath := getTargetPathFromClientPath E;
     getClientPathFromTargetPath := getClientPathFromTargetPath E |}.

(** The time that a [setBreakpoints] call takes: what the source map
    takes to look up the generated path, when the request has a path to
    validate, and then [elapsed], what the target takes to answer the
    exchange. *)
Definition work (E : Env) (args : ISetBreakpointsArgs) (elapsed : nat) : nat :=
  match src_path (source args) with
  | Some path =>
      if truthy path then (getGeneratedPathFromAuthoredPath_ms E path + elapsed)%nat
      else elapsed
  | None => elapsed
  end.

(** The handler of a paused notification reads the top call frame when
    it is about to choose the stored reason while the adapter smart-steps
    with source maps. *)
Definition reads_top_frame (notification : PausedEvent) (a : Adapter) : Prop :=
  reason notification ≠ "exception" ∧ hasHitBreakpoints notification = false ∧
  truthy_opt (_expectingStopReason a) = true ∧
  _smartStep a = true ∧ _sourceMaps a = true.

(** What a command leaves in the adapter: the completion of its CDP call
    in [_currentStep], returned to the caller as well, and the command at
    the end of what was sent to the target. *)
Definition stores_completion (E : Env) (c : CrdpCall) (a : Adapter)
    (r : promise unit * Adapter) : Prop :=
  _currentStep r.2 = then_val (chrome_command E c) (λ _, tt) ∧
  r.1 = _currentStep r.2 ∧
  _chrome r.2 = (_chrome a ++ [c])%list.

(** An unverified breakpoint of [unverifiedBpResponse]. *)
Definition unverifiedBreakpoint (message : option string) (id : nat) (bp : SourceBreakpoint)
    : Breakpoint :=
  mkBreakpoint (Some id) false (Some (sbp_line bp)) (sbp_column bp) message.

(** [ids] are handles that the registry [before] had not issued and that
    the registry [after] resolves, in both directions, to the decimal
    numbers counted from [unbound]. *)
Definition freshly_minted (before after : ReverseHandles) (unbound : nat) (ids : list nat)
    : Prop :=
  NoDup ids ∧
  ∀ i id, ids !! i = Some id →
    ReverseHandles_get before id = None ∧
    ReverseHandles_get after id = Some (Some (pretty (unbound + i)%nat)) ∧
    ReverseHandles_lookup after (Some (pretty (unbound + i)%nat)) = Some id.


(** The request queue holds a resolved promise and the registry of
    breakpoint ids is well formed. *)
Definition ready (a : Adapter) : Prop :=
  _setBreakpointsRequestQ a = Resolved tt ∧
  Handles_wf (rh_handles (_breakpointIdHandles a)).

(** Everything in the adapter but the three registries reset at a pause. *)
Definition besides_registries (a : Adapter) :=
  (_currentStack a, _committedBreakpointsByUrl a, _exception a, _setBreakpointsRequestQ a,
   _expectingResumedEvent a, _expectingStopReason a, _breakpointIdHandles a,
   _scriptsById a, _scriptsByUrl a, _pendingBreakpointsByUrl a, _currentStep a,
   _nextUnboundBreakpointId a, _sourceMaps a, _smartStep a, _smartStepCount a,
   _overlay a, _session a, _chrome a, inFlight a).

(** Everything in the adapter but the book-keeping of breakpoints: the
    committed and pending maps, the registry and the counter of breakpoint
    ids, the request queue, the exchanges in flight, and the commands
    sent. *)
Definition besides_breakpoints (a : Adapter) :=
  (_currentStack a, _exception a, _expectingResumedEvent a, _expectingStopReason a,
   _frameHandles a, _variableHandles a, _sourceHandles a, _scriptsById a, _scriptsByUrl a,
   _currentStep a, _sourceMaps a, _smartStep a, _smartStepCount a, _overlay a, _session a).

(** A frame is nonsense when it has no function name and its script is
    not known: the [try] block of [callFrameToStackFrame] throws on it. *)
Definition nonsense (a : Adapter) (frame : CallFrame) : bool :=
  negb (truthy (functionName frame)) &&
  bool_decide (_scriptsById a !! loc_scriptId (location frame) = None).

(** The breakpoint that the translation makes of a response, with the
    handle lent for its breakpoint id. *)
Definition translated (id : nat) (response : SetBreakpointResponse) : Breakpoint :=
  match actualLocation response with
  | None => mkBreakpoint (Some id) false None None None
  | Some loc => mkBreakpoint (Some id) true (Some (lineNumber loc)) (columnNumber loc) None
  end.

(** What [addBreakpoints] makes of the target's answer to
    [Debugger.setBreakpointByUrl] for a script it knows. *)
Definition normalized (script : ScriptParsedEvent) (p : promise SetBreakpointByUrlResponse)
    : SetBreakpointResponse :=
  match p with
  | Resolved result =>
      mkSetBreakpointResponse (Some (byurl_breakpointId result))
        ((λ l0, mkLocation (scriptId script) (lineNumber l0) (columnNumber l0))
           <$> head (locations result))
  | Rejected _ => empty_object
  end.

(** The text before the first line feed, which [createObjectVariable]
    shows of an error. *)
Definition firstLine (d : string) : string :=
  match String.index 0 (String (Ascii.ascii_of_nat 10) "") d with
  | Some firstNewlineIdx => String.substring 0 firstNewlineIdx d
  | None => d
  end.

(** The stopped and continued events among those sent to the session,
    and the paused and resumed notifications among those received. *)
Definition stops (events : list SessionEvent) : nat :=
  length (List.filter (λ e, match e with StoppedEvent _ _ => true | _ => false end) events).

Definition continues (events : list SessionEvent) : nat :=
  length (List.filter (λ e, match e with ContinuedEvent _ => true | _ => false end) events).

Definition pauses (trace : list Event) : nat :=
  length (List.filter (λ ev, match ev with Debugger_paused _ => true | _ => false end) trace).

Definition resumes (trace : list Event) : nat :=
  length (List.filter (λ ev, match ev with Debugger_resumed => true | _ => false end) trace).

(** The two indexes of parsed scripts agree: a script is filed under its
    own id and under its own URL, and a script filed in one index has an
    entry for its key in the other. *)
Definition indexed (a : Adapter) : Prop :=
  (∀ id s, _scriptsById a !! id = Some s →
     scriptId s = id ∧ is_Some (_scriptsByUrl a !! url s)) ∧
  (∀ u s, _scriptsByUrl a !! u = Some s →
     url s = u ∧ is_Some (_scriptsById a !! scriptId s)).

(** The registry of breakpoint ids of [a'] resolves every handle of [a]
    as [a] does, and the counter of unbound ids has not gone back. *)
Definition grows (a a' : Adapter) : Prop :=
  (∀ id v, ReverseHandles_get (_breakpointIdHandles a) id = Some v →
           ReverseHandles_get (_breakpointIdHandles a') id = Some v) ∧
  (_nextUnboundBreakpointId a ≤ _nextUnboundBreakpointId a')%nat.

(** The names of a list, each once, at the place of its first
    occurrence. *)
Fixpoint firstOccurrences (names : list string) : list string :=
  match names with
  | [] => []
  | name :: rest => name :: filter (λ other, other ≠ name) (firstOccurrences rest)
  end.

(** ** Further methods *)

(** [Debugger.breakpointResolved]. *)
Record BreakpointResolvedEvent := mkBreakpointResolvedEvent {
  br_breakpointId : string;
  br_location : Location
}.

Record CompletionItem := mkCompletionItem {
  label : string;
  ci_type : string
}.

Record ISourceResponseBody := mkISourceResponseBody {
  content : string;
  mimeType : option string
}.

Record EvaluateArguments := mkEvaluateArguments {
  ea_expression : string;
  ea_frameId : option nat;
  ea_context : option string
}.

(** The response of [Debugger.evaluateOnCallFrame] and of
    [Runtime.evaluate], shaped the same; of [exceptionDetails] the adapter
    reads only whether it is there. *)
Record EvaluateResponse := mkEvaluateResponse {
  er_result : option RemoteObject;
  er_exceptionDetails : bool
}.

Record IEvaluateResponseBody := mkIEvaluateResponseBody {
  eb_result : JsValue;
  eb_variablesReference : nat;
  eb_indexedVariables : option Json;
  eb_namedVariables : option Json
}.

(** [Crdp.Runtime.PropertyDescriptor], and the response of
    [Runtime.callFunctionOn] as [propertyDescriptorToVariable] reads it. *)
Record PropertyDescriptor := mkPropertyDescriptor {
  pd_name : string;
  pd_value : option RemoteObject;
  pd_get : option RemoteObject;
  pd_set : option RemoteObject
}.

Record ExceptionDetails := mkExceptionDetails {
  ed_exception : option RemoteObject
}.

Record GetterResponse := mkGetterResponse {
  gr_result : option RemoteObject;
  gr_exceptionDetails : option ExceptionDetails
}.

(** Further collaborators: the hooks of the three transformers on a
    resolved breakpoint, each of which may rewrite the breakpoint it is
    handed (the path transformer also answers the path of the script); the
    target's answers to [Debugger.getScriptSource], to
    [Debugger.evaluateOnCallFrame] (by call frame id and expression), to
    [Runtime.evaluate] and to the [Runtime.callFunctionOn] that reads a
    getter (by object id and property name); [utils.errP], which makes the
    error of a rejection out of a value; and [toString] on an error. *)
Record Hooks := mkHooks {
  path_breakpointResolved : Breakpoint → string → Breakpoint * string;
  sourceMap_breakpointResolved : Breakpoint → string → Breakpoint;
  lineCol_breakpointResolved : Breakpoint → Breakpoint;
  chrome_getScriptSource : option string → promise string;
  chrome_evaluateOnCallFrame : string → string → promise EvaluateResponse;
  chrome_evaluate : string → promise EvaluateResponse;
  chrome_callGetter : option string → string → promise GetterResponse;
  errP : JsValue → JsError;
  error_toString : JsError → string
}.

(** The fields of the adapter and of its connection that
    [terminateSession] reads or writes: the two flags, the
    TerminatedEvents sent to the client, each with its [restart] argument,
    and the number of times the connection was closed. *)
Record Lifecycle := mkLifecycle {
  _hasTerminated : bool;
  _clientAttached : bool;
  terminated : list (option bool);
  closed : nat
}.

Section FurtherMethods.
Context (E : Env) (H : Hooks).

(** Chrome is closing, or error'd somehow, stop the debug session.
    [isAttached] is what the connection answers when it is asked. *)
Definition terminateSession (reason : string) (restart : option bool) (isAttached : bool)
    (l : Lifecycle) : Lifecycle :=
  if negb (_hasTerminated l) then
    let l := mkLifecycle true (_clientAttached l) (terminated l) (closed l) in
    let l :=
      if _clientAttached l then
        mkLifecycle (_hasTerminated l) (_clientAttached l) (terminated l ++ [restart])%list
          (closed l)
      else l in
    if isAttached then
      mkLifecycle (_hasTerminated l) (_clientAttached l) (terminated l) (S (closed l))
    else l
  else l.

(** [this._committedBreakpointsByUrl.get(script.url) || []], then [push]
    and [set]: a missing list and a [null] one both count as empty. *)
Definition onBreakpointResolved (params : BreakpointResolvedEvent) (a : Adapter) : Adapter :=
  match _scriptsById a !! loc_scriptId (br_location params) with
  | None =>
      (* Breakpoint resolved for a script we don't know about *)
      a
  | Some script =>
      let committedBps :=
        match _committedBreakpointsByUrl a !! url script with
        | Some (Some ids) => ids
        | _ => []
        end in
      let committedBps := (committedBps ++ [br_breakpointId params])%list in
      let a := set_committedBreakpointsByUrl
                 (<[url script := Some committedBps]> (_committedBreakpointsByUrl a)) a in
      let bp :=
        mkBreakpoint
          (ReverseHandles_lookup (_breakpointIdHandles a) (Some (br_breakpointId params)))
          true (Some (lineNumber (br_location params)))
          (columnNumber (br_location params)) None in
      let '(bp, scriptPath) := path_breakpointResolved H bp (url script) in
      let bp := sourceMap_breakpointResolved H bp scriptPath in
      let bp := lineCol_breakpointResolved H bp in
      sendEvent (BreakpointEvent "new" bp) a
  end.

(** The [source] request. *)
Definition source_request (sourceReference : nat) (a : Adapter)
    : promise ISourceResponseBody :=
  match Handles_get (_sourceHandles a) sourceReference with
  | None => Rejected (Domain sourceRequestIllegalHandle)
  | Some handle =>
      (* Have inlined content? *)
      if truthy_opt (contents handle) then
        Resolved (mkISourceResponseBody (default "" (contents handle)) None)
      else
        (* If not, should have scriptId *)
        then_val (chrome_getScriptSource H (sc_scriptId handle))
          (λ scriptSource, mkISourceResponseBody scriptSource (Some "text/javascript"))
  end.

(** [resultValue] of [evaluate] when the evaluation threw: a
    ReferenceError is reworded outside the REPL.  [startsWith] is read on
    every truthy value, and is there on a string only. *)
Definition evaluate_resultValue (value : JsValue) (context : option string)
    : completion JsValue :=
  match value with
  | JsString s =>
      if truthy s && startsWith s "ReferenceError: " &&
         negb (bool_decide (context = Some "repl"))
      then Return (JsString (localize E "eval.not.available" "not available"))
      else Return value
  | JsNumber n => if (n =? 0)%Z then Return value else Throw TypeError
  | JsBool true => Throw TypeError
  | JsBool false | JsNull | JsUndefined => Return value
  end.

(** The evaluation command itself is not recorded in [_chrome]; the
    commands of [remoteObjectToVariable] are.  A throw inside a [then]
    callback is a rejection. *)
Definition evaluate (args : EvaluateArguments) (a : Adapter)
    : completion (promise IEvaluateResponseBody) * Adapter :=
  (* These two responses are shaped exactly the same *)
  let evalPromise : completion (promise EvaluateResponse) :=
    match ea_frameId args with
    | Some frameId =>
        match Handles_get (_frameHandles a) frameId with
        | Some (Some frame) =>
            Return (chrome_evaluateOnCallFrame H (callFrameId frame) (ea_expression args))
        | _ => Throw TypeError
        end
    | None => Return (chrome_evaluate H (ea_expression args))
    end in
  match evalPromise with
  | Throw e => (Throw e, a)
  | Return (Rejected e) => (Return (Rejected e), a)
  | Return (Resolved evalResponse) =>
      (* Convert to a Variable object then just copy the relevant fields off *)
      match remoteObjectToVariable E "" (er_result evalResponse) true a with
      | (Throw e, a) => (Return (Rejected e), a)
      | (Return p, a) =>
          (Return (then_ p (λ variable,
             if er_exceptionDetails evalResponse then
               match evaluate_resultValue (var_value variable) (ea_context args) with
               | Return resultValue => Rejected (errP H resultValue)
               | Throw e => Rejected e
               end
             else
               Resolved (mkIEvaluateResponseBody (var_value variable)
                           (variablesReference variable) (indexedVariables variable)
                           (namedVariables variable)))),
           a)
      end
  end.

Definition grabGetterValue : string :=
  "function remoteFunction(propName) { return this[propName]; }".

Definition propertyDescriptorToVariable (propDesc : PropertyDescriptor)
    (owningObjectId : option string) (a : Adapter)
    : completion (promise DapVariable) * Adapter :=
  match pd_get propDesc with
  | Some _ =>
      (* Getter *)
      let a := issue (Runtime_callFunctionOn owningObjectId grabGetterValue) a in
      match chrome_callGetter H owningObjectId (pd_name propDesc) with
      | Resolved response =>
          match gr_exceptionDetails response with
          | Some exceptionDetails =>
              (* Not an error, getter could be `get foo() { throw new Error('bar'); }` *)
              match ed_exception exceptionDetails with
              | Some exception =>
                  (Return (Resolved (mkVariable (pd_name propDesc)
                                       (js_of_opt (description exception)) 0 None None None)),
                   a)
              | None => (Return (Rejected TypeError), a)
              end
          | None =>
              match remoteObjectToVariable E (pd_name propDesc) (gr_result response) true a with
              | (Return p, a) => (Return p, a)
              | (Throw e, a) => (Return (Rejected e), a)
              end
          end
      | Rejected error =>
          (Return (Resolved (mkVariable (pd_name propDesc)
                               (JsString (error_toString H error)) 0 None None None)),
           a)
      end
  | None =>
      match pd_set propDesc with
      | Some _ =>
          (* setter without a getter, unlikely *)
          (Return (Resolved (mkVariable (pd_name propDesc) (JsString "setter") 0
                               None None None)),
           a)
      | None =>
          (* Non getter/setter *)
          remoteObjectToVariable E (pd_name propDesc) (pd_value propDesc) true a
      end
  end.

(** The body of the inner loop of [getFlatAndUniqueCompletionItems]. *)
Definition addCompletionItem (state : gset string * list CompletionItem) (name : string)
    : gset string * list CompletionItem :=
  let '(seen, items) := state in
  if negb (isIndexedPropName E name) && negb (bool_decide (name ∈ seen)) then
    ({[name]} ∪ seen, (items ++ [mkCompletionItem name "property"])%list)
  else (seen, items).

Definition getFlatAndUniqueCompletionItems (arrays : list (list string))
    : list CompletionItem :=
  (fold_left (λ state names, fold_left addCompletionItem names state) arrays (∅, [])).2.

End FurtherMethods.

(** Transformers that pass a resolved breakpoint on as it is, and a
    target that answers every request for a source with [scriptSource] and
    every evaluation with [response]. *)
Definition sample_hooks (scriptSource : string) (response : promise EvaluateResponse)
    : Hooks :=
  {| path_breakpointResolved := λ bp u, (bp, u);
     sourceMap_breakpointResolved := λ bp _, bp;
     lineCol_breakpointResolved := λ bp, bp;
     chrome_getScriptSource := λ _, Resolved scriptSource;
     chrome_evaluateOnCallFrame := λ _ _, response;
     chrome_evaluate := λ _, response;
     chrome_callGetter := λ _ _, Rejected (Error "Object has been collected");
     errP := λ value, match value with JsString s => Error s | _ => Error "" end;
     error_toString := λ e, match e with Error m => "Error: " +:+ m | _ => "" end |}.

(** * Theorems *)

#[local] Set Warnings "-clear-no-such-hyp".

Section Theorems.
Context (E : Env).

(** C5: after Debugger.globalObjectCleared the two script maps and the
    committed breakpoints are empty and the request queue is a fresh
    resolved promise, while the registry of breakpoint ids is the one it
    was: every id issued before still resolves to the same value, in both
    directions. *)
Theorem globalObjectCleared_clears_target_context (a : Adapter) :
  let a' := onGlobalObjectCleared a in
  _scriptsById a' = ∅ ∧ _scriptsByUrl a' = ∅ ∧
  _committedBreakpointsByUrl a' = ∅ ∧
  _setBreakpointsRequestQ a' = Resolved tt ∧
  _breakpointIdHandles a' = _breakpointIdHandles a ∧
  (∀ id, ReverseHandles_get (_breakpointIdHandles a') id
         = ReverseHandles_get (_breakpointIdHandles a) id) ∧
  (∀ v, ReverseHandles_lookup (_breakpointIdHandles a') v
        = ReverseHandles_lookup (_breakpointIdHandles a) v).
Proof. repeat split. Qed.

(** C7, amended: continue, next, stepIn and stepOut set
    [_expectingResumedEvent]; pause leaves it as it is.  next, stepIn and
    stepOut set [_expectingStopReason] to 'step', pause sets it to
    'user_request', continue leaves it as it is.  Each of the five stores
    the completion of its CDP call in [_currentStep]. *)
Theorem step_commands (a : Adapter) :
  (_expectingResumedEvent (continue E a).2 = true ∧
   _expectingStopReason (continue E a).2 = _expectingStopReason a ∧
   stores_completion E Debugger_resume a (continue E a)) ∧
  (_expectingResumedEvent (next E a).2 = true ∧
   _expectingStopReason (next E a).2 = Some "step" ∧
   stores_completion E Debugger_stepOver a (next E a)) ∧
  (_expectingResumedEvent (stepIn E a).2 = true ∧
   _expectingStopReason (stepIn E a).2 = Some "step" ∧
   stores_completion E Debugger_stepInto a (stepIn E a)) ∧
  (_expectingResumedEvent (stepOut E a).2 = true ∧
   _expectingStopReason (stepOut E a).2 = Some "step" ∧
   stores_completion E Debugger_stepOut a (stepOut E a)) ∧
  (_expectingResumedEvent (pause E a).2 = _expectingResumedEvent a ∧
   _expectingStopReason (pause E a).2 = Some "user_request" ∧
   stores_completion E Debugger_pause a (pause E a)).
Proof. unfold stores_completion. repeat split. Qed.

End Theorems.

(** C7, as stated, fails: on a fresh adapter pause leaves
    [_expectingResumedEvent] unset. *)
Lemma pause_does_not_expect_resumed :
  _expectingResumedEvent (pause (sample_env binds found) (new_ChromeDebugAdapter 1000)).2
  = false.
Proof. reflexivity. Qed.

Section Variables_.
Context (E : Env).

(** C9: a number described as 'Infinity' becomes a variable of value
    "Infinity", an undefined one a variable of value "undefined", and an
    object of subtype null one of value "null"; each has
    variablesReference 0, and no handle is registered.  The other fields
    of the remote object, and [stringify], do not matter. *)
Theorem remoteObjectToVariable_primitives (name : string) (stringify : bool) (a : Adapter)
    (st : option string) (v : JsValue) (d : option string) (oid : option string)
    (pv : option ObjectPreview) :
  remoteObjectToVariable E name
    (Some (mkRemoteObject "number" st v (Some "Infinity") oid pv)) stringify a
  = (Return (Resolved (mkVariable name (JsString "Infinity") 0 None None None)), a) ∧
  remoteObjectToVariable E name
    (Some (mkRemoteObject "undefined" st v d oid pv)) stringify a
  = (Return (Resolved (mkVariable name (JsString "undefined") 0 None None None)), a) ∧
  remoteObjectToVariable E name
    (Some (mkRemoteObject "object" (Some "null") v d oid pv)) stringify a
  = (Return (Resolved (mkVariable name (JsString "null") 0 None None None)), a).
Proof.
  repeat split.
  - unfold remoteObjectToVariable; simpl. by destruct v.
Qed.

(** C10: with a reference that is not a registered variable handle,
    [variables] resolves, and its body is undefined, while [setVariable]
    rejects with the error 'set value not supported'; neither changes the
    adapter. *)
Theorem unknown_variablesReference (reference : nat) (filter : option string)
    (start count : option Z) (name value : string) (a : Adapter) :
  Handles_get (_variableHandles a) reference = None →
  variables E reference filter start count a = (Resolved None, a) ∧
  setVariable E reference name value a = (Rejected (Domain setValueNotSupported), a).
Proof.
  intros Hget. unfold variables, setVariable. by rewrite Hget.
Qed.

End Variables_.

Lemma unknown_variablesReference_witness :
  Handles_get (_variableHandles (new_ChromeDebugAdapter 1000)) 1000 = None ∧
  variables (sample_env binds found) 1000 None None None (new_ChromeDebugAdapter 1000)
  = (Resolved None, new_ChromeDebugAdapter 1000) ∧
  setVariable (sample_env binds found) 1000 "x" "1" (new_ChromeDebugAdapter 1000)
  = (Rejected (Domain setValueNotSupported), new_ChromeDebugAdapter 1000).
Proof.
  split; [reflexivity |].
  apply (unknown_variablesReference (sample_env binds found) 1000 None None None "x" "1"
           (new_ChromeDebugAdapter 1000)).
  reflexivity.
Defined.

Section Paused.
Context (E : Env).

(** The condition [if (s)] on a string that may be undefined. *)
Lemma truthy_opt_true (o : option string) :
  truthy_opt o = true → ∃ s, o = Some s ∧ s ≠ "".
Proof.
  destruct o as [s|]; simpl; [|done]. unfold truthy.
  destruct (String.eqb_spec s ""); [done|]. eauto.
Qed.

Lemma truthy_opt_false (o : option string) :
  truthy_opt o = false → o = None ∨ o = Some "".
Proof.
  destruct o as [s|]; simpl; [|by left]. unfold truthy.
  destruct (String.eqb_spec s ""); [subst; by right | done].
Qed.

(** Building a stack frame touches the source and frame registries only. *)
Lemma callFrameToStackFrame_fields (frame : CallFrame) (a : Adapter) :
  let a' := (callFrameToStackFrame E frame a).2 in
  _currentStack a' = _currentStack a ∧
  _exception a' = _exception a ∧
  _expectingStopReason a' = _expectingStopReason a ∧
  _variableHandles a' = _variableHandles a ∧
  _scriptsById a' = _scriptsById a.
Proof.
  unfold callFrameToStackFrame, callFrameToStackFrame_try.
  destruct (_scriptsById a !! loc_scriptId (location frame)) as [s|];
    [destruct (shouldIgnoreScript s)|];
    destruct (truthy (functionName frame)); simpl; repeat split.
Qed.

Lemma shouldSmartStep_fields (frame : option CallFrame) (a : Adapter) :
  let a' := (shouldSmartStep E frame a).2 in
  _currentStack a' = _currentStack a ∧
  _exception a' = _exception a ∧
  _expectingStopReason a' = _expectingStopReason a ∧
  _variableHandles a' = _variableHandles a.
Proof.
  unfold shouldSmartStep.
  destruct (_sourceMaps a); simpl; [|done].
  destruct frame as [frame|]; simpl; [|done].
  pose proof (callFrameToStackFrame_fields frame a) as H.
  destruct (callFrameToStackFrame E frame a) as [sf a2]. simpl in *. tauto.
Qed.

(** With a frame to look at, or without source maps, the smart-step check
    returns. *)
Lemma shouldSmartStep_returns (frame : option CallFrame) (a : Adapter) :
  (_sourceMaps a = true → is_Some frame) →
  ∃ p, (shouldSmartStep E frame a).1 = Return p.
Proof.
  intros Hframe. unfold shouldSmartStep.
  destruct (_sourceMaps a); simpl; [|eauto].
  destruct Hframe as [f ->]; [done|].
  destruct (callFrameToStackFrame E f a). simpl. eauto.
Qed.

(** C1, amended: for a paused notification that carries a call frame
    whenever the handler reads the top frame, the reason chosen is
    'exception', with the notification's data kept as the exception, when
    the notification says so; otherwise 'breakpoint' when hitBreakpoints is
    there and not empty; otherwise the stored [_expectingStopReason] when
    it is set (as a condition: a string that is not empty); otherwise
    'debugger'; and [_expectingStopReason] is cleared in every one of these
    cases.  When the handler reads the top frame of a notification without
    call frames, it throws a TypeError before it chooses, and
    [_expectingStopReason] stays as it was. *)
Theorem stop_reason_selection (notification : PausedEvent) (a : Adapter) :
  ((reads_top_frame notification a → callFrames notification ≠ []) →
   ∃ chosen smartStepP a',
     onDebuggerPaused E notification a = (Return (chosen, smartStepP), a') ∧
     _expectingStopReason a' = None ∧
     (reason notification = "exception" →
        chosen = "exception" ∧ _exception a' = data notification) ∧
     (reason notification ≠ "exception" →
        _exception a' = None ∧
        ((∃ id ids, hitBreakpoints notification = Some (id :: ids)) →
           chosen = "breakpoint") ∧
        (hitBreakpoints notification = None ∨ hitBreakpoints notification = Some [] →
           (∀ expecting, _expectingStopReason a = Some expecting → expecting ≠ "" →
              chosen = expecting) ∧
           (_expectingStopReason a = None ∨ _expectingStopReason a = Some "" →
              chosen = "debugger")))) ∧
  (reads_top_frame notification a → callFrames notification = [] →
   ∃ a', onDebuggerPaused E notification a = (Throw TypeError, a') ∧
         _expectingStopReason a' = _expectingStopReason a).
Proof.
  split.
  - intros Hframes. unfold reads_top_frame, hasHitBreakpoints in Hframes.
    unfold onDebuggerPaused, setOverlay.
    destruct (String.eqb_spec (reason notification) "exception") as [Hex|Hex].
    { do 3 eexists. split; [reflexivity|]. simpl. naive_solver. }
    unfold hasHitBreakpoints.
    destruct (hitBreakpoints notification) as [[|id ids]|] eqn:Hhit.
    2:{ do 3 eexists. split; [reflexivity|]. simpl. naive_solver. }
    all: simpl; destruct (truthy_opt (_expectingStopReason a)) eqn:Htruthy.
    all: try (do 3 eexists; split; [reflexivity|]; simpl;
              apply truthy_opt_false in Htruthy; naive_solver).
    all: apply truthy_opt_true in Htruthy as (expecting & Hexp & Hne); rewrite Hexp; simpl.
    all: destruct (_smartStep a) eqn:Hsmart.
    all: try (do 3 eexists; split; [reflexivity|]; simpl; naive_solver).
    all: match goal with
         | |- context [shouldSmartStep E ?f ?s] =>
             pose proof (shouldSmartStep_fields f s) as Hfields;
             destruct (shouldSmartStep_returns f s) as [p Hp];
             [ simpl; intros Hmaps;
               assert (callFrames notification ≠ []) as Hsome
                 by (apply Hframes; repeat split; try done;
                     rewrite Hexp; unfold truthy_opt, truthy;
                     by destruct (String.eqb_spec expecting ""));
               destruct (callFrames notification); [done | by eexists]
             | destruct (shouldSmartStep E f s) as [c a2]; simpl in *; subst c ]
         end.
    all: do 3 eexists; split; [reflexivity|]; simpl; naive_solver.
  - intros (Hex & Hhit & Htruthy & Hsmart & Hmaps) Hnone.
    unfold onDebuggerPaused, setOverlay, shouldSmartStep.
    destruct (String.eqb_spec (reason notification) "exception") as [|_]; [done|].
    rewrite Hhit, Hnone. simpl. rewrite Htruthy, Hsmart. simpl. rewrite Hmaps. simpl.
    eexists. split; reflexivity.
Qed.

End Paused.

Lemma stop_reason_selection_witness :
  let E := sample_env binds found in
  let a := (stepIn E (commonArgs true true (new_ChromeDebugAdapter 1000))).2 in
  reads_top_frame sample_paused a ∧
  callFrames sample_paused ≠ [] ∧
  ∃ smartStepP a',
    onDebuggerPaused E sample_paused a = (Return ("step", smartStepP), a') ∧
    _expectingStopReason a' = None.
Proof.
  intros E a.
  assert (Hframes : reads_top_frame sample_paused a → callFrames sample_paused ≠ [])
    by (intros _; discriminate).
  split; [by repeat split|]. split; [discriminate|].
  destruct (stop_reason_selection E sample_paused a) as [Hselected _].
  destruct (Hselected Hframes) as (chosen & p & a' & Heq & Hclear & _ & Hother).
  destruct Hother as (_ & _ & Hexpecting); [discriminate|].
  destruct Hexpecting as [Hexpecting _]; [by left|].
  rewrite (Hexpecting "step" eq_refl) in Heq; [|discriminate].
  eauto.
Defined.

(** C1, as stated, fails: after a stepIn, smart-stepping with source maps,
    a paused notification without call frames makes the handler throw
    while it reads the top frame; no reason is chosen and
    [_expectingStopReason] is not cleared. *)
Lemma onDebuggerPaused_without_frames :
  let E := sample_env binds found in
  let a := (stepIn E (commonArgs true true (new_ChromeDebugAdapter 1000))).2 in
  let r := onDebuggerPaused E (mkPausedEvent [] "other" None None) a in
  r.1 = Throw TypeError ∧ _expectingStopReason r.2 = Some "step".
Proof. split; reflexivity. Qed.

Section Translation.
Context (E : Env).

(** C2: what the callback of the translation gives for the three shapes
    of response.  A response with a breakpointId and no actualLocation
    becomes {id, verified: false} and a full response becomes
    {id, verified: true, line, column}, [id] being the handle just
    registered for the breakpointId.  The empty object left by a failed
    add is not missing, so it takes the branch of a response without
    actualLocation: it is given an id as well, a handle registered for
    [undefined]. *)
Theorem response_translation (a : Adapter) (breakpointId : string) (loc : Location) :
  let next := _nextHandle (rh_handles (_breakpointIdHandles a)) in
  let registered (v : option string) (a' : Adapter) :=
    ReverseHandles_get (_breakpointIdHandles a') next = Some v in
  (let r := responseToODPBreakpoint (Some empty_object) a in
   r.1 = mkBreakpoint (Some next) false None None None ∧ registered None r.2) ∧
  (let r := responseToODPBreakpoint
              (Some (mkSetBreakpointResponse (Some breakpointId) None)) a in
   r.1 = mkBreakpoint (Some next) false None None None ∧
   registered (Some breakpointId) r.2) ∧
  (let r := responseToODPBreakpoint
              (Some (mkSetBreakpointResponse (Some breakpointId) (Some loc))) a in
   r.1 = mkBreakpoint (Some next) true (Some (lineNumber loc)) (columnNumber loc) None ∧
   registered (Some breakpointId) r.2).
Proof.
  unfold responseToODPBreakpoint, ReverseHandles_create, ReverseHandles_get,
    Handles_create, Handles_get; simpl.
  repeat split; apply lookup_insert_eq.
Qed.

(** The branch for a missing response is never taken on what
    [addBreakpoints] returns: none of the translated breakpoints is
    without an id. *)
Lemma translated_breakpoints_have_ids (responses : list SetBreakpointResponse) (a : Adapter) :
  Forall (λ bp, is_Some (bp_id bp)) (responsesToODPBreakpoints (Some <$> responses) a).1.
Proof.
  revert a. induction responses as [|response rest IH]; intros a; simpl; [constructor|].
  destruct (ReverseHandles_create (breakpointId response) (_breakpointIdHandles a))
    as [id bh].
  destruct (actualLocation response) as [loc|];
    match goal with
    | |- context [responsesToODPBreakpoints _ ?a1] =>
        specialize (IH a1); destruct (responsesToODPBreakpoints _ a1)
    end; simpl in *; constructor; eauto.
Qed.

End Translation.

(** On a target that refuses the breakpoint, the request for a known
    script answers with one unverified breakpoint that carries an id. *)
Example refused_breakpoint_has_id :
  let E := sample_env refuses found in
  let a := (onScriptParsed E (mkScriptParsedEvent "42" "http://localhost/app.js" None)
              (new_ChromeDebugAdapter 1000)).2 in
  (setBreakpoints E (sample_args (Some "http://localhost/app.js") None) 1 0 a).1
  = Resolved (mkBody [mkBreakpoint (Some 1000%nat) false None None None]).
Proof. vm_compute. reflexivity. Qed.

Section Scripts.
Context (E : Env).

Lemma substring_all (s : string) : String.substring 0 (String.length s) s = s.
Proof. induction s as [|c s IH]; simpl; [done | by rewrite IH]. Qed.

(** The script id is what follows the scheme of a placeholder URL. *)
Lemma placeholder_url_scriptId (scriptId : string) :
  startsWith (PLACEHOLDER_URL_PROTOCOL +:+ scriptId) PLACEHOLDER_URL_PROTOCOL = true ∧
  lstrip (PLACEHOLDER_URL_PROTOCOL +:+ scriptId) PLACEHOLDER_URL_PROTOCOL = scriptId.
Proof.
  unfold lstrip, startsWith. simpl. change ("" +:+ scriptId) with scriptId.
  assert (String.prefix "" scriptId = true) as -> by (by destruct scriptId).
  split; [done|]. rewrite Nat.sub_0_r. apply substring_all.
Qed.

(** C6, amended: a parsed script that has no URL is recorded, by id and by
    URL, under the synthetic URL debugadapter://<scriptId>.  Breakpoints
    on such a URL are set with Debugger.setBreakpoint at the location
    (scriptId, line, column), one command per requested breakpoint;
    breakpoints on a URL of another scheme are set with
    Debugger.setBreakpointByUrl and the regex of the URL. *)
Theorem synthetic_url_scheme :
  (∀ (script : ScriptParsedEvent) (a : Adapter),
     url script = "" →
     let a' := (onScriptParsed E script a).2 in
     let recorded := mkScriptParsedEvent (scriptId script)
                       ("debugadapter://" +:+ scriptId script) (sourceMapURL script) in
     _scriptsById a' !! scriptId script = Some recorded ∧
     _scriptsByUrl a' !! ("debugadapter://" +:+ scriptId script) = Some recorded) ∧
  (∀ (scriptId : string) (bps : list SourceBreakpoint) (a : Adapter),
     _chrome (addBreakpoints E ("debugadapter://" +:+ scriptId) bps a).2
     = (_chrome a ++
        ((λ bp, Debugger_setBreakpoint
                  (mkLocation scriptId (sbp_line bp) (Some (default 0 (sbp_column bp))))
                  (sbp_condition bp)) <$> bps))%list) ∧
  (∀ (url : string) (bps : list SourceBreakpoint) (a : Adapter),
     startsWith url "debugadapter://" = false →
     _chrome (addBreakpoints E url bps a).2
     = (_chrome a ++
        ((λ bp, Debugger_setBreakpointByUrl (pathToRegex E url) (sbp_line bp)
                  (default 0 (sbp_column bp)) (sbp_condition bp)) <$> bps))%list).
Proof.
  split; [|split].
  - intros script a Hurl. unfold onScriptParsed, shouldIgnoreScript.
    rewrite Hurl. simpl. split; apply lookup_insert_eq.
  - intros scriptId bps a. unfold addBreakpoints.
    destruct (placeholder_url_scriptId scriptId) as [Hstarts Hstrip].
    change ("debugadapter://" +:+ scriptId) with (PLACEHOLDER_URL_PROTOCOL +:+ scriptId).
    rewrite Hstarts, Hstrip. reflexivity.
  - intros url bps a Hstarts. unfold addBreakpoints.
    change PLACEHOLDER_URL_PROTOCOL with "debugadapter://". rewrite Hstarts. reflexivity.
Qed.

End Scripts.

Lemma synthetic_url_scheme_witness :
  let E := sample_env binds found in
  let a := new_ChromeDebugAdapter 1000 in
  url (mkScriptParsedEvent "42" "" None) = "" ∧
  _scriptsByUrl (onScriptParsed E (mkScriptParsedEvent "42" "" None) a).2 !! "debugadapter://42"
  = Some (mkScriptParsedEvent "42" "debugadapter://42" None) ∧
  startsWith "http://localhost/app.js" "debugadapter://" = false ∧
  _chrome (addBreakpoints E "http://localhost/app.js" [mkSourceBreakpoint 10 None None] a).2
  = [Debugger_setBreakpointByUrl "http://localhost/app.js" 10 0 None].
Proof.
  intros E a.
  destruct (synthetic_url_scheme E) as (Hrecorded & _ & Hreal).
  split; [reflexivity|]. split.
  - apply (Hrecorded (mkScriptParsedEvent "42" "" None) a). reflexivity.
  - split; [reflexivity|].
    apply (Hreal "http://localhost/app.js" [mkSourceBreakpoint 10 None None] a). reflexivity.
Defined.

(** C6, as stated, fails: a script without URL is not recorded under
    placeholder://<scriptId>; the scheme is debugadapter://. *)
Lemma script_without_url_not_under_placeholder :
  let E := sample_env binds found in
  let a := (onScriptParsed E (mkScriptParsedEvent "42" "" None) (new_ChromeDebugAdapter 1000)).2 in
  _scriptsByUrl a !! "placeholder://42" = None ∧
  _scriptsByUrl a !! "debugadapter://42" = Some (mkScriptParsedEvent "42" "debugadapter://42" None).
Proof. vm_compute. split; reflexivity. Qed.

Section Pending.
Context (E : Env).
Local Open Scope nat_scope.

(** What [args.breakpoints.map(...)] of [unverifiedBpResponse] does to
    the registry of breakpoint ids and to the counter of unbound ids. *)
Lemma unverifiedBreakpoints_spec (bps : list SourceBreakpoint) (message : option string)
    (a : Adapter) :
  let r := unverifiedBreakpoints bps message a in
  let before := _breakpointIdHandles a in
  let after := _breakpointIdHandles r.2 in
  let next := _nextHandle (rh_handles before) in
  let unbound := _nextUnboundBreakpointId a in
  r.1 = zip_with (unverifiedBreakpoint message) (seq next (length bps)) bps ∧
  _nextUnboundBreakpointId r.2 = unbound + length bps ∧
  _pendingBreakpointsByUrl r.2 = _pendingBreakpointsByUrl a ∧
  (∀ i, i < length bps →
     ReverseHandles_get after (next + i) = Some (Some (pretty (unbound + i))) ∧
     ReverseHandles_lookup after (Some (pretty (unbound + i))) = Some (next + i)) ∧
  (∀ k, k < next → ReverseHandles_get after k = ReverseHandles_get before k) ∧
  (∀ v, (∀ i, i < length bps → v ≠ Some (pretty (unbound + i))) →
     ReverseHandles_lookup after v = ReverseHandles_lookup before v).
Proof.
  revert a. induction bps as [|bp rest IH]; intros a.
  { simpl. repeat split; try done; lia. }
  cbn [unverifiedBreakpoints]. unfold ReverseHandles_create, Handles_create.
  match goal with
  | |- context [unverifiedBreakpoints rest message ?a1] =>
      specialize (IH a1); destruct (unverifiedBreakpoints rest message a1) as [bps' a2]
  end.
  simpl in IH. destruct IH as (Hbps & Hunbound & Hpending & Hnew & Hold & Hrev).
  simpl. unfold ReverseHandles_get, ReverseHandles_lookup, Handles_get in *. simpl in *.
  split; [by rewrite Hbps|]. split; [lia|]. split; [done|].
  split; [|split].
  - intros [|i] Hi.
    + rewrite !Nat.add_0_r. split.
      * rewrite Hold by lia. apply lookup_insert_eq.
      * rewrite Hrev; [apply lookup_insert_eq|].
        intros i _ [= Heq]. apply (inj pretty) in Heq. lia.
    + replace (_nextHandle (rh_handles (_breakpointIdHandles a)) + S i)
        with (S (_nextHandle (rh_handles (_breakpointIdHandles a))) + i) by lia.
      replace (_nextUnboundBreakpointId a + S i)
        with (S (_nextUnboundBreakpointId a) + i) by lia.
      apply Hnew. lia.
  - intros k Hk. rewrite Hold by lia. apply lookup_insert_ne. lia.
  - intros v Hv. rewrite Hrev.
    + apply lookup_insert_ne. specialize (Hv 0). rewrite Nat.add_0_r in Hv.
      intros Heq. apply Hv; [lia | done].
    + intros i Hi. specialize (Hv (S i)).
      replace (_nextUnboundBreakpointId a + S i)
        with (S (_nextUnboundBreakpointId a) + i) in Hv by lia.
      apply Hv. lia.
Qed.

Lemma unverified_ids (message : option string) (bps : list SourceBreakpoint) (next : nat) :
  omap bp_id (zip_with (unverifiedBreakpoint message) (seq next (length bps)) bps)
  = seq next (length bps).
Proof.
  revert next. induction bps as [|bp rest IH]; intros next; simpl; [done|].
  by rewrite IH.
Qed.

(** The ids of an unverified response are freshly minted. *)
Lemma unverifiedBreakpoints_minted (bps : list SourceBreakpoint) (message : option string)
    (a : Adapter) :
  Handles_wf (rh_handles (_breakpointIdHandles a)) →
  freshly_minted (_breakpointIdHandles a)
    (_breakpointIdHandles (unverifiedBreakpoints bps message a).2)
    (_nextUnboundBreakpointId a)
    (seq (_nextHandle (rh_handles (_breakpointIdHandles a))) (length bps)).
Proof.
  intros [_ Hwf].
  destruct (unverifiedBreakpoints_spec bps message a) as (_ & _ & _ & Hnew & _ & _).
  split; [apply NoDup_seq|].
  intros i id [-> Hi]%lookup_seq.
  destruct (Hnew i Hi) as [Hget Hlookup]. split; [|done].
  unfold ReverseHandles_get, Handles_get.
  destruct (_handleMap (rh_handles (_breakpointIdHandles a)) !! _) eqn:Hin; [|done].
  assert (is_Some (_handleMap (rh_handles (_breakpointIdHandles a))
                     !! (_nextHandle (rh_handles (_breakpointIdHandles a)) + i))) as Hsome
    by eauto.
  apply Hwf in Hsome. lia.
Qed.

(** A rejected validation comes from a request that has a path. *)
Lemma validateBreakpointsPath_rejected (args : ISetBreakpointsArgs) (e : JsError) :
  validateBreakpointsPath E args = Rejected e →
  ∃ path, src_path (source args) = Some path ∧ truthy path = true.
Proof.
  unfold validateBreakpointsPath.
  destruct (src_path (source args)) as [path|]; [|done].
  destruct (truthy path) eqn:Htruthy; simpl; [intros _; eauto | done].
Qed.

(** Without a target URL the request has no path. *)
Lemma targetScriptUrl_none (args : ISetBreakpointsArgs) (a : Adapter) (target : option string) :
  targetScriptUrl args a = Return target → truthy_opt target = false →
  truthy_opt (src_path (source args)) = false.
Proof.
  unfold targetScriptUrl.
  destruct (truthy_opt (src_path (source args))) eqn:Hpath; [|done].
  intros [= <-]. congruence.
Qed.

(** C4, amended: a setBreakpoints call is answered without asking the
    target in two cases: the validation of its path fails; or the
    validation passes and no target URL is found for the request as
    transformed (it has no path, and its source reference is absent or
    registered for a script that is not known).  In both cases the call
    resolves with unverified breakpoints, one per requested breakpoint,
    whose ids are freshly minted by the registry of breakpoint ids.  In the
    first case the record {args, ids} replaces whatever was pending under
    the path of the request and every other path keeps its record; in the
    second case nothing is recorded. *)
Theorem unverified_response (args : ISetBreakpointsArgs) (requestSeq elapsed : nat)
    (a : Adapter) :
  let before := _breakpointIdHandles a in
  let next := _nextHandle (rh_handles before) in
  let unbound := _nextUnboundBreakpointId a in
  Handles_wf (rh_handles before) →
  (∀ e, validateBreakpointsPath E args = Rejected e →
     let ids := seq next (length (breakpoints args)) in
     ∃ path a',
       src_path (source args) = Some path ∧ path ≠ "" ∧
       setBreakpoints E args requestSeq elapsed a
       = (Resolved (mkBody (zip_with (unverifiedBreakpoint (message_of E e)) ids
                              (breakpoints args))), a') ∧
       freshly_minted before (_breakpointIdHandles a') unbound ids ∧
       _pendingBreakpointsByUrl a'
       = <[path := mkIPendingBreakpoint args ids]> (_pendingBreakpointsByUrl a)) ∧
  (let args' := path_setBreakpoints E
                  (sourceMap_setBreakpoints E (lineCol_setBreakpoints E args) requestSeq) in
   ∀ target, validateBreakpointsPath E args = Resolved tt →
     targetScriptUrl args' a = Return target → truthy_opt target = false →
     let ids := seq next (length (breakpoints args')) in
     ∃ a',
       setBreakpoints E args requestSeq elapsed a
       = (Resolved (mkBody (zip_with
                              (unverifiedBreakpoint
                                 (Some (localize E "bp.fail.noscript"
                                          "Can't find script for breakpoint request")))
                              ids (breakpoints args'))), a') ∧
       freshly_minted before (_breakpointIdHandles a') unbound ids ∧
       _pendingBreakpointsByUrl a' = _pendingBreakpointsByUrl a).
Proof.
  intros before next unbound Hwf. split.
  - intros e Hrejected ids.
    destruct (validateBreakpointsPath_rejected args e Hrejected) as (path & Hpath & Htruthy).
    pose proof (unverifiedBreakpoints_spec (breakpoints args) (message_of E e) a)
      as (Hbps & _ & Hpending & _).
    pose proof (unverifiedBreakpoints_minted (breakpoints args) (message_of E e) a Hwf)
      as Hminted.
    unfold setBreakpoints, unverifiedBpResponse. rewrite Hrejected, Hpath, Htruthy.
    destruct (unverifiedBreakpoints (breakpoints args) (message_of E e) a) as [bps a1].
    simpl in *. subst bps. rewrite unverified_ids.
    exists path. eexists. split; [done|]. split.
    { intros ->. discriminate. }
    split; [reflexivity|]. simpl. by rewrite Hpending.
  - intros args' target Hvalid Htarget Hfalsy ids.
    pose proof (targetScriptUrl_none args' a target Htarget Hfalsy) as Hnopath.
    set (message := Some (localize E "bp.fail.noscript"
                            "Can't find script for breakpoint request")).
    pose proof (unverifiedBreakpoints_spec (breakpoints args') message a)
      as (Hbps & _ & Hpending & _).
    pose proof (unverifiedBreakpoints_minted (breakpoints args') message a Hwf) as Hminted.
    unfold setBreakpoints, unverifiedBpResponse. rewrite Hvalid.
    fold args'. rewrite Htarget, Hfalsy. fold message.
    destruct (unverifiedBreakpoints (breakpoints args') message a) as [bps a1].
    simpl in *. subst bps.
    exists (match src_path (source args') with
            | Some path =>
                if truthy path then
                  set_pendingBreakpointsByUrl
                    (<[path := mkIPendingBreakpoint args'
                                 (omap bp_id (zip_with (unverifiedBreakpoint message) ids
                                                (breakpoints args')))]>
                       (_pendingBreakpointsByUrl a1)) a1
                else a1
            | None => a1
            end).
    split; [reflexivity|].
    destruct (src_path (source args')) as [path|]; simpl in *; [|done].
    rewrite Hnopath. done.
Qed.

End Pending.

Lemma Handles_new_wf {V} (start : nat) : Handles_wf (Handles_new (V:=V) start).
Proof.
  split; simpl; [done|]. intros k [v Hv]. by rewrite lookup_empty in Hv.
Defined.

Lemma unverified_response_witness :
  let E := sample_env binds not_found in
  let args := sample_args (Some "/x/foo.js") None in
  let a := new_ChromeDebugAdapter 1000 in
  let message := "Breakpoint ignored because generated code not found (source map problem?)." in
  Handles_wf (rh_handles (_breakpointIdHandles a)) ∧
  validateBreakpointsPath E args = Rejected (Error message) ∧
  ∃ a', setBreakpoints E args 1 0 a
        = (Resolved (mkBody [mkBreakpoint (Some 1000%nat) false (Some 10) None (Some message)]),
           a') ∧
        _pendingBreakpointsByUrl a' !! "/x/foo.js"
        = Some (mkIPendingBreakpoint args [1000%nat]).
Proof.
  intros E args a message.
  split; [apply Handles_new_wf|]. split; [reflexivity|].
  destruct (unverified_response E args 1 0 a (Handles_new_wf 1000)) as [Hpath _].
  destruct (Hpath (Error message) eq_refl)
    as (path & a' & Hsome & _ & Heq & _ & Hpending).
  injection Hsome as <-.
  exists a'. split; [exact Heq|].
  rewrite Hpending. apply lookup_insert_eq.
Defined.

(** C4, as stated, fails: a request by source reference for a script that
    is not known (its frame was seen, the script never parsed) answers with
    an unverified breakpoint and records nothing; and a request by a path
    that validates, for a script that is not known either, goes to the
    target and is rejected when the target binds the breakpoint: nothing
    is answered, minted or recorded. *)
Lemma unknown_script_by_reference_not_pending :
  let E := sample_env binds found in
  let a := run E 1000 [Debugger_paused sample_paused; Request_stackTrace None] in
  let r := setBreakpoints E (sample_args None (Some 1000%nat)) 1 0 a in
  let r' := setBreakpoints E (sample_args (Some "http://localhost/app.js") None) 1 0 a in
  Handles_get (_sourceHandles a) 1000 = Some (mkISourceContainer (Some "42") None None) ∧
  _scriptsById a = ∅ ∧ _scriptsByUrl a = ∅ ∧
  r.1 = Resolved (mkBody [mkBreakpoint (Some 1000%nat) false (Some 10) None
                            (Some "Can't find script for breakpoint request")]) ∧
  _pendingBreakpointsByUrl r.2 = ∅ ∧
  r'.1 = Rejected TypeError ∧
  _breakpointIdHandles r'.2 = _breakpointIdHandles a ∧
  _pendingBreakpointsByUrl r'.2 = ∅.
Proof. vm_compute. repeat split. Qed.

(** ** The callbacks of an exchange *)

(** A relation between adapters that is reflexive and transitive and
    holds whenever the commands sent, the committed map, the registry of
    breakpoint ids or the exchanges in flight are written, holds across
    every callback of an exchange. *)
Section ExchangeMoves.
Context (E : Env) (P : Adapter → Adapter → Prop).
Hypothesis P_refl : ∀ a, P a a.
Hypothesis P_trans : ∀ a b c, P a b → P b c → P a c.
Hypothesis P_chrome : ∀ a l, P a (set_chrome l a).
Hypothesis P_committed : ∀ a m, P a (set_committedBreakpointsByUrl m a).
Hypothesis P_registry : ∀ responses a, P a (responsesToODPBreakpoints responses a).2.
Hypothesis P_inFlight : ∀ a l, P a (set_inFlight l a).

Lemma exchange_translate_moves url bps responses a :
  P a (exchange_translate url bps responses a).2.
Proof.
  unfold exchange_translate. destruct responses as [responses|e]; [|apply P_refl].
  unfold chromeBreakpointResponsesToODPBreakpoints.
  destruct (committedBpIds (Some <$> responses)); [|apply P_refl].
  match goal with
  | |- context [responsesToODPBreakpoints ?rs ?a3] =>
      pose proof (P_registry rs a3) as H; destruct (responsesToODPBreakpoints rs a3)
  end.
  simpl in *. eapply P_trans; [apply P_committed | exact H].
Qed.

Lemma exchange_add_moves url bps a : P a (exchange_add E url bps a).2.
Proof.
  unfold exchange_add.
  assert (P a (addBreakpoints E url bps a).2) as H.
  { unfold addBreakpoints. destruct (startsWith url PLACEHOLDER_URL_PROTOCOL); apply P_chrome. }
  destruct (addBreakpoints E url bps a) as [responses a1]. simpl in H.
  destruct bps; [|exact H].
  eapply P_trans; [exact H | apply exchange_translate_moves].
Qed.

Lemma exchange_remove_moves url bps ids a : P a (exchange_remove E url bps ids a).2.
Proof.
  destruct ids as [|id rest]; simpl; [|apply P_chrome].
  eapply P_trans; [apply P_committed | apply exchange_add_moves].
Qed.

Lemma exchange_start_moves url bps a : P a (exchange_start E url bps a).2.
Proof.
  unfold exchange_start.
  destruct (_committedBreakpointsByUrl a !! url) as [[ids|]|];
    [apply exchange_remove_moves | apply P_refl | apply exchange_add_moves].
Qed.

Lemma exchange_step_moves x a : P a (exchange_step E x a).2.
Proof.
  unfold exchange_step. destruct (ex_stage x) as [id rest|responses].
  - destruct (chrome_command E (Debugger_removeBreakpoint id));
      [apply exchange_remove_moves | apply P_refl].
  - apply exchange_translate_moves.
Qed.

Lemma continueExchange_moves i a : P a (continueExchange E i a).
Proof.
  unfold continueExchange. destruct (inFlight a !! i) as [x|]; [|apply P_refl].
  pose proof (exchange_step_moves x a) as H.
  destruct (exchange_step E x a) as [[stage|outcome] a1]; simpl in H;
    (eapply P_trans; [exact H | apply P_inFlight]).
Qed.

(** The exchange of a call that the timer cuts short. *)
Lemma exchange_late_moves url bps a :
  P a (match exchange_start E url bps a with
       | (Settled outcome, a1) => (Some outcome, a1)
       | (Waiting stage, a1) =>
           (None, set_inFlight (inFlight a1 ++ [mkExchange url bps stage]) a1)
       end).2.
Proof.
  pose proof (exchange_start_moves url bps a) as H.
  destruct (exchange_start E url bps a) as [[stage|outcome] a1]; simpl in *; [|exact H].
  eapply P_trans; [exact H | apply P_inFlight].
Qed.

End ExchangeMoves.

Section Sessions.
Context (E : Env).

























End Sessions.



Section Reachable.
Context (E : Env).

Lemma Handles_create_wf {V} (v : V) (h : Handles V) :
  Handles_wf h → Handles_wf (Handles_create v h).2.
Proof.
  intros [Hstart Hwf]. split; simpl; [lia|].
  intros k Hk. destruct (decide (k = _nextHandle h)) as [->|Hne]; [lia|].
  rewrite lookup_insert_ne in Hk by done. apply Hwf in Hk. lia.
Qed.

Lemma ReverseHandles_create_wf (v : option string) (r : ReverseHandles) :
  Handles_wf (rh_handles r) → Handles_wf (rh_handles (ReverseHandles_create v r).2).
Proof. intros Hwf. unfold ReverseHandles_create. simpl. by apply Handles_create_wf. Qed.

Lemma callFrameToStackFrame_ready frame a :
  ready a → ready (callFrameToStackFrame E frame a).2.
Proof.
  unfold callFrameToStackFrame, callFrameToStackFrame_try.
  destruct (_scriptsById a !! loc_scriptId (location frame)) as [s|];
    [destruct (shouldIgnoreScript s)|];
    destruct (truthy (functionName frame)); simpl; done.
Qed.

Lemma mapM_frames_ready stack a : ready a → ready (mapM_frames E stack a).2.
Proof.
  revert a. induction stack as [|frame rest IH]; intros a Hready; [done|].
  cbn [mapM_frames].
  pose proof (callFrameToStackFrame_ready frame a Hready) as H.
  destruct (callFrameToStackFrame E frame a) as [sf a1].
  specialize (IH a1 H). by destruct (mapM_frames E rest a1).
Qed.

Lemma scopes_map_ready frame i chain a : ready a → ready (scopes_map E frame i chain a).2.
Proof.
  revert i a. induction chain as [|scope rest IH]; intros i a Hready; [done|].
  cbn [scopes_map]. destruct (Handles_create _ _) as [reference vh].
  match goal with
  | |- context [scopes_map E frame (S i) rest ?a1] =>
      specialize (IH (S i) a1 Hready); by destruct (scopes_map E frame (S i) rest a1)
  end.
Qed.

Lemma handle_paused_ready notification a : ready a → ready (handle_paused E notification a).
Proof.
  intros Hready.
  assert (ready (onDebuggerPaused E notification a).2) as Hsync.
  { unfold onDebuggerPaused, setOverlay.
    destruct (String.eqb (reason notification) "exception"); [done|].
    destruct (hasHitBreakpoints notification); [done|].
    simpl. destruct (truthy_opt (_expectingStopReason a)); [|done].
    destruct (_smartStep a); [|done].
    unfold shouldSmartStep. simpl. destruct (_sourceMaps a); simpl; [|done].
    destruct (list.head (callFrames notification)) as [frame|]; [|done].
    match goal with
    | |- context [callFrameToStackFrame E frame ?a1] =>
        pose proof (callFrameToStackFrame_ready frame a1 Hready) as H;
        by destruct (callFrameToStackFrame E frame a1)
    end. }
  unfold handle_paused.
  destruct (onDebuggerPaused E notification a) as [[[chosen [should|e]]|e] a1];
    simpl in *; try done.
  unfold onDebuggerPaused_then. destruct should; simpl; [done|].
  by destruct (0 <? _smartStepCount a1)%nat.
Qed.

Lemma unverifiedBreakpoints_ready bps message a :
  ready a → ready (unverifiedBreakpoints bps message a).2.
Proof.
  revert a. induction bps as [|bp rest IH]; intros a Hready; [done|].
  cbn [unverifiedBreakpoints].
  pose proof (ReverseHandles_create_wf (Some (pretty (_nextUnboundBreakpointId a)))
                (_breakpointIdHandles a) (proj2 Hready)) as Hwf.
  destruct (ReverseHandles_create _ _) as [id bh].
  match goal with
  | |- context [unverifiedBreakpoints rest message ?a1] =>
      assert (ready a1) as H by (split; [apply Hready | exact Hwf]);
      specialize (IH a1 H); by destruct (unverifiedBreakpoints rest message a1)
  end.
Qed.

Lemma unverifiedBpResponse_ready args message a :
  ready a → ready (unverifiedBpResponse args message a).2.
Proof.
  intros Hready. unfold unverifiedBpResponse.
  pose proof (unverifiedBreakpoints_ready (breakpoints args) message a Hready) as H.
  destruct (unverifiedBreakpoints (breakpoints args) message a) as [bps a1].
  simpl in *. destruct (src_path (source args)) as [path|]; [destruct (truthy path)|]; done.
Qed.

Lemma removeBreakpoints_ready ids a : ready a → ready (removeBreakpoints E ids a).2.
Proof.
  revert a. induction ids as [|id rest IH]; intros a Hready; [done|].
  cbn [removeBreakpoints]. unfold mbind, M_bind, bind.
  destruct (chrome_command E (Debugger_removeBreakpoint id)); [|done].
  by apply IH.
Qed.

Lemma responsesToODPBreakpoints_ready responses a :
  ready a → ready (responsesToODPBreakpoints responses a).2.
Proof.
  revert a. induction responses as [|response rest IH]; intros a Hready; [done|].
  cbn [responsesToODPBreakpoints].
  assert (ready (responseToODPBreakpoint response a).2) as H.
  { unfold responseToODPBreakpoint. destruct response as [response|]; [|done].
    pose proof (ReverseHandles_create_wf (breakpointId response)
                  (_breakpointIdHandles a) (proj2 Hready)) as Hwf.
    destruct (ReverseHandles_create _ _).
    destruct (actualLocation response); split; solve [apply Hready | exact Hwf]. }
  destruct (responseToODPBreakpoint response a) as [bp a1].
  specialize (IH a1 H). by destruct (responsesToODPBreakpoints rest a1).
Qed.

Lemma setBreakpointsExchange_ready url bps a :
  ready a → ready (setBreakpointsExchange E url bps a).2.
Proof.
  intros Hready. unfold setBreakpointsExchange, mbind, M_bind, bind.
  assert (ready (clearAllBreakpoints E url a).2) as Hclear.
  { unfold clearAllBreakpoints.
    destruct (_committedBreakpointsByUrl a !! url) as [[ids|]|]; try done.
    unfold mbind, M_bind, bind, lift_state.
    pose proof (removeBreakpoints_ready ids a Hready) as H.
    by destruct (removeBreakpoints E ids a) as [[[]|e] a1]. }
  destruct (clearAllBreakpoints E url a) as [[[]|e] a1]; [|done].
  assert (ready (addBreakpoints E url bps a1).2) as Hadd.
  { unfold addBreakpoints. by destruct (startsWith url PLACEHOLDER_URL_PROTOCOL). }
  destruct (addBreakpoints E url bps a1) as [[responses|e] a2]; [|done].
  simpl in *. unfold chromeBreakpointResponsesToODPBreakpoints.
  destruct (committedBpIds (Some <$> responses)); [|done].
  match goal with
  | |- context [responsesToODPBreakpoints ?rs ?a3] =>
      pose proof (responsesToODPBreakpoints_ready rs a3 Hadd) as H;
      by destruct (responsesToODPBreakpoints rs a3)
  end.
Qed.

Lemma exchange_late_ready url bps a :
  ready a →
  ready (match exchange_start E url bps a with
         | (Settled outcome, a1) => (Some outcome, a1)
         | (Waiting stage, a1) =>
             (None, set_inFlight (inFlight a1 ++ [mkExchange url bps stage]) a1)
         end).2.
Proof.
  apply (exchange_late_moves E (λ a a', ready a → ready a')); try done.
  - intros ? ? ? H1 H2 ?. by apply H2, H1.
  - apply responsesToODPBreakpoints_ready.
Qed.

Lemma continueExchange_ready i a : ready a → ready (continueExchange E i a).
Proof.
  apply (continueExchange_moves E (λ a a', ready a → ready a')); try done.
  - intros ? ? ? H1 H2 ?. by apply H2, H1.
  - apply responsesToODPBreakpoints_ready.
Qed.

Lemma setBreakpoints_ready args requestSeq elapsed a :
  ready a → ready (setBreakpoints E args requestSeq elapsed a).2.
Proof.
  intros Hready. unfold setBreakpoints.
  destruct (validateBreakpointsPath E args) as [[]|e].
  2:{ pose proof (unverifiedBpResponse_ready args (message_of E e) a Hready) as H.
      by destruct (unverifiedBpResponse args (message_of E e) a). }
  destruct (targetScriptUrl _ a) as [target|e]; [|done].
  destruct (truthy_opt target).
  - rewrite (proj1 Hready). destruct (SET_BREAKPOINTS_TIMEOUT <? elapsed)%nat.
    + match goal with
      | |- context [exchange_start E ?u ?b a] =>
          pose proof (exchange_late_ready u b a Hready) as H;
          destruct (exchange_start E u b a) as [[stage|outcome] a1]
      end; simpl in *; (split; [|apply H]); simpl; [done|].
      by destruct outcome.
    + match goal with
      | |- context [setBreakpointsExchange E ?u ?b a] =>
          pose proof (setBreakpointsExchange_ready u b a Hready) as H;
          destruct (setBreakpointsExchange E u b a) as [p a1]
      end.
      simpl in *. split; [|apply H]. simpl. by destruct p.
  - match goal with
    | |- context [unverifiedBpResponse ?x ?m a] =>
        pose proof (unverifiedBpResponse_ready x m a Hready) as H;
        by destruct (unverifiedBpResponse x m a)
    end.
Qed.

Lemma handle_ready (ev : Event) (a : Adapter) : ready a → ready (handle E a ev).
Proof.
  intros Hready.
  destruct ev as [sourceMaps smartStep|notification| |script| | | | | | |levels|frameId
                  |reference filter start count|reference name value
                  |args requestSeq elapsed|i]; simpl; try done.
  - by apply handle_paused_ready.
  - unfold onDebuggerResumed, setOverlay. simpl. by destruct (_expectingResumedEvent a).
  - unfold onScriptParsed. by destruct (shouldIgnoreScript script).
  - split; [done|apply Hready].
  - unfold stackTrace. destruct (_currentStack a) as [stack|]; [|done].
    match goal with
    | |- context [mapM_frames E ?st a] =>
        pose proof (mapM_frames_ready st a Hready) as H; by destruct (mapM_frames E st a)
    end.
  - unfold scopes.
    destruct (Handles_get (_frameHandles a) frameId) as [[frame|]|]; try done.
    pose proof (scopes_map_ready frame 0 (scopeChain frame) a Hready) as H.
    destruct (scopes_map E frame 0 (scopeChain frame) a) as [ss a1]. simpl in *.
    destruct (_exception a1) as [exception|]; [|done].
    by destruct (Handles_create (ExceptionContainer exception) (_variableHandles a1)).
  - unfold variables. destruct (Handles_get (_variableHandles a) reference); [|done].
    by destruct (expand E _ filter start count (_variableHandles a)).
  - unfold setVariable. by destruct (Handles_get (_variableHandles a) reference).
  - by apply setBreakpoints_ready.
  - by apply continueExchange_ready.
Qed.

Lemma fold_ready (trace : list Event) (a : Adapter) :
  ready a → ready (fold_left (handle E) trace a).
Proof.
  revert a. induction trace as [|ev rest IH]; intros a Hready; [done|].
  simpl. apply IH. by apply handle_ready.
Qed.

(** In every session the request queue holds a resolved promise (no call
    finds it blocked) and the registry of breakpoint ids is well formed. *)
Lemma run_ready (start : nat) (trace : list Event) : ready (run E start trace).
Proof.
  unfold run.
  assert (ready (new_ChromeDebugAdapter start)) as Hinit.
  { split; [done|]. apply Handles_new_wf. }
  revert Hinit. generalize (new_ChromeDebugAdapter start).
  induction trace as [|ev rest IH]; intros a Hready; [done|].
  simpl. apply IH. by apply handle_ready.
Qed.

End Reachable.

Section Timeout.
Context (E : Env).

(** The callbacks of an exchange, run one by one as the answers of the
    target come, make the exchange that [setBreakpoints] runs in one go
    for a call that is in time. *)
Lemma exchange_run_settled fuel url bps outcome a :
  exchange_run E fuel url bps (Settled outcome, a) = (Settled outcome, a).
Proof. by destruct fuel. Qed.

Lemma exchange_translate_settled url bps responses a :
  ∃ outcome, (exchange_translate url bps responses a).1 = Settled outcome.
Proof.
  unfold exchange_translate. destruct responses as [responses|e]; [|by eexists].
  destruct (chromeBreakpointResponsesToODPBreakpoints _ _ _ _) as [[bps'|e] a1];
    by eexists.
Qed.

Lemma exchange_add_whole url bps a fuel :
  (0 < fuel)%nat →
  exchange_run E fuel url bps (exchange_add E url bps a)
  = exchange_translate url bps (addBreakpoints E url bps a).1 (addBreakpoints E url bps a).2.
Proof.
  intros Hfuel. unfold exchange_add.
  destruct (addBreakpoints E url bps a) as [responses a1]. cbn [fst snd].
  destruct (exchange_translate_settled url bps responses a1) as [outcome Houtcome].
  destruct (exchange_translate url bps responses a1) as [progress a2] eqn:Htranslate.
  simpl in Houtcome. subst progress.
  destruct bps as [|bp rest].
  - by rewrite exchange_run_settled.
  - destruct fuel as [|fuel]; [lia|]. cbn [exchange_run]. unfold exchange_step.
    cbn [ex_stage ex_url ex_breakpoints]. rewrite Htranslate.
    by rewrite exchange_run_settled.
Qed.

Lemma exchange_remove_whole url bps ids a fuel :
  (length ids < fuel)%nat →
  exchange_run E fuel url bps (exchange_remove E url bps ids a)
  = match removeBreakpoints E ids a with
    | (Resolved _, a1) =>
        let a2 := set_committedBreakpointsByUrl
                    (<[url := None]> (_committedBreakpointsByUrl a1)) a1 in
        exchange_translate url bps (addBreakpoints E url bps a2).1
          (addBreakpoints E url bps a2).2
    | (Rejected e, a1) => (Settled (Rejected e), a1)
    end.
Proof.
  revert a fuel. induction ids as [|id rest IH]; intros a fuel Hfuel.
  - cbn [exchange_remove removeBreakpoints]. unfold ret. cbv zeta.
    by apply exchange_add_whole.
  - destruct fuel as [|fuel]; [simpl in Hfuel; lia|].
    cbn [exchange_remove exchange_run removeBreakpoints].
    unfold exchange_step, mbind, M_bind, bind. cbn [ex_stage ex_url ex_breakpoints].
    destruct (chrome_command E (Debugger_removeBreakpoint id)) as [[]|e].
    + apply IH. simpl in Hfuel. lia.
    + by rewrite exchange_run_settled.
Qed.

Lemma exchange_run_whole url bps a fuel :
  (length (default [] (default (Some []) (_committedBreakpointsByUrl a !! url))) < fuel)%nat →
  exchange_run E fuel url bps (exchange_start E url bps a)
  = (Settled (setBreakpointsExchange E url bps a).1, (setBreakpointsExchange E url bps a).2).
Proof.
  intros Hfuel.
  unfold exchange_start, setBreakpointsExchange, clearAllBreakpoints, mbind, M_bind, bind.
  destruct (_committedBreakpointsByUrl a !! url) as [[ids|]|]; simpl in Hfuel.
  - rewrite exchange_remove_whole by done. unfold lift_state.
    destruct (removeBreakpoints E ids a) as [[[]|e] a1]; [|done]. cbv zeta.
    unfold exchange_translate.
    destruct (addBreakpoints E url bps _) as [[responses|e] a2]; [|done]. cbn [fst snd].
    by destruct (chromeBreakpointResponsesToODPBreakpoints _ _ _ _) as [[bps'|e] a3].
  - unfold fail. by rewrite exchange_run_settled.
  - rewrite exchange_add_whole by lia. unfold ret, exchange_translate.
    destruct (addBreakpoints E url bps a) as [[responses|e] a2]; [|done]. cbn [fst snd].
    by destruct (chromeBreakpointResponsesToODPBreakpoints _ _ _ _) as [[bps'|e] a3].
Qed.

(** C3, amended: in every session, a setBreakpoints call that queues an
    exchange (its path is valid and its script known) and whose exchange
    still waits for an answer of the target 3000 ms after it was queued
    fails with 'Set breakpoints request timed out'; the time that the
    validation of the path takes is not counted.  The failure goes to the
    caller only: the queue holds a resolved promise and the exchange stays
    in flight.  Whatever reaches the adapter next, the queue stays
    resolved, so that no later call is held up; and once no exchange is in
    flight, a later call whose exchange settles in time is answered with
    the outcome of that exchange. *)
Theorem setBreakpoints_timeout (start : nat) (trace : list Event)
    (args : ISetBreakpointsArgs) (requestSeq elapsed : nat) (url : string)
    (stage : Stage) (a1 : Adapter) :
  let a := run E start trace in
  let args' := path_setBreakpoints E
                 (sourceMap_setBreakpoints E (lineCol_setBreakpoints E args) requestSeq) in
  validateBreakpointsPath E args = Resolved tt →
  targetScriptUrl args' a = Return (Some url) → url ≠ "" →
  (SET_BREAKPOINTS_TIMEOUT < elapsed)%nat →
  exchange_start E url (breakpoints args') a = (Waiting stage, a1) →
  let r := setBreakpoints E args requestSeq elapsed a in
  r.1 = Rejected (Thrown "Set breakpoints request timed out") ∧
  r.2 = set_setBreakpointsRequestQ (Resolved tt)
          (set_inFlight (inFlight a1 ++ [mkExchange url (breakpoints args') stage]) a1) ∧
  ∀ later : list Event,
    let a2 := fold_left (handle E) later r.2 in
    _setBreakpointsRequestQ a2 = Resolved tt ∧
    ∀ (args2 : ISetBreakpointsArgs) (requestSeq2 elapsed2 : nat) (url2 : string),
      let args2' := path_setBreakpoints E
                      (sourceMap_setBreakpoints E (lineCol_setBreakpoints E args2)
                         requestSeq2) in
      inFlight a2 = [] →
      validateBreakpointsPath E args2 = Resolved tt →
      targetScriptUrl args2' a2 = Return (Some url2) → url2 ≠ "" →
      (elapsed2 ≤ SET_BREAKPOINTS_TIMEOUT)%nat →
      (setBreakpoints E args2 requestSeq2 elapsed2 a2).1
      = then_val (setBreakpointsExchange E url2 (breakpoints args2') a2).1
          (λ body, lineCol_setBreakpointsResponse E
                     (sourceMap_setBreakpointsResponse E body requestSeq2)).
Proof.
  intros a args' Hvalid Htarget Hurl Hlate Hstart r.
  assert (ready a) as Hready.
  { apply fold_ready. split; [done|]. apply Handles_new_wf. }
  assert (truthy url = true) as Htruthy.
  { unfold truthy. by destruct (String.eqb_spec url ""). }
  assert (r = (Rejected (Thrown "Set breakpoints request timed out"),
               set_setBreakpointsRequestQ (Resolved tt)
                 (set_inFlight (inFlight a1 ++ [mkExchange url (breakpoints args') stage]) a1)))
    as Hr.
  { unfold r, setBreakpoints. rewrite Hvalid. fold args'. rewrite Htarget. simpl.
    rewrite Htruthy, (proj1 Hready).
    assert ((SET_BREAKPOINTS_TIMEOUT <? elapsed)%nat = true) as -> by (by apply Nat.ltb_lt).
    by rewrite Hstart. }
  split; [by rewrite Hr|]. split; [by rewrite Hr|].
  intros later a2.
  assert (ready a2) as Hready2.
  { apply fold_ready. by apply setBreakpoints_ready. }
  split; [apply Hready2|].
  intros args2 requestSeq2 elapsed2 url2 args2' _ Hvalid2 Htarget2 Hurl2 Hintime.
  assert (truthy url2 = true) as Htruthy2.
  { unfold truthy. by destruct (String.eqb_spec url2 ""). }
  unfold setBreakpoints. rewrite Hvalid2. fold args2'. rewrite Htarget2. simpl.
  rewrite Htruthy2, (proj1 Hready2).
  assert ((SET_BREAKPOINTS_TIMEOUT <? elapsed2)%nat = false) as -> by (by apply Nat.ltb_ge).
  by destruct (setBreakpointsExchange E url2 _ _) as [p2 a3].
Qed.

End Timeout.

Lemma setBreakpoints_timeout_witness :
  let E := sample_env binds found in
  let url := "http://localhost/app.js" in
  let script := mkScriptParsedEvent "42" url None in
  let args := sample_args (Some url) None in
  let a := run E 1000 [Debugger_scriptParsed script] in
  let stage := Adding (Resolved [mkSetBreakpointResponse (Some "1:0")
                                   (Some (mkLocation "42" 10 (Some 0)))]) in
  let a1 := issue (Debugger_setBreakpointByUrl url 10 0 None) a in
  validateBreakpointsPath E args = Resolved tt ∧
  targetScriptUrl args a = Return (Some url) ∧
  url ≠ "" ∧
  (SET_BREAKPOINTS_TIMEOUT < 3001)%nat ∧
  exchange_start E url (breakpoints args) a = (Waiting stage, a1) ∧
  (setBreakpoints E args 1 3001 a).1 = Rejected (Thrown "Set breakpoints request timed out") ∧
  _setBreakpointsRequestQ (setBreakpoints E args 1 3001 a).2 = Resolved tt ∧
  inFlight (setBreakpoints E args 1 3001 a).2 = [mkExchange url (breakpoints args) stage].
Proof.
  intros E url script args a stage a1.
  assert (Hurl : url ≠ "") by discriminate.
  assert (Hlate : (SET_BREAKPOINTS_TIMEOUT < 3001)%nat) by (unfold SET_BREAKPOINTS_TIMEOUT; lia).
  assert (Hstart : exchange_start E url (breakpoints args) a = (Waiting stage, a1))
    by reflexivity.
  split; [reflexivity|]. split; [reflexivity|]. split; [exact Hurl|].
  split; [exact Hlate|]. split; [exact Hstart|].
  destruct (setBreakpoints_timeout E 1000 [Debugger_scriptParsed script] args 1 3001 url
              stage a1 eq_refl eq_refl Hurl Hlate Hstart) as (Hrejected & Hstate & _).
  split; [exact Hrejected|].
  split; [exact (f_equal _setBreakpointsRequestQ Hstate) | exact (f_equal inFlight Hstate)].
Defined.

(** C3, as stated, fails: a call whose path takes the source map 5000 ms
    to validate and whose exchange the target answers in 10 ms has worked
    for more than 3000 ms, and is answered with its verified breakpoint;
    and a call whose path fails the validation after 5000 ms is answered
    with an unverified breakpoint, the timer never started. *)
Lemma slow_validation_is_not_timed :
  let url := "http://localhost/app.js" in
  let E := with_lookup_ms (λ _, 5000%nat) (sample_env binds found) in
  let args := sample_args (Some url) None in
  let a := run E 1000 [Debugger_scriptParsed (mkScriptParsedEvent "42" url None)] in
  let E' := with_lookup_ms (λ _, 5000%nat) (sample_env binds not_found) in
  let args' := sample_args (Some "/x/foo.js") None in
  (SET_BREAKPOINTS_TIMEOUT < work E args 10)%nat ∧
  (setBreakpoints E args 1 10 a).1
  = Resolved (mkBody [mkBreakpoint (Some 1000%nat) true (Some 10) (Some 0) None]) ∧
  (SET_BREAKPOINTS_TIMEOUT < work E' args' 0)%nat ∧
  (setBreakpoints E' args' 1 0 (new_ChromeDebugAdapter 1000)).1
  = Resolved (mkBody [mkBreakpoint (Some 1000%nat) false (Some 10) None
                        (Some "Breakpoint ignored because generated code not found (source map problem?).")]).
Proof.
  split; [vm_compute; lia|]. split; [vm_compute; reflexivity|].
  split; [vm_compute; lia | vm_compute; reflexivity].
Qed.

(** A call that times out while the target has not answered, the answer,
    and a call that is answered in 10 ms: the first call is rejected and
    its exchange commits its breakpoint when the answer comes; the second
    call removes that breakpoint and resolves with a verified one. *)
Example timed_out_call_then_next_call :
  let E := sample_env binds found in
  let url := "http://localhost/app.js" in
  let args := sample_args (Some url) None in
  let a := run E 1000 [Debugger_scriptParsed (mkScriptParsedEvent "42" url None)] in
  let first := setBreakpoints E args 1 5000 a in
  let landed := handle E first.2 (Exchange_continues 0) in
  let second := setBreakpoints E args 2 10 landed in
  first.1 = Rejected (Thrown "Set breakpoints request timed out") ∧
  _committedBreakpointsByUrl first.2 !! url = None ∧
  _committedBreakpointsByUrl landed !! url = Some (Some ["1:0"]) ∧
  inFlight landed = [] ∧
  second.1 = Resolved (mkBody [mkBreakpoint (Some 1001%nat) true (Some 10) (Some 0) None]) ∧
  _chrome second.2
  = [Debugger_setBreakpointByUrl url 10 0 None; Debugger_removeBreakpoint "1:0";
     Debugger_setBreakpointByUrl url 10 0 None].
Proof. vm_compute. repeat split. Qed.

(** Exchanges overlap after a timeout.  The exchange of a call that
    timed out waits for the removal of a breakpoint; the next call is
    answered in time; the answer to the old removal then sets the null
    marker and sends the old adds, and until these are answered a further
    call finds the marker and is rejected. *)
Example overlapping_exchanges :
  let E := sample_env binds found in
  let url := "http://localhost/app.js" in
  let args := sample_args (Some url) None in
  let a := run E 1000 [Debugger_scriptParsed (mkScriptParsedEvent "42" url None);
                       Request_setBreakpoints args 1 10] in
  let first := setBreakpoints E args 2 5000 a in
  let second := setBreakpoints E args 3 10 first.2 in
  let overlapped := handle E second.2 (Exchange_continues 0) in
  let third := setBreakpoints E args 4 10 overlapped in
  first.1 = Rejected (Thrown "Set breakpoints request timed out") ∧
  inFlight first.2 = [mkExchange url (breakpoints args) (Removing "1:0" [])] ∧
  second.1 = Resolved (mkBody [mkBreakpoint (Some 1001%nat) true (Some 10) (Some 0) None]) ∧
  _committedBreakpointsByUrl overlapped !! url = Some None ∧
  third.1 = Rejected TypeError ∧
  _committedBreakpointsByUrl (handle E third.2 (Exchange_continues 0)) !! url
  = Some (Some ["1:0"]).
Proof. vm_compute. repeat split. Qed.

(** * Further properties *)

Section Footprints.
Context (E : Env).

(** ** What the inspection requests leave alone *)

Lemma callFrameToStackFrame_besides frame a :
  besides_registries (callFrameToStackFrame E frame a).2 = besides_registries a.
Proof.
  unfold callFrameToStackFrame, callFrameToStackFrame_try.
  destruct (_scriptsById a !! loc_scriptId (location frame)) as [s|];
    [destruct (shouldIgnoreScript s)|];
    destruct (truthy (functionName frame)); reflexivity.
Qed.

Lemma mapM_frames_besides stack a :
  besides_registries (mapM_frames E stack a).2 = besides_registries a.
Proof.
  revert a. induction stack as [|frame rest IH]; intros a; [done|].
  cbn [mapM_frames].
  pose proof (callFrameToStackFrame_besides frame a) as H.
  destruct (callFrameToStackFrame E frame a) as [sf a1].
  specialize (IH a1). destruct (mapM_frames E rest a1). simpl in *. congruence.
Qed.

Lemma stackTrace_besides levels a :
  besides_registries (stackTrace E levels a).2 = besides_registries a.
Proof.
  unfold stackTrace. destruct (_currentStack a) as [stack|]; [|done].
  match goal with
  | |- context [mapM_frames E ?st a] =>
      pose proof (mapM_frames_besides st a) as H; by destruct (mapM_frames E st a)
  end.
Qed.

Lemma scopes_map_besides frame i chain a :
  besides_registries (scopes_map E frame i chain a).2 = besides_registries a.
Proof.
  revert i a. induction chain as [|scope rest IH]; intros i a; [done|].
  cbn [scopes_map]. destruct (Handles_create _ _) as [reference vh].
  match goal with
  | |- context [scopes_map E frame (S i) rest ?a1] =>
      specialize (IH (S i) a1); by destruct (scopes_map E frame (S i) rest a1)
  end.
Qed.

Lemma scopes_besides frameId a :
  besides_registries (scopes E frameId a).2 = besides_registries a.
Proof.
  unfold scopes.
  destruct (Handles_get (_frameHandles a) frameId) as [[frame|]|]; try done.
  pose proof (scopes_map_besides frame 0 (scopeChain frame) a) as H.
  destruct (scopes_map E frame 0 (scopeChain frame) a) as [ss a1]. simpl in *.
  assert (_exception a1 = _exception a) as Hex by (unfold besides_registries in H; congruence).
  destruct (_exception a1) as [exception|]; [|done].
  by destruct (Handles_create (ExceptionContainer exception) (_variableHandles a1)).
Qed.

Lemma variables_besides reference filter start count a :
  besides_registries (variables E reference filter start count a).2 = besides_registries a.
Proof.
  unfold variables. destruct (Handles_get (_variableHandles a) reference); [|done].
  by destruct (expand E _ filter start count (_variableHandles a)).
Qed.

Lemma setVariable_unchanged reference name value a :
  (setVariable E reference name value a).2 = a.
Proof. unfold setVariable. by destruct (Handles_get (_variableHandles a) reference). Qed.

(** ** What setBreakpoints leaves alone *)

Lemma unverifiedBreakpoints_besides bps message a :
  besides_breakpoints (unverifiedBreakpoints bps message a).2 = besides_breakpoints a.
Proof.
  revert a. induction bps as [|bp rest IH]; intros a; [done|].
  cbn [unverifiedBreakpoints]. destruct (ReverseHandles_create _ _) as [id bh].
  match goal with
  | |- context [unverifiedBreakpoints rest message ?a1] =>
      specialize (IH a1); by destruct (unverifiedBreakpoints rest message a1)
  end.
Qed.

Lemma unverifiedBpResponse_besides args message a :
  besides_breakpoints (unverifiedBpResponse args message a).2 = besides_breakpoints a.
Proof.
  unfold unverifiedBpResponse.
  pose proof (unverifiedBreakpoints_besides (breakpoints args) message a) as H.
  destruct (unverifiedBreakpoints (breakpoints args) message a) as [bps a1].
  simpl in *. destruct (src_path (source args)) as [path|]; [destruct (truthy path)|]; done.
Qed.

Lemma removeBreakpoints_besides ids a :
  besides_breakpoints (removeBreakpoints E ids a).2 = besides_breakpoints a.
Proof.
  revert a. induction ids as [|id rest IH]; intros a; [done|].
  cbn [removeBreakpoints]. unfold mbind, M_bind, bind.
  destruct (chrome_command E (Debugger_removeBreakpoint id)); [|done].
  by rewrite IH.
Qed.

Lemma clearAllBreakpoints_besides url a :
  besides_breakpoints (clearAllBreakpoints E url a).2 = besides_breakpoints a.
Proof.
  unfold clearAllBreakpoints.
  destruct (_committedBreakpointsByUrl a !! url) as [[ids|]|]; try done.
  unfold mbind, M_bind, bind, lift_state.
  pose proof (removeBreakpoints_besides ids a) as H.
  by destruct (removeBreakpoints E ids a) as [[[]|e] a1].
Qed.

Lemma addBreakpoints_besides url bps a :
  besides_breakpoints (addBreakpoints E url bps a).2 = besides_breakpoints a.
Proof. unfold addBreakpoints. by destruct (startsWith url PLACEHOLDER_URL_PROTOCOL). Qed.

Lemma responsesToODPBreakpoints_besides responses a :
  besides_breakpoints (responsesToODPBreakpoints responses a).2 = besides_breakpoints a.
Proof.
  revert a. induction responses as [|response rest IH]; intros a; [done|].
  cbn [responsesToODPBreakpoints].
  assert (besides_breakpoints (responseToODPBreakpoint response a).2 = besides_breakpoints a)
    as H.
  { unfold responseToODPBreakpoint. destruct response as [response|]; [|done].
    destruct (ReverseHandles_create _ _). by destruct (actualLocation response). }
  destruct (responseToODPBreakpoint response a) as [bp a1].
  specialize (IH a1). destruct (responsesToODPBreakpoints rest a1). simpl in *. congruence.
Qed.

Lemma setBreakpointsExchange_besides url bps a :
  besides_breakpoints (setBreakpointsExchange E url bps a).2 = besides_breakpoints a.
Proof.
  unfold setBreakpointsExchange, mbind, M_bind, bind.
  pose proof (clearAllBreakpoints_besides url a) as Hclear.
  destruct (clearAllBreakpoints E url a) as [[[]|e] a1]; [|exact Hclear].
  pose proof (addBreakpoints_besides url bps a1) as Hadd.
  destruct (addBreakpoints E url bps a1) as [[responses|e] a2]; simpl in *; [|congruence].
  unfold chromeBreakpointResponsesToODPBreakpoints.
  destruct (committedBpIds (Some <$> responses)); simpl; [|congruence].
  match goal with
  | |- context [responsesToODPBreakpoints ?rs ?a3] =>
      pose proof (responsesToODPBreakpoints_besides rs a3) as H;
      destruct (responsesToODPBreakpoints rs a3)
  end.
  simpl in *. rewrite H. rewrite <- Hclear, <- Hadd. reflexivity.
Qed.

Lemma exchange_late_besides url bps a :
  besides_breakpoints
    (match exchange_start E url bps a with
     | (Settled outcome, a1) => (Some outcome, a1)
     | (Waiting stage, a1) =>
         (None, set_inFlight (inFlight a1 ++ [mkExchange url bps stage]) a1)
     end).2 = besides_breakpoints a.
Proof.
  apply (exchange_late_moves E (λ a a', besides_breakpoints a' = besides_breakpoints a));
    try done.
  - intros ? ? ? H1 H2. by rewrite H2.
  - apply responsesToODPBreakpoints_besides.
Qed.

Lemma continueExchange_besides i a :
  besides_breakpoints (continueExchange E i a) = besides_breakpoints a.
Proof.
  apply (continueExchange_moves E (λ a a', besides_breakpoints a' = besides_breakpoints a));
    try done.
  - intros ? ? ? H1 H2. by rewrite H2.
  - apply responsesToODPBreakpoints_besides.
Qed.

Lemma setBreakpoints_besides args requestSeq elapsed a :
  besides_breakpoints (setBreakpoints E args requestSeq elapsed a).2 = besides_breakpoints a.
Proof.
  unfold setBreakpoints.
  destruct (validateBreakpointsPath E args) as [[]|e].
  2:{ pose proof (unverifiedBpResponse_besides args (message_of E e) a) as H.
      by destruct (unverifiedBpResponse args (message_of E e) a). }
  destruct (targetScriptUrl _ a) as [target|e]; [|done].
  destruct (truthy_opt target).
  - destruct (_setBreakpointsRequestQ a) as [[]|e]; [|done].
    destruct (SET_BREAKPOINTS_TIMEOUT <? elapsed)%nat.
    + match goal with
      | |- context [exchange_start E ?u ?b a] =>
          pose proof (exchange_late_besides u b a) as H;
          by destruct (exchange_start E u b a) as [[stage|outcome] a1]
      end.
    + match goal with
      | |- context [setBreakpointsExchange E ?u ?b a] =>
          pose proof (setBreakpointsExchange_besides u b a) as H;
          by destruct (setBreakpointsExchange E u b a)
      end.
  - match goal with
    | |- context [unverifiedBpResponse ?x ?m a] =>
        pose proof (unverifiedBpResponse_besides x m a) as H;
        by destruct (unverifiedBpResponse x m a)
    end.
Qed.

End Footprints.

Section Stepping.
Context (E : Env).

(** X1: a resume that answers continue, next, stepIn or stepOut is not
    reported to the client, and takes the flag down; a resume that finds
    the flag down is reported with one ContinuedEvent for thread 1, so the
    suppression lasts for one resume.  pause does not suppress: the resume
    after it is reported unless a flag was already up. *)
Theorem resume_reported_unless_expected (a : Adapter) :
  (∀ r, r ∈ [continue E a; next E a; stepIn E a; stepOut E a] →
     _session (onDebuggerResumed r.2) = _session a ∧
     _expectingResumedEvent (onDebuggerResumed r.2) = false) ∧
  _session (onDebuggerResumed (onDebuggerResumed a))
  = (_session (onDebuggerResumed a) ++ [ContinuedEvent THREAD_ID])%list ∧
  _session (onDebuggerResumed (pause E a).2)
  = (if _expectingResumedEvent a then _session a
     else (_session a ++ [ContinuedEvent THREAD_ID])%list).
Proof.
  split; [|split].
  - intros r Hr. rewrite !elem_of_cons, elem_of_nil in Hr.
    destruct Hr as [->|[->|[->|[->|[]]]]]; split; reflexivity.
  - assert (_expectingResumedEvent (onDebuggerResumed a) = false) as Hdown.
    { unfold onDebuggerResumed. simpl.
      destruct (_expectingResumedEvent a) eqn:Hflag; simpl; [reflexivity | exact Hflag]. }
    revert Hdown. generalize (onDebuggerResumed a). intros a1 Hdown.
    unfold onDebuggerResumed. simpl. rewrite Hdown. reflexivity.
  - unfold onDebuggerResumed, pause. simpl.
    destruct (_expectingResumedEvent a); reflexivity.
Qed.

(** Without smart stepping the smart-step promise is the resolved
    [false]. *)
Lemma onDebuggerPaused_plain (notification : PausedEvent) (a : Adapter) :
  _smartStep a = false ∨ _sourceMaps a = false →
  ∃ chosen a1,
    onDebuggerPaused E notification a = (Return (chosen, Resolved false), a1) ∧
    _session a1 = _session a ∧ _chrome a1 = _chrome a ∧
    _smartStepCount a1 = _smartStepCount a.
Proof.
  intros Hoff. unfold onDebuggerPaused, setOverlay.
  destruct (String.eqb (reason notification) "exception"); [by do 2 eexists|].
  destruct (hasHitBreakpoints notification); [by do 2 eexists|].
  simpl. destruct (truthy_opt (_expectingStopReason a)); [|by do 2 eexists].
  destruct (_smartStep a) eqn:Hsmart; [|by do 2 eexists].
  destruct Hoff as [?|Hmaps]; [done|].
  unfold shouldSmartStep. simpl. rewrite Hmaps. simpl. by do 2 eexists.
Qed.

(** X2: when smart stepping is off, or source maps are, every paused
    notification gives the client exactly one StoppedEvent, for thread 1
    and with the text of the chosen reason; no Debugger or Runtime command
    is sent to the target (the overlay of the page is another matter) and
    the count of skipped steps returns to zero. *)
Theorem paused_reports_one_stop (notification : PausedEvent) (a : Adapter) :
  _smartStep a = false ∨ _sourceMaps a = false →
  ∃ chosen smartStepP,
    (onDebuggerPaused E notification a).1 = Return (chosen, smartStepP) ∧
    _session (handle_paused E notification a)
    = (_session a ++ [StoppedEvent (stopReasonText E chosen) THREAD_ID])%list ∧
    _chrome (handle_paused E notification a) = _chrome a ∧
    _smartStepCount (handle_paused E notification a) = 0%nat.
Proof.
  intros Hoff.
  destruct (onDebuggerPaused_plain notification a Hoff)
    as (chosen & a1 & Heq & Hsession & Hchrome & Hcount).
  exists chosen, (Resolved false). unfold handle_paused. rewrite Heq. simpl.
  unfold onDebuggerPaused_then.
  destruct (0 <? _smartStepCount a1)%nat eqn:Hpos; simpl.
  - by rewrite Hsession, Hchrome.
  - rewrite Hsession, Hchrome. repeat split; try done.
    apply Nat.ltb_ge in Hpos. lia.
Qed.

(** The path of the source of a stack frame depends on the scripts the
    adapter knows only. *)
Lemma callFrameToStackFrame_path (frame : CallFrame) (a a' : Adapter) :
  _scriptsById a' = _scriptsById a →
  src_path (sf_source (callFrameToStackFrame E frame a').1)
  = src_path (sf_source (callFrameToStackFrame E frame a).1).
Proof.
  intros Hscripts. unfold callFrameToStackFrame, callFrameToStackFrame_try.
  rewrite Hscripts.
  destruct (_scriptsById a !! loc_scriptId (location frame)) as [s|];
    [destruct (shouldIgnoreScript s)|];
    destruct (truthy (functionName frame)); reflexivity.
Qed.

(** X3: a step that lands where the source map has no authored location
    is skipped.  When the adapter smart-steps with source maps, was
    expecting a stop, and the top frame does not map (the source map has
    no authored location for the client path of the frame's source at the
    frame's line and column), the paused notification (neither an
    exception nor a hit breakpoint) sends no StoppedEvent; the adapter
    sends Debugger.stepInto, counts one more skipped step and expects a
    step and a resume again. *)
Theorem smart_step_skips_unmapped_frame (notification : PausedEvent) (a : Adapter)
    (expecting : string) (frame : CallFrame) (rest : list CallFrame) :
  _smartStep a = true → _sourceMaps a = true →
  reason notification ≠ "exception" →
  hitBreakpoints notification = None ∨ hitBreakpoints notification = Some [] →
  _expectingStopReason a = Some expecting → expecting ≠ "" →
  callFrames notification = frame :: rest →
  mapToAuthored E
    (getClientPathFromTargetPath E (src_path (sf_source (callFrameToStackFrame E frame a).1)))
    (lineNumber (location frame)) (columnNumber (location frame))
  = Resolved false →
  let a' := handle_paused E notification a in
  _session a' = _session a ∧
  _chrome a' = (_chrome a ++ [Debugger_stepInto])%list ∧
  _smartStepCount a' = S (_smartStepCount a) ∧
  _expectingStopReason a' = Some "step" ∧
  _expectingResumedEvent a' = true.
Proof.
  intros Hsmart Hmaps Hex Hhit Hexpecting Hne Hframes Hunmapped.
  unfold handle_paused, onDebuggerPaused, setOverlay.
  destruct (String.eqb_spec (reason notification) "exception") as [|_]; [done|].
  assert (hasHitBreakpoints notification = false) as ->.
  { unfold hasHitBreakpoints. by destruct Hhit as [-> | ->]. }
  simpl. rewrite Hexpecting. simpl.
  assert (truthy expecting = true) as ->.
  { unfold truthy. by destruct (String.eqb_spec expecting ""). }
  rewrite Hsmart, Hframes. unfold shouldSmartStep. simpl. rewrite Hmaps. simpl.
  match goal with
  | |- context [callFrameToStackFrame E frame ?a1] =>
      pose proof (callFrameToStackFrame_besides E frame a1) as H;
      pose proof (callFrameToStackFrame_path frame a a1 eq_refl) as Hpath;
      destruct (callFrameToStackFrame E frame a1) as [sf a2]
  end.
  cbn [fst] in Hpath. rewrite Hpath, Hunmapped. simpl.
  unfold besides_registries in H. simpl in H.
  assert (_session a2 = _session a) as -> by congruence.
  assert (_chrome a2 = _chrome a) as -> by congruence.
  assert (_smartStepCount a2 = _smartStepCount a) as -> by congruence.
  repeat split.
Qed.

End Stepping.

Lemma paused_reports_one_stop_witness :
  let E := sample_env binds found in
  let a := new_ChromeDebugAdapter 1000 in
  (_smartStep a = false ∨ _sourceMaps a = false) ∧
  _session (handle_paused E sample_paused a)
  = [StoppedEvent "debugger statement" 1%nat].
Proof.
  intros E a.
  assert (Hoff : _smartStep a = false ∨ _sourceMaps a = false) by (by left).
  split; [exact Hoff|].
  destruct (paused_reports_one_stop E sample_paused a Hoff)
    as (chosen & p & Heq & Hsession & _).
  injection Heq as <- _. exact Hsession.
Defined.

Lemma smart_step_skips_unmapped_frame_witness :
  let unmapped :=
    with_mapToAuthored (λ _ line _, Resolved (negb (line =? 10)%Z)) (sample_env binds found) in
  let a := (stepIn unmapped (commonArgs true true (new_ChromeDebugAdapter 1000))).2 in
  mapToAuthored unmapped None 11 None = Resolved true ∧
  _session (handle_paused unmapped sample_paused a) = [] ∧
  _chrome (handle_paused unmapped sample_paused a) = [Debugger_stepInto; Debugger_stepInto] ∧
  _smartStepCount (handle_paused unmapped sample_paused a) = 1%nat.
Proof.
  intros unmapped a. split; [reflexivity|].
  assert (Hex : reason sample_paused ≠ "exception") by discriminate.
  assert (Hne : "step" ≠ "") by discriminate.
  destruct (smart_step_skips_unmapped_frame unmapped sample_paused a "step" sample_frame []
              eq_refl eq_refl Hex (or_introl eq_refl) eq_refl Hne eq_refl eq_refl)
    as (Hsession & Hchrome & Hcount & _).
  repeat split; assumption.
Defined.

Section Frames.
Context (E : Env).
Local Open Scope nat_scope.

(** The handle lent for one frame. *)
Lemma callFrameToStackFrame_handle (frame : CallFrame) (a : Adapter) :
  let r := callFrameToStackFrame E frame a in
  let next := _nextHandle (_frameHandles a) in
  sf_id r.1 = next ∧
  sf_line r.1 = lineNumber (location frame) ∧
  sf_column r.1 = columnNumber (location frame) ∧
  (nonsense a frame = true → sf_name r.1 = "Unknown") ∧
  _frameHandles r.2
  = mkHandles (START_HANDLE (_frameHandles a)) (S next)
      (<[next := if nonsense a frame then None else Some frame]> (_handleMap (_frameHandles a))).
Proof.
  unfold callFrameToStackFrame, callFrameToStackFrame_try, nonsense.
  destruct (_scriptsById a !! loc_scriptId (location frame)) as [s|];
    [destruct (shouldIgnoreScript s)|];
    destruct (truthy (functionName frame)); simpl; repeat split; done.
Qed.

Lemma mapM_frames_handles (frames : list CallFrame) (a : Adapter) :
  let r := mapM_frames E frames a in
  let next := _nextHandle (_frameHandles a) in
  sf_id <$> r.1 = seq next (length frames) ∧
  sf_line <$> r.1 = (λ frame, lineNumber (location frame)) <$> frames ∧
  _nextHandle (_frameHandles r.2) = next + length frames ∧
  (∀ i frame, frames !! i = Some frame →
     Handles_get (_frameHandles r.2) (next + i)
     = Some (if nonsense a frame then None else Some frame)) ∧
  (∀ k, k < next →
     Handles_get (_frameHandles r.2) k = Handles_get (_frameHandles a) k).
Proof.
  revert a. induction frames as [|frame rest IH]; intros a.
  { simpl. repeat split; try done; try lia. }
  cbn [mapM_frames].
  pose proof (callFrameToStackFrame_handle frame a) as (Hid & Hline & _ & _ & Hreg).
  pose proof (callFrameToStackFrame_besides E frame a) as Hsame.
  destruct (callFrameToStackFrame E frame a) as [sf a1]. simpl in Hid, Hline, Hreg, Hsame.
  assert (∀ f, nonsense a1 f = nonsense a f) as Hnonsense.
  { intros f. unfold nonsense. unfold besides_registries in Hsame.
    assert (_scriptsById a1 = _scriptsById a) as -> by congruence. done. }
  specialize (IH a1). destruct (mapM_frames E rest a1) as [sfs a2].
  simpl in IH. destruct IH as (Hids & Hlines & Hnext & Hnew & Hold).
  unfold Handles_get in *. rewrite Hreg in Hids, Hnext, Hnew, Hold. simpl in *.
  split; [simpl; f_equal; [exact Hid | exact Hids]|].
  split; [simpl; f_equal; [exact Hline | exact Hlines]|].
  split; [lia|]. split.
  - intros [|i] f Hf; simpl in Hf.
    + injection Hf as <-. rewrite Nat.add_0_r, Hold by lia. apply lookup_insert_eq.
    + replace (_nextHandle (_frameHandles a) + S i)
        with (S (_nextHandle (_frameHandles a) + i)) by lia.
      rewrite (Hnew i f Hf). by rewrite Hnonsense.
  - intros k Hk. rewrite Hold by lia. apply lookup_insert_ne. lia.
Qed.

(** X4: stackTrace lends one frame handle per call frame it answers for,
    in order and after the handles lent before, which stay as they are.
    The handle of a frame resolves to that frame, or to null when the
    frame is nonsense; the stack frames are the lent handles with the
    frames' lines, as the three transformers then rewrite them. *)
Theorem stackTrace_lends_frame_handles (levels : option nat) (stack : list CallFrame)
    (a : Adapter) :
  _currentStack a = Some stack →
  let frames := match levels with Some (S n) => take (S n) stack | _ => stack end in
  let next := _nextHandle (_frameHandles a) in
  let r := stackTrace E levels a in
  (∃ stackFrames,
     r.1 = Return (lineCol_stackTraceResponse E
                     (sourceMap_stackTraceResponse E (path_stackTraceResponse E stackFrames))) ∧
     sf_id <$> stackFrames = seq next (length frames) ∧
     sf_line <$> stackFrames = (λ frame, lineNumber (location frame)) <$> frames) ∧
  (∀ i frame, frames !! i = Some frame →
     Handles_get (_frameHandles r.2) (next + i)
     = Some (if nonsense a frame then None else Some frame)) ∧
  (∀ k, k < next → Handles_get (_frameHandles r.2) k = Handles_get (_frameHandles a) k).
Proof.
  intros Hstack frames next. unfold stackTrace. rewrite Hstack. fold frames.
  pose proof (mapM_frames_handles frames a) as (Hids & Hlines & _ & Hnew & Hold).
  destruct (mapM_frames E frames a) as [sfs a1]. simpl in *.
  split; [by exists sfs|]. by split.
Qed.

(** X5: the dummy frame made for a nonsense call frame is named 'Unknown'
    and its handle resolves to null: asking for its scopes throws, and
    leaves the adapter as it was. *)
Theorem scopes_of_nonsense_frame_throw (frame : CallFrame) (a : Adapter) :
  nonsense a frame = true →
  let r := callFrameToStackFrame E frame a in
  sf_name r.1 = "Unknown" ∧
  Handles_get (_frameHandles r.2) (sf_id r.1) = Some None ∧
  scopes E (sf_id r.1) r.2 = (Throw TypeError, r.2).
Proof.
  intros Hnonsense.
  pose proof (callFrameToStackFrame_handle frame a) as (Hid & _ & _ & Hname & Hreg).
  destruct (callFrameToStackFrame E frame a) as [sf a1]. simpl in *.
  rewrite Hnonsense in Hreg.
  assert (Handles_get (_frameHandles a1) (sf_id sf) = Some None) as Hget.
  { unfold Handles_get. rewrite Hreg, Hid. simpl. apply lookup_insert_eq. }
  split; [by apply Hname|]. split; [done|]. unfold scopes. by rewrite Hget.
Qed.

(** The scopes of a chain, [i] being the index of its first scope. *)
Lemma scopes_map_spec (frame : CallFrame) (i : nat) (chain : list Scope) (a : Adapter) :
  let r := scopes_map E frame i chain a in
  let next := _nextHandle (_variableHandles a) in
  length r.1 = length chain ∧
  _nextHandle (_variableHandles r.2) = next + length chain ∧
  (∀ j scope, chain !! j = Some scope →
     (ds_variablesReference <$> r.1 !! j) = Some (next + j) ∧
     (ds_expensive <$> r.1 !! j) = Some (Some (String.eqb (scope_type scope) "global")) ∧
     Handles_get (_variableHandles r.2) (next + j)
     = Some (ScopeContainer (callFrameId frame) (Some (i + j))
               (objectId (scope_object scope))
               (if i + j =? 0 then this frame else None)
               (if i + j =? 0 then returnValue frame else None))) ∧
  (∀ k, k < next →
     Handles_get (_variableHandles r.2) k = Handles_get (_variableHandles a) k).
Proof.
  revert i a. induction chain as [|scope rest IH]; intros i a.
  { simpl. repeat split; try done; lia. }
  cbn [scopes_map]. unfold Handles_create.
  match goal with
  | |- context [scopes_map E frame (S i) rest ?a1] =>
      specialize (IH (S i) a1); destruct (scopes_map E frame (S i) rest a1) as [ss a2]
  end.
  simpl in IH. destruct IH as (Hlen & Hnext & Hnew & Hold).
  unfold Handles_get in *. simpl in *.
  split; [by rewrite Hlen|]. split; [lia|]. split.
  - intros [|j] sc Hsc; simpl in Hsc.
    + injection Hsc as <-. rewrite !Nat.add_0_r. simpl.
      split; [done|]. split; [done|]. rewrite Hold by lia. apply lookup_insert_eq.
    + replace (_nextHandle (_variableHandles a) + S j)
        with (S (_nextHandle (_variableHandles a) + j)) by lia.
      replace (i + S j) with (S (i + j)) by lia. by apply Hnew.
  - intros k Hk. rewrite Hold by lia. apply lookup_insert_ne. lia.
Qed.

(** X6: for a frame handle that resolves to a call frame, scopes answers
    with one scope per entry of the frame's scope chain, in order, after
    an 'Exception' scope when the adapter holds an exception.  Each scope
    carries a fresh variable handle that resolves to the container of that
    scope: only the first scope of the chain holds the frame's [this] and
    return value, and a scope is expensive exactly when it is the global
    one.  The exception's handle is lent last. *)
Theorem scopes_lend_containers (frameId : nat) (frame : CallFrame) (a : Adapter) :
  Handles_get (_frameHandles a) frameId = Some (Some frame) →
  let next := _nextHandle (_variableHandles a) in
  let chain := scopeChain frame in
  let shift := match _exception a with Some _ => 1 | None => 0 end in
  ∃ ss a',
    scopes E frameId a = (Return ss, a') ∧
    length ss = shift + length chain ∧
    (∀ j scope, chain !! j = Some scope →
       (ds_variablesReference <$> ss !! (shift + j)) = Some (next + j) ∧
       (ds_expensive <$> ss !! (shift + j))
       = Some (Some (String.eqb (scope_type scope) "global")) ∧
       Handles_get (_variableHandles a') (next + j)
       = Some (ScopeContainer (callFrameId frame) (Some j) (objectId (scope_object scope))
                 (if j =? 0 then this frame else None)
                 (if j =? 0 then returnValue frame else None))) ∧
    (∀ exception, _exception a = Some exception →
       ss !! 0 = Some (mkDapScope (localize E "scope.exception" "Exception")
                         (next + length chain) None) ∧
       Handles_get (_variableHandles a') (next + length chain)
       = Some (ExceptionContainer exception)) ∧
    (∀ k, k < next →
       Handles_get (_variableHandles a') k = Handles_get (_variableHandles a) k).
Proof.
  intros Hget next chain shift. unfold scopes. rewrite Hget.
  pose proof (scopes_map_spec frame 0 chain a) as (Hlen & Hnext & Hnew & Hold).
  pose proof (scopes_map_besides E frame 0 chain a) as Hsame.
  fold chain. destruct (scopes_map E frame 0 chain a) as [ss a1]. simpl in *.
  assert (_exception a1 = _exception a) as Hex
    by (unfold besides_registries in Hsame; congruence).
  rewrite Hex. subst shift. destruct (_exception a) as [exception|].
  - unfold Handles_create, Handles_get in *. do 2 eexists. split; [reflexivity|].
    simpl. split; [by rewrite Hlen|]. split; [|split].
    + intros j scope Hscope. destruct (Hnew j scope Hscope) as (Href & Hexp & Hcontainer).
      split; [done|]. split; [done|].
      rewrite lookup_insert_ne; [done|].
      apply lookup_lt_Some in Hscope. fold next in Hnext. lia.
    + intros ? [= <-]. fold next in Hnext. rewrite Hnext.
      split; [done|]. apply lookup_insert_eq.
    + intros k Hk. rewrite lookup_insert_ne by (fold next in Hnext; lia). by apply Hold.
  - do 2 eexists. split; [reflexivity|]. split; [done|]. split; [|split]; [done|done|done].
Qed.

End Frames.

Lemma stackTrace_lends_frame_handles_witness :
  let E := sample_env binds found in
  let a := handle_paused E sample_paused (new_ChromeDebugAdapter 1000) in
  _currentStack a = Some [sample_frame] ∧
  Handles_get (_frameHandles (stackTrace E None a).2) 1000 = Some (Some sample_frame).
Proof.
  intros E a. split; [reflexivity|].
  destruct (stackTrace_lends_frame_handles E None [sample_frame] a eq_refl)
    as (_ & Hnew & _).
  exact (Hnew 0%nat sample_frame eq_refl).
Defined.

Lemma scopes_of_nonsense_frame_throw_witness :
  let E := sample_env binds found in
  let a := new_ChromeDebugAdapter 1000 in
  let frame := mkCallFrame "frame-0" "" (mkLocation "42" 10 (Some 0)) [] None None in
  nonsense a frame = true ∧
  scopes E 1000 (callFrameToStackFrame E frame a).2
  = (Throw TypeError, (callFrameToStackFrame E frame a).2).
Proof.
  intros E a frame. split; [reflexivity|].
  destruct (scopes_of_nonsense_frame_throw E frame a eq_refl) as (_ & _ & Hthrow).
  exact Hthrow.
Defined.

Lemma scopes_lend_containers_witness :
  let E := sample_env binds found in
  let a := (stackTrace E None (handle_paused E sample_paused (new_ChromeDebugAdapter 1000))).2 in
  Handles_get (_frameHandles a) 1000 = Some (Some sample_frame) ∧
  ∃ ss a', scopes E 1000 a = (Return ss, a') ∧ length ss = 1%nat.
Proof.
  intros E a. split; [reflexivity|].
  destruct (scopes_lend_containers E 1000 sample_frame a eq_refl)
    as (ss & a' & Heq & Hlen & _).
  exists ss, a'. split; [exact Heq | exact Hlen].
Defined.

Section Exchange.
Context (E : Env).
Local Open Scope nat_scope.

Lemma removeBreakpoints_resolved (ids : list string) (a : Adapter) :
  (∀ id, id ∈ ids → chrome_command E (Debugger_removeBreakpoint id) = Resolved tt) →
  removeBreakpoints E ids a
  = (Resolved tt, set_chrome (_chrome a ++ (Debugger_removeBreakpoint <$> ids)) a).
Proof.
  revert a. induction ids as [|id rest IH]; intros a Hok.
  { simpl. rewrite app_nil_r. by destruct a. }
  cbn [removeBreakpoints]. unfold mbind, M_bind, bind.
  rewrite (Hok id) by apply list_elem_of_here.
  rewrite IH by (intros id' Hin; apply Hok; by apply list_elem_of_further).
  unfold issue. simpl. by rewrite <- app_assoc.
Qed.

Lemma removeBreakpoints_rejected (before after : list string) (id : string) (e : JsError)
    (a : Adapter) :
  (∀ id', id' ∈ before → chrome_command E (Debugger_removeBreakpoint id') = Resolved tt) →
  chrome_command E (Debugger_removeBreakpoint id) = Rejected e →
  removeBreakpoints E (before ++ id :: after) a
  = (Rejected e,
     set_chrome (_chrome a ++ (Debugger_removeBreakpoint <$> (before ++ [id])%list)) a).
Proof.
  revert a. induction before as [|id0 rest IH]; intros a Hok Hfail.
  { simpl. unfold mbind, M_bind, bind. by rewrite Hfail. }
  cbn [removeBreakpoints app]. unfold mbind, M_bind, bind.
  rewrite (Hok id0) by apply list_elem_of_here.
  rewrite IH; [|intros id' Hin; apply Hok; by apply list_elem_of_further|done].
  unfold issue. simpl. by rewrite <- app_assoc.
Qed.

Lemma clearAllBreakpoints_resolved (url : string) (ids : list string) (a : Adapter) :
  _committedBreakpointsByUrl a !! url = Some (Some ids) →
  (∀ id, id ∈ ids → chrome_command E (Debugger_removeBreakpoint id) = Resolved tt) →
  clearAllBreakpoints E url a
  = (Resolved tt,
     set_committedBreakpointsByUrl (<[url := None]> (_committedBreakpointsByUrl a))
       (set_chrome (_chrome a ++ (Debugger_removeBreakpoint <$> ids)) a)).
Proof.
  intros Hcommitted Hok. unfold clearAllBreakpoints. rewrite Hcommitted.
  unfold mbind, M_bind, bind, lift_state. by rewrite removeBreakpoints_resolved.
Qed.

(** X7: clearAllBreakpoints does nothing for a URL without committed
    breakpoints.  Otherwise it removes the committed breakpoints one at a
    time, in order: when every removal succeeds the URL is left with the
    null marker; when one fails, the removals after it are not sent, the
    failure is the result and the committed list stays as it was. *)
Theorem clearAllBreakpoints_one_at_a_time (url : string) (a : Adapter) :
  (_committedBreakpointsByUrl a !! url = None →
     clearAllBreakpoints E url a = (Resolved tt, a)) ∧
  (∀ ids, _committedBreakpointsByUrl a !! url = Some (Some ids) →
     (∀ id, id ∈ ids → chrome_command E (Debugger_removeBreakpoint id) = Resolved tt) →
     ∃ a', clearAllBreakpoints E url a = (Resolved tt, a') ∧
           _chrome a' = (_chrome a ++ (Debugger_removeBreakpoint <$> ids))%list ∧
           _committedBreakpointsByUrl a' = <[url := None]> (_committedBreakpointsByUrl a)) ∧
  (∀ (before : list string) (id : string) (after : list string) (e : JsError),
     _committedBreakpointsByUrl a !! url = Some (Some (before ++ id :: after)%list) →
     (∀ id', id' ∈ before → chrome_command E (Debugger_removeBreakpoint id') = Resolved tt) →
     chrome_command E (Debugger_removeBreakpoint id) = Rejected e →
     ∃ a', clearAllBreakpoints E url a = (Rejected e, a') ∧
           _chrome a' = (_chrome a ++ (Debugger_removeBreakpoint <$> (before ++ [id])%list))%list ∧
           _committedBreakpointsByUrl a' = _committedBreakpointsByUrl a).
Proof.
  split; [|split].
  - unfold clearAllBreakpoints. by intros ->.
  - intros ids Hcommitted Hok. rewrite (clearAllBreakpoints_resolved url ids) by done.
    by eexists.
  - intros before id after e Hcommitted Hok Hfail. unfold clearAllBreakpoints.
    rewrite Hcommitted. unfold mbind, M_bind, bind, lift_state.
    rewrite (removeBreakpoints_rejected before after id e) by done. by eexists.
Qed.

(** X8: the null marker is not an empty list.  Once the committed
    breakpoints of a URL have been cleared, clearing them again, before an
    add has committed a new list, throws on the marker: the step is
    rejected with a TypeError and nothing is sent. *)
Theorem clearAllBreakpoints_twice_throws (url : string) (ids : list string) (a : Adapter) :
  _committedBreakpointsByUrl a !! url = Some (Some ids) →
  (∀ id, id ∈ ids → chrome_command E (Debugger_removeBreakpoint id) = Resolved tt) →
  let a1 := (clearAllBreakpoints E url a).2 in
  clearAllBreakpoints E url a1 = (Rejected TypeError, a1).
Proof.
  intros Hcommitted Hok. rewrite (clearAllBreakpoints_resolved url ids) by done. simpl.
  unfold clearAllBreakpoints. simpl. by rewrite lookup_insert_eq.
Qed.

Lemma Promise_all_resolved {A B} (f : A → promise B) (g : A → B) (l : list A) :
  (∀ x, x ∈ l → f x = Resolved (g x)) → Promise_all (f <$> l) = Resolved (g <$> l).
Proof.
  induction l as [|x l IH]; intros Hall; [done|]. rewrite !fmap_cons.
  cbn [Promise_all]. rewrite (Hall x) by apply list_elem_of_here.
  by rewrite IH by (intros y Hy; apply Hall; by apply list_elem_of_further).
Qed.

Lemma Promise_all_rejected {A} (ps : list (promise A)) (e : JsError) :
  Rejected e ∈ ps → ∃ e', Promise_all ps = Rejected e'.
Proof.
  induction ps as [|p ps IH]; intros Hin; [by apply elem_of_nil in Hin|].
  simpl. destruct p as [v|e0]; [|by eexists].
  apply elem_of_cons in Hin as [?|Hin]; [done|].
  destruct (IH Hin) as [e' ->]. by eexists.
Qed.

Lemma byUrlResponse_known (script : ScriptParsedEvent) (p : promise SetBreakpointByUrlResponse) :
  byUrlResponse (Some script) p = Resolved (normalized script p).
Proof.
  unfold byUrlResponse, normalized. destruct p as [result|e]; [|done].
  by destruct (head (locations result)).
Qed.

Lemma addBreakpoints_by_url (url : string) (script : ScriptParsedEvent)
    (bps : list SourceBreakpoint) (a : Adapter) :
  startsWith url PLACEHOLDER_URL_PROTOCOL = false →
  _scriptsByUrl a !! url = Some script →
  addBreakpoints E url bps a
  = (Resolved ((λ bp, normalized script
                        (chrome_setBreakpointByUrl E (pathToRegex E url) (sbp_line bp)
                           (default 0%Z (sbp_column bp)) (sbp_condition bp))) <$> bps),
     set_chrome (_chrome a ++
                 ((λ bp, Debugger_setBreakpointByUrl (pathToRegex E url) (sbp_line bp)
                           (default 0%Z (sbp_column bp)) (sbp_condition bp)) <$> bps)) a).
Proof.
  intros Hstarts Hscript. unfold addBreakpoints. rewrite Hstarts, Hscript. f_equal.
  apply Promise_all_resolved. intros bp _. apply byUrlResponse_known.
Qed.

(** X9: for a script with a real URL that the adapter knows, addBreakpoints
    never fails: it resolves with one response per requested breakpoint,
    in order, a refused breakpoint giving the empty object and an accepted
    one its id with the first location, if any, under the script's id.
    For a placeholder URL the target's errors are not caught: one refused
    breakpoint rejects the whole batch, and responses go through as they
    are when none is refused. *)
Theorem addBreakpoints_batch (url : string) (bps : list SourceBreakpoint) (a : Adapter) :
  (∀ script,
     startsWith url PLACEHOLDER_URL_PROTOCOL = false →
     _scriptsByUrl a !! url = Some script →
     ∃ responses,
       (addBreakpoints E url bps a).1 = Resolved responses ∧
       length responses = length bps ∧
       ∀ i bp, bps !! i = Some bp →
         responses !! i
         = Some (normalized script
                   (chrome_setBreakpointByUrl E (pathToRegex E url) (sbp_line bp)
                      (default 0%Z (sbp_column bp)) (sbp_condition bp)))) ∧
  (startsWith url PLACEHOLDER_URL_PROTOCOL = true →
     let ask (bp : SourceBreakpoint) :=
       chrome_setBreakpoint E
         (mkLocation (lstrip url PLACEHOLDER_URL_PROTOCOL) (sbp_line bp)
            (Some (default 0%Z (sbp_column bp))))
         (sbp_condition bp) in
     (∀ bp e, bp ∈ bps → ask bp = Rejected e →
        ∃ e', (addBreakpoints E url bps a).1 = Rejected e') ∧
     (∀ answer, (∀ bp, bp ∈ bps → ask bp = Resolved (answer bp)) →
        (addBreakpoints E url bps a).1 = Resolved (answer <$> bps))).
Proof.
  split.
  - intros script Hstarts Hscript. rewrite (addBreakpoints_by_url url script) by done.
    eexists. split; [reflexivity|]. split; [by rewrite length_fmap|].
    intros i bp Hbp. by rewrite list_lookup_fmap, Hbp.
  - intros Hstarts ask. unfold addBreakpoints. rewrite Hstarts. simpl. split.
    + intros bp e Hin Hrejected. apply (Promise_all_rejected _ e).
      apply list_elem_of_fmap. exists bp. split; [|done]. by rewrite <- Hrejected.
    + intros answer Hall. by apply Promise_all_resolved.
Qed.

Lemma committedBpIds_some (responses : list SetBreakpointResponse) :
  committedBpIds (Some <$> responses)
  = Return (filter (λ id, id ≠ "") (omap breakpointId responses)).
Proof.
  induction responses as [|response rest IH]; [done|].
  cbn [fmap list_fmap committedBpIds]. fold (Some <$> rest). rewrite IH.
  cbn [omap list_omap]. destruct (breakpointId response) as [id|]; [|done].
  unfold truthy. destruct (String.eqb_spec id "") as [->|Hne].
  - by rewrite filter_cons_False by (intros H; by apply H).
  - by rewrite filter_cons_True.
Qed.

Lemma responsesToODPBreakpoints_spec (responses : list SetBreakpointResponse) (a : Adapter) :
  let r := responsesToODPBreakpoints (Some <$> responses) a in
  let next := _nextHandle (rh_handles (_breakpointIdHandles a)) in
  r.1 = zip_with translated (seq next (length responses)) responses ∧
  _committedBreakpointsByUrl r.2 = _committedBreakpointsByUrl a ∧
  _chrome r.2 = _chrome a ∧
  (∀ i response, responses !! i = Some response →
     ReverseHandles_get (_breakpointIdHandles r.2) (next + i) = Some (breakpointId response)) ∧
  (∀ k, k < next →
     ReverseHandles_get (_breakpointIdHandles r.2) k
     = ReverseHandles_get (_breakpointIdHandles a) k).
Proof.
  revert a. induction responses as [|response rest IH]; intros a.
  { simpl. repeat split; try done; lia. }
  cbn [fmap list_fmap responsesToODPBreakpoints]. fold (Some <$> rest).
  unfold responseToODPBreakpoint, ReverseHandles_create, Handles_create.
  set (a1 := set_breakpointIdHandles _ a).
  assert (∀ bp, (let '(bps, a2) := responsesToODPBreakpoints (Some <$> rest) a1 in
                 (bp :: bps, a2))
                = (bp :: (responsesToODPBreakpoints (Some <$> rest) a1).1,
                   (responsesToODPBreakpoints (Some <$> rest) a1).2)) as Hpair.
  { intros bp. by destruct (responsesToODPBreakpoints (Some <$> rest) a1). }
  specialize (IH a1). simpl in IH. destruct IH as (Hbps & Hcommitted & Hchrome & Hnew & Hold).
  unfold ReverseHandles_get, Handles_get in *. simpl in Hnew, Hold.
  assert (∀ bp, (let '(bp0, a0) := (bp, a1) in
                 let '(bps, a2) := responsesToODPBreakpoints (Some <$> rest) a0 in
                 (bp0 :: bps, a2))
                = (bp :: (responsesToODPBreakpoints (Some <$> rest) a1).1,
                   (responsesToODPBreakpoints (Some <$> rest) a1).2)) as Hstep.
  { intros bp. simpl. apply Hpair. }
  assert ((let '(bp0, a0) :=
             match actualLocation response with
             | Some loc =>
                 (mkBreakpoint (Some (_nextHandle (rh_handles (_breakpointIdHandles a)))) true
                    (Some (lineNumber loc)) (columnNumber loc) None, a1)
             | None =>
                 (mkBreakpoint (Some (_nextHandle (rh_handles (_breakpointIdHandles a)))) false
                    None None None, a1)
             end in
           let '(bps, a2) := responsesToODPBreakpoints (Some <$> rest) a0 in
           (bp0 :: bps, a2))
          = (translated (_nextHandle (rh_handles (_breakpointIdHandles a))) response
               :: (responsesToODPBreakpoints (Some <$> rest) a1).1,
             (responsesToODPBreakpoints (Some <$> rest) a1).2)) as ->.
  { unfold translated. destruct (actualLocation response); apply Hstep. }
  simpl. split; [by rewrite Hbps|]. split; [done|]. split; [done|]. split.
  - intros [|i] r Hr; simpl in Hr.
    + injection Hr as <-. rewrite Nat.add_0_r, Hold by lia. apply lookup_insert_eq.
    + replace (_nextHandle (rh_handles (_breakpointIdHandles a)) + S i)
        with (S (_nextHandle (rh_handles (_breakpointIdHandles a)) + i)) by lia.
      by apply Hnew.
  - intros k Hk. rewrite Hold by lia. apply lookup_insert_ne. lia.
Qed.

(** X10: the translation answers with one breakpoint per response, in
    order, each with a fresh handle that resolves to the response's
    breakpoint id; a breakpoint is verified, and carries its line and
    column, exactly when the response has a location.  The breakpoint ids
    of the responses that have one are what is committed for the URL, in
    place of what was there. *)
Theorem translation_commits_bound_ids (url : string) (responses : list SetBreakpointResponse)
    (requestBps : list SourceBreakpoint) (a : Adapter) :
  let r := chromeBreakpointResponsesToODPBreakpoints url (Some <$> responses) requestBps a in
  let next := _nextHandle (rh_handles (_breakpointIdHandles a)) in
  r.1 = Return (zip_with translated (seq next (length responses)) responses) ∧
  _committedBreakpointsByUrl r.2
  = <[url := Some (filter (λ id, id ≠ "") (omap breakpointId responses))]>
      (_committedBreakpointsByUrl a) ∧
  (∀ i response, responses !! i = Some response →
     ReverseHandles_get (_breakpointIdHandles r.2) (next + i) = Some (breakpointId response)).
Proof.
  unfold chromeBreakpointResponsesToODPBreakpoints. rewrite committedBpIds_some.
  match goal with
  | |- context [responsesToODPBreakpoints _ ?a1] =>
      pose proof (responsesToODPBreakpoints_spec responses a1)
        as (Hbps & Hcommitted & _ & Hnew & _);
      destruct (responsesToODPBreakpoints (Some <$> responses) a1) as [bps a2]
  end.
  simpl in *. by rewrite Hbps.
Qed.

(** X11: one exchange for a known script with a real URL.  While the
    committed list of the URL is the null marker that a clear leaves, the
    exchange is rejected with a TypeError and nothing is sent.  Otherwise,
    on a target that removes what it is asked to, the committed
    breakpoints of the URL, if it has any, are removed first, one by one,
    then one Debugger.setBreakpointByUrl is sent per requested breakpoint.
    The exchange resolves with one breakpoint per requested breakpoint,
    each with an id, whatever the target answers to the adds, and commits
    for the URL the ids of the breakpoints that the target accepted. *)
Theorem exchange_clears_then_adds (url : string) (script : ScriptParsedEvent)
    (bps : list SourceBreakpoint) (a : Adapter) :
  startsWith url PLACEHOLDER_URL_PROTOCOL = false →
  _scriptsByUrl a !! url = Some script →
  (_committedBreakpointsByUrl a !! url = Some None →
   setBreakpointsExchange E url bps a = (Rejected TypeError, a)) ∧
  (let ids := default [] (default (Some []) (_committedBreakpointsByUrl a !! url)) in
   _committedBreakpointsByUrl a !! url ≠ Some None →
   (∀ id, id ∈ ids → chrome_command E (Debugger_removeBreakpoint id) = Resolved tt) →
   ∃ body a',
     setBreakpointsExchange E url bps a = (Resolved body, a') ∧
     length (body_breakpoints body) = length bps ∧
     Forall (λ bp, is_Some (bp_id bp)) (body_breakpoints body) ∧
     _chrome a'
     = (_chrome a ++ (Debugger_removeBreakpoint <$> ids) ++
        ((λ bp, Debugger_setBreakpointByUrl (pathToRegex E url) (sbp_line bp)
                  (default 0%Z (sbp_column bp)) (sbp_condition bp)) <$> bps))%list ∧
     _committedBreakpointsByUrl a' !! url
     = Some (Some (filter (λ id, id ≠ "")
                     (omap (λ bp, breakpointId
                                    (normalized script
                                       (chrome_setBreakpointByUrl E (pathToRegex E url)
                                          (sbp_line bp) (default 0%Z (sbp_column bp))
                                          (sbp_condition bp)))) bps)))).
Proof.
  intros Hstarts Hscript. split.
  { intros Hnull.
    unfold setBreakpointsExchange, mbind, M_bind, bind, clearAllBreakpoints.
    by rewrite Hnull. }
  intros ids Hmarker Hok.
  unfold setBreakpointsExchange, mbind, M_bind, bind.
  assert (∃ a0, clearAllBreakpoints E url a = (Resolved tt, a0) ∧
                _scriptsByUrl a0 = _scriptsByUrl a ∧
                _chrome a0 = (_chrome a ++ (Debugger_removeBreakpoint <$> ids))%list)
    as (a0 & -> & Hscripts & Hremoved).
  { destruct (_committedBreakpointsByUrl a !! url) as [[committed|]|] eqn:Hcommitted;
      [|done|]; simpl in ids; subst ids.
    - eexists. split; [by apply clearAllBreakpoints_resolved|]. done.
    - unfold clearAllBreakpoints. rewrite Hcommitted. eexists. split; [reflexivity|].
      split; [done|]. simpl. by rewrite app_nil_r. }
  rewrite (addBreakpoints_by_url url script) by (by rewrite ?Hscripts).
  set (responses := _ <$> bps).
  unfold chromeBreakpointResponsesToODPBreakpoints. rewrite committedBpIds_some.
  match goal with
  | |- context [responsesToODPBreakpoints _ ?a1] =>
      pose proof (responsesToODPBreakpoints_spec responses a1)
        as (Hbps & Hmap & Hchrome & _);
      pose proof (translated_breakpoints_have_ids responses a1) as Hids;
      destruct (responsesToODPBreakpoints (Some <$> responses) a1) as [bps' a2]
  end.
  simpl in *. do 2 eexists. split; [reflexivity|]. simpl.
  split.
  { rewrite Hbps, length_zip_with, length_seq. subst responses. rewrite length_fmap. lia. }
  split; [done|]. split; [by rewrite Hchrome, Hremoved, <- app_assoc|].
  rewrite Hmap, lookup_insert_eq. subst responses. do 3 f_equal.
  clear. induction bps as [|bp rest IH]; [done|].
  rewrite fmap_cons. cbn [omap list_omap]. by rewrite IH.
Qed.

(** X12: a request without path whose source reference is not a
    registered source handle is not answered with unverified breakpoints:
    reading the script id of the missing handle throws, the call is
    rejected with a TypeError and the adapter is left as it was. *)
Theorem setBreakpoints_stale_reference (args : ISetBreakpointsArgs)
    (requestSeq elapsed reference : nat) (a : Adapter) :
  let args' := path_setBreakpoints E
                 (sourceMap_setBreakpoints E (lineCol_setBreakpoints E args) requestSeq) in
  validateBreakpointsPath E args = Resolved tt →
  truthy_opt (src_path (source args')) = false →
  sourceReference (source args') = Some (S reference) →
  Handles_get (_sourceHandles a) (S reference) = None →
  setBreakpoints E args requestSeq elapsed a = (Rejected TypeError, a).
Proof.
  intros args' Hvalid Hpath Hreference Hget.
  unfold setBreakpoints, targetScriptUrl. rewrite Hvalid. fold args'.
  by rewrite Hpath, Hreference, Hget.
Qed.

End Exchange.

Lemma clearAllBreakpoints_twice_throws_witness :
  let E := sample_env binds found in
  let url := "http://localhost/app.js" in
  let a := (setBreakpoints E (sample_args (Some url) None) 1 0
              (onScriptParsed E (mkScriptParsedEvent "42" url None)
                 (new_ChromeDebugAdapter 1000)).2).2 in
  _committedBreakpointsByUrl a !! url = Some (Some ["1:0"]) ∧
  clearAllBreakpoints E url (clearAllBreakpoints E url a).2
  = (Rejected TypeError, (clearAllBreakpoints E url a).2).
Proof.
  intros E url a.
  assert (Hcommitted : _committedBreakpointsByUrl a !! url = Some (Some ["1:0"]))
    by (vm_compute; reflexivity).
  split; [exact Hcommitted|].
  apply (clearAllBreakpoints_twice_throws E url ["1:0"] a Hcommitted).
  intros id _. reflexivity.
Defined.

Lemma exchange_clears_then_adds_witness :
  let E := sample_env binds found in
  let url := "http://localhost/app.js" in
  let a := (setBreakpoints E (sample_args (Some url) None) 1 0
              (onScriptParsed E (mkScriptParsedEvent "42" url None)
                 (new_ChromeDebugAdapter 1000)).2).2 in
  _committedBreakpointsByUrl a !! url ≠ Some None ∧
  ∃ body a',
    setBreakpointsExchange E url [mkSourceBreakpoint 12 None None] a = (Resolved body, a') ∧
    _chrome a'
    = (_chrome a ++ [Debugger_removeBreakpoint "1:0";
                     Debugger_setBreakpointByUrl url 12 0 None])%list.
Proof.
  intros E url a.
  assert (Hcommitted : _committedBreakpointsByUrl a !! url = Some (Some ["1:0"]))
    by (vm_compute; reflexivity).
  assert (Hscript : _scriptsByUrl a !! url = Some (mkScriptParsedEvent "42" url None))
    by (vm_compute; reflexivity).
  assert (Hmarker : _committedBreakpointsByUrl a !! url ≠ Some None)
    by (rewrite Hcommitted; discriminate).
  destruct (exchange_clears_then_adds E url (mkScriptParsedEvent "42" url None)
              [mkSourceBreakpoint 12 None None] a eq_refl Hscript) as [_ Hexchange].
  destruct (Hexchange Hmarker (λ _ _, eq_refl)) as (body & a' & Heq & _ & _ & Hchrome & _).
  rewrite Hcommitted in Hchrome.
  split; [exact Hmarker|]. exists body, a'. split; [exact Heq | exact Hchrome].
Defined.

Lemma setBreakpoints_stale_reference_witness :
  let E := sample_env binds found in
  let a := new_ChromeDebugAdapter 1000 in
  Handles_get (_sourceHandles a) 1000 = None ∧
  setBreakpoints E (sample_args None (Some 1000%nat)) 1 0 a = (Rejected TypeError, a).
Proof.
  intros E a. split; [reflexivity|].
  apply (setBreakpoints_stale_reference E (sample_args None (Some 1000%nat)) 1 0 999 a);
    reflexivity.
Defined.

Section RemoteObjects.
Context (E : Env).
Local Open Scope nat_scope.

(** X13: the count of properties asked from the target is answered
    exactly when the call succeeds without exception and returns a value
    whose length is 2: an array of two elements, whatever they are, or
    anything else of that length; the counts are its first two elements.
    An answer without exception whose value is missing or null is rejected
    with a TypeError, since its length is read; every other answer, and
    the failure of the call, is a rejection with the error 'error from
    evaluate'.  One Runtime.callFunctionOn is sent either way. *)
Theorem getNumPropsByEval_outcome (objectId : option string) (getNumPropsFn : string)
    (a : Adapter) :
  let r := getNumPropsByEval E objectId getNumPropsFn a in
  let answer := chrome_callFunctionOn E objectId getNumPropsFn in
  r.2 = issue (Runtime_callFunctionOn objectId getNumPropsFn) a ∧
  (∀ count, r.1 = Resolved count ↔
     ∃ resultProps,
       answer = Resolved (mkCallFunctionOnResponse None (Some resultProps)) ∧
       length_is resultProps 2 = true ∧
       count = mkIPropCount (Json_index resultProps 0) (Json_index resultProps 1)) ∧
  (r.1 = Rejected TypeError ↔
     answer = Resolved (mkCallFunctionOnResponse None None) ∨
     answer = Resolved (mkCallFunctionOnResponse None (Some JsonNull))) ∧
  (∀ e, r.1 = Rejected e → e = TypeError ∨ ∃ msg, e = Domain (errorFromEvaluate msg)).
Proof.
  unfold getNumPropsByEval. cbn [fst snd]. split; [done|].
  destruct (chrome_callFunctionOn E objectId getNumPropsFn) as [[details result]|error];
    cbn [exceptionDetails result_value].
  2:{ split; [|split].
      - intros count. split; [done|]. by intros (? & ? & _).
      - split; [done|]. by intros [?|?].
      - intros e [= <-]. right. by eexists. }
  destruct details as [errMsg|].
  { split; [|split].
    - intros count. split; [done|]. by intros (? & [= ?] & _).
    - split; [done|]. by intros [[= ?]|[= ?]].
    - intros e [= <-]. right. by eexists. }
  destruct result as [resultProps|].
  2:{ split; [|split].
      - intros count. split; [done|]. by intros (? & [= ?] & _).
      - split; [by left | done].
      - intros e [= <-]. by left. }
  assert (resultProps = JsonNull ∨ resultProps ≠ JsonNull) as [->|Hnull]
    by (destruct resultProps; (by left) || (by right)).
  { split; [|split].
    - intros count. split; [done|]. by intros (? & [= <-] & ? & _).
    - split; [by right | done].
    - intros e [= <-]. by left. }
  assert (∀ T (x y : T),
            match resultProps with JsonNull => x | _ => y end = y) as Hmatch
    by (intros T x y; by destruct resultProps).
  rewrite Hmatch. destruct (length_is resultProps 2) eqn:Hlength; cbn [negb].
  - split; [|split].
    + intros count. split.
      * intros [= <-]. by exists resultProps.
      * by intros (v & [= <-] & _ & ->).
    + split; [done|]. intros [[= ?]|[= ?]]. done.
    + done.
  - split; [|split].
    + intros count. split; [done|]. intros (v & [= <-] & Hv & _). congruence.
    + split; [done|]. intros [[= ?]|[= ?]]. done.
    + intros e [= <-]. right. by eexists.
Qed.

(** The number of names of a preview that are indexed. *)
Lemma getArrayNumPropsByPreview_sum (p : ObjectPreview) :
  ∃ indexed named,
    getArrayNumPropsByPreview E p
    = mkIPropCount (Some (JsonNumber (Z.of_nat indexed)))
        (Some (JsonNumber (Z.of_nat named))) ∧
    indexed = length (filter (λ prop, isIndexedPropName E (pp_name prop) = true) (properties p)) ∧
    indexed + named = length (properties p).
Proof.
  unfold getArrayNumPropsByPreview. do 2 eexists. split; [reflexivity|]. split; [done|].
  pose proof (length_filter (λ prop, isIndexedPropName E (pp_name prop) = true) (properties p)).
  lia.
Qed.

(** X14: an array or typed array whose preview is complete is counted
    from the preview, without asking the target: the indexed and named
    counts add up to the number of previewed properties, the indexed ones
    being those with an indexed name.  The variable has the description
    as value and as type, and a fresh handle on the property container of
    the object. *)
Theorem array_counted_from_preview (name : string) (object : RemoteObject) (p : ObjectPreview)
    (a : Adapter) :
  subtype object = Some "array" ∨ subtype object = Some "typedarray" →
  preview object = Some p → overflow p = false →
  let next := _nextHandle (_variableHandles a) in
  ∃ v a' indexed named,
    createObjectVariable E name object a = (Return (Resolved v), a') ∧
    var_name v = name ∧ var_value v = js_of_opt (description object) ∧
    variablesReference v = next ∧
    var_type v = Some (js_of_opt (description object)) ∧
    indexedVariables v = Some (JsonNumber (Z.of_nat indexed)) ∧
    namedVariables v = Some (JsonNumber (Z.of_nat named)) ∧
    indexed = length (filter (λ prop, isIndexedPropName E (pp_name prop) = true)
                        (properties p)) ∧
    indexed + named = length (properties p) ∧
    Handles_get (_variableHandles a') next = Some (PropertyContainer (objectId object)) ∧
    _chrome a' = _chrome a.
Proof.
  intros Hsubtype Hpreview Hcomplete next.
  destruct (getArrayNumPropsByPreview_sum p) as (indexed & named & Hcount & Hindexed & Hsum).
  unfold createObjectVariable, subtype_is. rewrite Hpreview, Hcomplete. simpl.
  assert (bool_decide (subtype object = Some "array")
          || bool_decide (subtype object = Some "typedarray") = true) as ->.
  { destruct Hsubtype as [-> | ->]; by vm_compute. }
  rewrite Hcount. simpl. unfold Handles_get. simpl.
  exists (mkVariable name (js_of_opt (description object)) next
            (Some (js_of_opt (description object)))
            (Some (JsonNumber (Z.of_nat indexed))) (Some (JsonNumber (Z.of_nat named)))).
  eexists. exists indexed, named. split; [reflexivity|]. simpl.
  repeat split; try done. apply lookup_insert_eq.
Qed.

(** X15: a remote object that is neither an object nor a function, and a
    missing one, becomes a variable without children: the reference is 0,
    the name is the one given, and the adapter is left as it was, no
    handle lent and nothing sent. *)
Theorem primitives_lend_no_handle (name : string) (object : option RemoteObject)
    (stringify : bool) (a : Adapter) :
  (∀ o, object = Some o → type o ≠ "object" ∧ type o ≠ "function") →
  ∃ v, remoteObjectToVariable E name object stringify a = (Return (Resolved v), a) ∧
       var_name v = name ∧ variablesReference v = 0 ∧
       var_type v = None ∧ indexedVariables v = None ∧ namedVariables v = None.
Proof.
  intros Hprimitive. unfold remoteObjectToVariable.
  destruct object as [o|]; [|by eexists].
  destruct (Hprimitive o eq_refl) as [Hobject Hfunction].
  destruct (String.eqb_spec (type o) "object") as [|_]; [done|].
  destruct (String.eqb_spec (type o) "undefined"); [by eexists|].
  destruct (String.eqb_spec (type o) "function") as [|_]; [done|].
  destruct (value o); try by eexists.
  all: destruct (String.eqb (type o) "number"); by eexists.
Qed.

End RemoteObjects.

Lemma array_counted_from_preview_witness :
  let E := sample_env binds found in
  let object := mkRemoteObject "object" (Some "array") JsUndefined (Some "Array(2)")
                  (Some "obj-2")
                  (Some (mkObjectPreview false [mkPropertyPreview "0" (Some "1");
                                                mkPropertyPreview "1" (Some "2")])) in
  ∃ v a', createObjectVariable E "xs" object (new_ChromeDebugAdapter 1000)
          = (Return (Resolved v), a') ∧ variablesReference v = 1000%nat.
Proof.
  intros E object.
  destruct (array_counted_from_preview E "xs" object
              (mkObjectPreview false [mkPropertyPreview "0" (Some "1");
                                      mkPropertyPreview "1" (Some "2")])
              (new_ChromeDebugAdapter 1000) (or_introl eq_refl) eq_refl eq_refl)
    as (v & a' & _ & _ & Heq & _ & _ & Href & _).
  exists v, a'. split; [exact Heq | exact Href].
Defined.

Lemma primitives_lend_no_handle_witness :
  let E := sample_env binds found in
  let object := mkRemoteObject "boolean" None (JsBool true) (Some "true") None None in
  ∃ v, remoteObjectToVariable E "flag" (Some object) true (new_ChromeDebugAdapter 1000)
       = (Return (Resolved v), new_ChromeDebugAdapter 1000) ∧ variablesReference v = 0%nat.
Proof.
  intros E object.
  destruct (primitives_lend_no_handle E "flag" (Some object) true (new_ChromeDebugAdapter 1000))
    as (v & Heq & _ & Href & _).
  { intros o [= <-]. split; discriminate. }
  exists v. split; [exact Heq | exact Href].
Defined.

Section ObjectVariables.
Context (E : Env).
Local Open Scope nat_scope.

Lemma getNumPropsByEval_handles (objectId : option string) (fn : string) (a : Adapter) :
  _variableHandles (getNumPropsByEval E objectId fn a).2 = _variableHandles a.
Proof. reflexivity. Qed.

(** What [createObjectVariable] does to the registry of variable handles:
    it throws on an error object without description, before any handle
    is lent; otherwise one handle is lent on the property container of
    the object, whether the count of properties is known or not. *)
Lemma createObjectVariable_handles (name : string) (object : RemoteObject) (a : Adapter) :
  let r := createObjectVariable E name object a in
  match r.1 with
  | Throw e => e = TypeError ∧ description object = None ∧ r.2 = a
  | Return p =>
      _variableHandles r.2
      = (Handles_create (PropertyContainer (objectId object)) (_variableHandles a)).2 ∧
      ∀ v, p = Resolved v →
        var_name v = name ∧ variablesReference v = _nextHandle (_variableHandles a) ∧
        var_type v = Some (var_value v)
  end.
Proof.
  unfold createObjectVariable, getArrayNumPropsByEval, getCollectionNumPropsByEval,
    getNumPropsByEval, Handles_create.
  repeat case_match; simplify_eq/=; try done;
    (split; [reflexivity|]; intros v ?; by simplify_eq/=).
Qed.

Lemma remoteObjectToVariable_handles (name : string) (object : RemoteObject)
    (stringify : bool) (a : Adapter) :
  (type object = "object" ∧ subtype object ≠ Some "null" ∧
   subtype object ≠ Some "internal#location") ∨ type object = "function" →
  let next := _nextHandle (_variableHandles a) in
  let r := remoteObjectToVariable E name (Some object) stringify a in
  match r.1 with
  | Throw e => e = TypeError ∧ description object = None ∧ r.2 = a
  | Return p =>
      Handles_get (_variableHandles r.2) next = Some (PropertyContainer (objectId object)) ∧
      _nextHandle (_variableHandles r.2) = S next ∧
      (∀ k, k ≠ next →
         Handles_get (_variableHandles r.2) k = Handles_get (_variableHandles a) k) ∧
      ∀ v, p = Resolved v →
        var_name v = name ∧ variablesReference v = next ∧ var_type v = Some (var_value v)
  end.
Proof.
  intros Hkind next r. subst r. unfold remoteObjectToVariable.
  destruct Hkind as [(Htype & Hnull & Hlocation) | Htype]; rewrite Htype; simpl.
  - assert (subtype_is object "internal#location" = false) as ->
      by (by apply bool_decide_eq_false_2).
    assert (subtype_is object "null" = false) as -> by (by apply bool_decide_eq_false_2).
    pose proof (createObjectVariable_handles name object a) as H. cbv zeta in H.
    destruct (createObjectVariable E name object a) as [[p|e] a1]; cbn [fst snd] in *;
      [|done].
    destruct H as [-> Hv]. unfold Handles_get. simpl.
    split; [apply lookup_insert_eq|]. split; [done|]. split; [|exact Hv].
    intros k Hk. by apply lookup_insert_ne.
  - unfold createFunctionVariable.
    destruct (description object) as [d|]; simpl; [|done].
    unfold Handles_get. simpl.
    split; [apply lookup_insert_eq|]. split; [done|]. split; [|by intros v [= <-]].
    intros k Hk. by apply lookup_insert_ne.
Qed.

(** X16: a remote object of type object (other than null and an internal
    location) or function either makes [remoteObjectToVariable] throw a
    TypeError, which happens only when it has no description and then
    leaves the adapter as it was, or has one variable handle lent: the
    next free one, which resolves to the property container of the
    object, every other handle resolving as before.  The variable, when
    the promise resolves, carries the name given and that handle, and its
    type is its value.  The handle is lent also when the promise
    rejects. *)
Theorem object_variable_lends_container (name : string) (object : RemoteObject)
    (stringify : bool) (a : Adapter) :
  (type object = "object" ∧ subtype object ≠ Some "null" ∧
   subtype object ≠ Some "internal#location") ∨ type object = "function" →
  let next := _nextHandle (_variableHandles a) in
  let r := remoteObjectToVariable E name (Some object) stringify a in
  match r.1 with
  | Throw e => e = TypeError ∧ description object = None ∧ r.2 = a
  | Return p =>
      Handles_get (_variableHandles r.2) next = Some (PropertyContainer (objectId object)) ∧
      _nextHandle (_variableHandles r.2) = S next ∧
      (∀ k, k ≠ next →
         Handles_get (_variableHandles r.2) k = Handles_get (_variableHandles a) k) ∧
      ∀ v, p = Resolved v →
        var_name v = name ∧ variablesReference v = next ∧ var_type v = Some (var_value v)
  end.
Proof. apply remoteObjectToVariable_handles. Qed.

End ObjectVariables.

Lemma object_variable_lends_container_witness :
  let E := sample_env binds found in
  let a := new_ChromeDebugAdapter 1000 in
  Handles_get (_variableHandles (remoteObjectToVariable E "o" (Some sample_object) true a).2)
    1000%nat
  = Some (PropertyContainer (Some "obj-1")).
Proof.
  intros E a.
  assert (Hkind : (type sample_object = "object" ∧ subtype sample_object ≠ Some "null" ∧
                   subtype sample_object ≠ Some "internal#location") ∨
                  type sample_object = "function")
    by (left; repeat split; discriminate).
  pose proof (object_variable_lends_container E "o" sample_object true a Hkind) as H.
  cbv zeta in H.
  destruct (remoteObjectToVariable E "o" (Some sample_object) true a) as [[p|e] a1];
    cbn [fst snd] in *.
  - exact (proj1 H).
  - destruct H as (_ & Hdescription & _). discriminate Hdescription.
Defined.

Section Invariants.
Context (E : Env).
Local Open Scope nat_scope.

(** ** What each event of a session may change *)

Lemma onDebuggerPaused_keeps (notification : PausedEvent) (a : Adapter) :
  let a' := (onDebuggerPaused E notification a).2 in
  _scriptsById a' = _scriptsById a ∧ _scriptsByUrl a' = _scriptsByUrl a ∧
  _breakpointIdHandles a' = _breakpointIdHandles a ∧
  _nextUnboundBreakpointId a' = _nextUnboundBreakpointId a ∧
  _session a' = _session a.
Proof.
  unfold onDebuggerPaused, setOverlay.
  destruct (String.eqb (reason notification) "exception"); [done|].
  destruct (hasHitBreakpoints notification); [done|].
  simpl. destruct (truthy_opt (_expectingStopReason a)); [|done].
  destruct (_smartStep a); [|done].
  unfold shouldSmartStep. simpl. destruct (_sourceMaps a); simpl; [|done].
  destruct (list.head (callFrames notification)) as [frame|]; [|done].
  match goal with
  | |- context [callFrameToStackFrame E frame ?a1] =>
      pose proof (callFrameToStackFrame_besides E frame a1) as H;
      destruct (callFrameToStackFrame E frame a1) as [sf a2]
  end.
  unfold besides_registries in H. simpl in *. repeat split; congruence.
Qed.

Lemma handle_paused_keeps (notification : PausedEvent) (a : Adapter) :
  let a' := handle_paused E notification a in
  _scriptsById a' = _scriptsById a ∧ _scriptsByUrl a' = _scriptsByUrl a ∧
  _breakpointIdHandles a' = _breakpointIdHandles a ∧
  _nextUnboundBreakpointId a' = _nextUnboundBreakpointId a ∧
  (_session a' = _session a ∨
   ∃ r, _session a' = (_session a ++ [StoppedEvent r THREAD_ID])%list).
Proof.
  pose proof (onDebuggerPaused_keeps notification a) as H. cbv zeta in *.
  unfold handle_paused.
  destruct (onDebuggerPaused E notification a) as [[[chosen [should|e]]|e] a1];
    cbn [fst snd] in *; destruct H as (Hid & Hurl & Hbh & Hunbound & Hsession);
    [|by auto 10..].
  unfold onDebuggerPaused_then. destruct should; simpl; [by auto 10|].
  destruct (0 <? _smartStepCount a1); simpl; rewrite Hsession; eauto 10.
Qed.

(** Of the events of a session, the indexes of scripts change at a parsed
    script and at a navigation only; the registry and the counter of
    breakpoint ids at setBreakpoints and at the answers to its exchange
    only (the callback of a parsed script is a setBreakpoints call of its
    own); the stopped and continued events
    are sent at the paused and resumed notifications only, at most one. *)
Lemma handle_keeps (ev : Event) (a : Adapter) :
  let a' := handle E a ev in
  match ev with
  | Debugger_scriptParsed _ | Debugger_globalObjectCleared => True
  | _ => _scriptsById a' = _scriptsById a ∧ _scriptsByUrl a' = _scriptsByUrl a
  end ∧
  match ev with
  | Request_setBreakpoints _ _ _ | Exchange_continues _ => True
  | _ => _breakpointIdHandles a' = _breakpointIdHandles a ∧
         _nextUnboundBreakpointId a' = _nextUnboundBreakpointId a
  end ∧
  match ev with
  | Debugger_paused _ =>
      _session a' = _session a ∨
      ∃ r, _session a' = (_session a ++ [StoppedEvent r THREAD_ID])%list
  | Debugger_resumed =>
      _session a' = _session a ∨
      _session a' = (_session a ++ [ContinuedEvent THREAD_ID])%list
  | _ => _session a' = _session a
  end.
Proof.
  destruct ev as [sourceMaps smartStep|notification| |script| | | | | | |levels|frameId
                  |reference filter start count|reference name value
                  |args requestSeq elapsed|i]; cbn [handle]; cbv zeta; try done.
  - pose proof (handle_paused_keeps notification a) as H. cbv zeta in H. naive_solver.
  - unfold onDebuggerResumed, setOverlay. simpl.
    destruct (_expectingResumedEvent a); simpl; auto.
  - unfold onScriptParsed. destruct (shouldIgnoreScript script); done.
  - pose proof (stackTrace_besides E levels a) as H. unfold besides_registries in H.
    repeat split; congruence.
  - pose proof (scopes_besides E frameId a) as H. unfold besides_registries in H.
    repeat split; congruence.
  - pose proof (variables_besides E reference filter start count a) as H.
    unfold besides_registries in H. repeat split; congruence.
  - by rewrite setVariable_unchanged.
  - pose proof (setBreakpoints_besides E args requestSeq elapsed a) as H.
    unfold besides_breakpoints in H. repeat split; congruence.
  - pose proof (continueExchange_besides E i a) as H.
    unfold besides_breakpoints in H. repeat split; congruence.
Qed.

(** ** The events sent to the client *)

Lemma stops_app (s t : list SessionEvent) : stops (s ++ t) = stops s + stops t.
Proof. unfold stops. by rewrite List.filter_app, length_app. Qed.

Lemma continues_app (s t : list SessionEvent) :
  continues (s ++ t) = continues s + continues t.
Proof. unfold continues. by rewrite List.filter_app, length_app. Qed.

Lemma fold_session (trace : list Event) (a : Adapter) :
  ∃ sent, _session (fold_left (handle E) trace a) = (_session a ++ sent)%list ∧
          (∀ e, e ∈ sent → (∃ r, e = StoppedEvent r THREAD_ID) ∨ e = ContinuedEvent THREAD_ID) ∧
          stops sent ≤ pauses trace ∧ continues sent ≤ resumes trace.
Proof.
  revert a. induction trace as [|ev rest IH]; intros a.
  { exists []. rewrite app_nil_r. repeat split; [|done..]. by intros e ?%elem_of_nil. }
  destruct (IH (handle E a ev)) as (sent & Heq & Hkind & Hstops & Hcontinues).
  cbn [fold_left]. rewrite Heq.
  destruct (handle_keeps ev a) as (_ & _ & Hev). cbv zeta in Hev.
  assert (∃ first, _session (handle E a ev) = (_session a ++ first)%list ∧
            (∀ e, e ∈ first →
               (∃ r, e = StoppedEvent r THREAD_ID) ∨ e = ContinuedEvent THREAD_ID) ∧
            stops first + pauses rest ≤ pauses (ev :: rest) ∧
            continues first + resumes rest ≤ resumes (ev :: rest))
    as (first & -> & Hfirst & Hp & Hr).
  { assert (∀ e : SessionEvent, e ∈ [] →
              (∃ r, e = StoppedEvent r THREAD_ID) ∨ e = ContinuedEvent THREAD_ID)
      as Hnone by (by intros e ?%elem_of_nil).
    destruct ev;
      try (exists []; rewrite app_nil_r; repeat split; [done..| |];
           unfold stops, continues, pauses, resumes; simpl; lia).
    - destruct Hev as [Hev | [r Hev]].
      + exists []. rewrite app_nil_r. repeat split; [done..| |];
          unfold stops, continues, pauses, resumes; simpl; lia.
      + exists [StoppedEvent r THREAD_ID].
        split; [done|]. split; [intros e ->%list_elem_of_singleton; eauto|].
        split; unfold stops, continues, pauses, resumes; simpl; lia.
    - destruct Hev as [Hev | Hev].
      + exists []. rewrite app_nil_r. repeat split; [done..| |];
          unfold stops, continues, pauses, resumes; simpl; lia.
      + exists [ContinuedEvent THREAD_ID].
        split; [done|]. split; [intros e ->%list_elem_of_singleton; eauto|].
        split; unfold stops, continues, pauses, resumes; simpl; lia. }
  exists (first ++ sent)%list. rewrite <- app_assoc. split; [done|].
  rewrite stops_app, continues_app. split; [|lia].
  intros e [?|?]%elem_of_app; auto.
Qed.

(** X17: in every session the adapter reports at most one stop per
    paused notification of the target and at most one resume per resumed
    notification, each for thread 1: no request, parsed script or
    navigation makes it send a stopped or a continued event on its own. *)
Theorem session_reports (start : nat) (trace : list Event) :
  let sent := _session (run E start trace) in
  (∀ r t, StoppedEvent r t ∈ sent → t = THREAD_ID) ∧
  (∀ t, ContinuedEvent t ∈ sent → t = THREAD_ID) ∧
  stops sent ≤ pauses trace ∧ continues sent ≤ resumes trace.
Proof.
  unfold run. destruct (fold_session trace (new_ChromeDebugAdapter start))
    as (sent & -> & Hkind & Hcount).
  change (_session (new_ChromeDebugAdapter start)) with (@nil SessionEvent).
  cbn [app]. split; [|split; [|exact Hcount]].
  - intros r t [[r' He] | He]%Hkind; congruence.
  - intros t [[r' He] | He]%Hkind; congruence.
Qed.

(** ** The two indexes of scripts *)

Lemma onScriptParsed_indexed (script : ScriptParsedEvent) (a : Adapter) :
  indexed a → indexed (onScriptParsed E script a).2.
Proof.
  intros [Hid Hurl]. unfold onScriptParsed.
  destruct (shouldIgnoreScript script); [done|]. cbn [snd].
  set (filed := mkScriptParsedEvent _ _ _).
  split; simpl.
  - intros id s [[<- <-] | [Hne Hs]]%lookup_insert_Some.
    + split; [done|]. rewrite lookup_insert_eq. by eexists.
    + destruct (Hid id s Hs) as [Hkey Hother]. split; [done|].
      by apply lookup_insert_is_Some'; right.
  - intros u s [[<- <-] | [Hne Hs]]%lookup_insert_Some.
    + split; [done|]. rewrite lookup_insert_eq. by eexists.
    + destruct (Hurl u s Hs) as [Hkey Hother]. split; [done|].
      by apply lookup_insert_is_Some'; right.
Qed.

Lemma handle_indexed (ev : Event) (a : Adapter) : indexed a → indexed (handle E a ev).
Proof.
  intros Hindexed.
  destruct (handle_keeps ev a) as (Hscripts & _ & _). cbv zeta in Hscripts.
  destruct ev;
    try (unfold indexed; rewrite (proj1 Hscripts), (proj2 Hscripts); exact Hindexed).
  - by apply onScriptParsed_indexed.
  - split; simpl; intros k s Hs; by rewrite lookup_empty in Hs.
Qed.

(** X18: in every session the two indexes of parsed scripts agree: a
    script found under a script id has that id, a script found under a
    URL has that URL, and a script filed in one index has an entry for its
    key in the other. *)
Theorem scripts_indexed (start : nat) (trace : list Event) :
  indexed (run E start trace).
Proof.
  unfold run.
  assert (indexed (new_ChromeDebugAdapter start)) as Hinit.
  { split; simpl; intros k s Hs; by rewrite lookup_empty in Hs. }
  revert Hinit. generalize (new_ChromeDebugAdapter start).
  induction trace as [|ev rest IH]; intros a Hindexed; [done|].
  simpl. apply IH. by apply handle_indexed.
Qed.

(** ** The registry of breakpoint ids *)

Lemma grows_refl (a : Adapter) : grows a a.
Proof. by split. Qed.

Lemma grows_trans (a b c : Adapter) : grows a b → grows b c → grows a c.
Proof. intros [H1 H2] [H3 H4]. split; [naive_solver | lia]. Qed.

Lemma grows_same (a a' : Adapter) :
  _breakpointIdHandles a' = _breakpointIdHandles a →
  _nextUnboundBreakpointId a' = _nextUnboundBreakpointId a → grows a a'.
Proof. intros Hbh Hunbound. split; [by rewrite Hbh | by rewrite Hunbound]. Qed.

Lemma ReverseHandles_create_keeps (v : option string) (r : ReverseHandles) (id : nat)
    (w : option string) :
  Handles_wf (rh_handles r) → ReverseHandles_get r id = Some w →
  ReverseHandles_get (ReverseHandles_create v r).2 id = Some w.
Proof.
  intros [_ Hwf] Hget. unfold ReverseHandles_get, ReverseHandles_create, Handles_get in *.
  simpl. rewrite lookup_insert_ne; [done|].
  intros <-. specialize (Hwf (_nextHandle (rh_handles r))). rewrite Hget in Hwf.
  specialize (Hwf ltac:(by eexists)). lia.
Qed.

Lemma unverifiedBreakpoints_grows bps message a :
  ready a → grows a (unverifiedBreakpoints bps message a).2.
Proof.
  revert a. induction bps as [|bp rest IH]; intros a Hready; [apply grows_refl|].
  cbn [unverifiedBreakpoints].
  pose proof (ReverseHandles_create_wf (Some (pretty (_nextUnboundBreakpointId a)))
                (_breakpointIdHandles a) (proj2 Hready)) as Hwf.
  pose proof (λ id w, ReverseHandles_create_keeps
                (Some (pretty (_nextUnboundBreakpointId a)))
                (_breakpointIdHandles a) id w (proj2 Hready)) as Hkeeps.
  destruct (ReverseHandles_create _ _) as [id bh].
  match goal with
  | |- context [unverifiedBreakpoints rest message ?a1] =>
      assert (ready a1) as H by (split; [apply Hready | exact Hwf]);
      assert (grows a a1) as Hstep by (split; [exact Hkeeps | simpl; lia]);
      specialize (IH a1 H); destruct (unverifiedBreakpoints rest message a1)
  end.
  simpl in *. by eapply grows_trans.
Qed.

Lemma unverifiedBpResponse_grows args message a :
  ready a → grows a (unverifiedBpResponse args message a).2.
Proof.
  intros Hready. unfold unverifiedBpResponse.
  pose proof (unverifiedBreakpoints_grows (breakpoints args) message a Hready) as H.
  destruct (unverifiedBreakpoints (breakpoints args) message a) as [bps a1].
  simpl in *. destruct (src_path (source args)) as [path|]; [destruct (truthy path)|]; done.
Qed.

Lemma responsesToODPBreakpoints_grows responses a :
  ready a → grows a (responsesToODPBreakpoints responses a).2.
Proof.
  revert a. induction responses as [|response rest IH]; intros a Hready;
    [apply grows_refl|].
  cbn [responsesToODPBreakpoints].
  assert (ready (responseToODPBreakpoint response a).2 ∧
          grows a (responseToODPBreakpoint response a).2) as [H Hstep].
  { unfold responseToODPBreakpoint. destruct response as [response|];
      [|split; [done|apply grows_refl]].
    pose proof (ReverseHandles_create_wf (breakpointId response)
                  (_breakpointIdHandles a) (proj2 Hready)) as Hwf.
    pose proof (λ id w, ReverseHandles_create_keeps (breakpointId response)
                  (_breakpointIdHandles a) id w (proj2 Hready)) as Hkeeps.
    destruct (ReverseHandles_create _ _).
    destruct (actualLocation response); (split; [split; [apply Hready | exact Hwf]|]);
      (split; [exact Hkeeps | simpl; lia]). }
  destruct (responseToODPBreakpoint response a) as [bp a1].
  specialize (IH a1 H). destruct (responsesToODPBreakpoints rest a1).
  simpl in *. by eapply grows_trans.
Qed.

Lemma removeBreakpoints_registry ids a :
  _breakpointIdHandles (removeBreakpoints E ids a).2 = _breakpointIdHandles a ∧
  _nextUnboundBreakpointId (removeBreakpoints E ids a).2 = _nextUnboundBreakpointId a.
Proof.
  revert a. induction ids as [|id rest IH]; intros a; [done|].
  cbn [removeBreakpoints]. unfold mbind, M_bind, bind.
  destruct (chrome_command E (Debugger_removeBreakpoint id)); [|done].
  apply (IH (issue (Debugger_removeBreakpoint id) a)).
Qed.

Lemma setBreakpointsExchange_grows url bps a :
  ready a → grows a (setBreakpointsExchange E url bps a).2.
Proof.
  intros Hready. unfold setBreakpointsExchange, mbind, M_bind, bind.
  assert (ready (clearAllBreakpoints E url a).2 ∧
          _breakpointIdHandles (clearAllBreakpoints E url a).2 = _breakpointIdHandles a ∧
          _nextUnboundBreakpointId (clearAllBreakpoints E url a).2
          = _nextUnboundBreakpointId a) as (Hclear & Hbh & Hunbound).
  { unfold clearAllBreakpoints.
    destruct (_committedBreakpointsByUrl a !! url) as [[ids|]|]; try done.
    unfold mbind, M_bind, bind, lift_state.
    pose proof (removeBreakpoints_ready E ids a Hready) as H.
    pose proof (removeBreakpoints_registry ids a) as H'.
    by destruct (removeBreakpoints E ids a) as [[[]|e] a1]. }
  destruct (clearAllBreakpoints E url a) as [[[]|e] a1]; [|by apply grows_same].
  assert (ready (addBreakpoints E url bps a1).2 ∧
          _breakpointIdHandles (addBreakpoints E url bps a1).2 = _breakpointIdHandles a ∧
          _nextUnboundBreakpointId (addBreakpoints E url bps a1).2
          = _nextUnboundBreakpointId a) as (Hadd & Hbh' & Hunbound').
  { unfold addBreakpoints. by destruct (startsWith url PLACEHOLDER_URL_PROTOCOL). }
  destruct (addBreakpoints E url bps a1) as [[responses|e] a2]; [|by apply grows_same].
  simpl in *. unfold chromeBreakpointResponsesToODPBreakpoints.
  destruct (committedBpIds (Some <$> responses)); [|by apply grows_same].
  match goal with
  | |- context [responsesToODPBreakpoints ?rs ?a3] =>
      pose proof (responsesToODPBreakpoints_grows rs a3 Hadd) as H;
      destruct (responsesToODPBreakpoints rs a3)
  end.
  simpl in *. eapply grows_trans; [|exact H]. by apply grows_same.
Qed.

Lemma exchange_late_grows url bps a :
  ready a →
  grows a (match exchange_start E url bps a with
           | (Settled outcome, a1) => (Some outcome, a1)
           | (Waiting stage, a1) =>
               (None, set_inFlight (inFlight a1 ++ [mkExchange url bps stage]) a1)
           end).2.
Proof.
  intros Hready.
  apply (exchange_late_moves E (λ a a', ready a → ready a' ∧ grows a a')); try done.
  - intros ? ? ? H1 H2 H. destruct (H1 H) as [H3 H4]. destruct (H2 H3) as [H5 H6].
    split; [done|]. by eapply grows_trans.
  - intros ? ? H. split; [by apply responsesToODPBreakpoints_ready|].
    by apply responsesToODPBreakpoints_grows.
Qed.

Lemma continueExchange_grows i a : ready a → grows a (continueExchange E i a).
Proof.
  intros Hready.
  apply (continueExchange_moves E (λ a a', ready a → ready a' ∧ grows a a')); try done.
  - intros ? ? ? H1 H2 H. destruct (H1 H) as [H3 H4]. destruct (H2 H3) as [H5 H6].
    split; [done|]. by eapply grows_trans.
  - intros ? ? H. split; [by apply responsesToODPBreakpoints_ready|].
    by apply responsesToODPBreakpoints_grows.
Qed.

Lemma setBreakpoints_grows args requestSeq elapsed a :
  ready a → grows a (setBreakpoints E args requestSeq elapsed a).2.
Proof.
  intros Hready. unfold setBreakpoints.
  destruct (validateBreakpointsPath E args) as [[]|e].
  2:{ pose proof (unverifiedBpResponse_grows args (message_of E e) a Hready) as H.
      by destruct (unverifiedBpResponse args (message_of E e) a). }
  destruct (targetScriptUrl _ a) as [target|e]; [|apply grows_refl].
  destruct (truthy_opt target).
  - rewrite (proj1 Hready). destruct (SET_BREAKPOINTS_TIMEOUT <? elapsed)%nat.
    + match goal with
      | |- context [exchange_start E ?u ?b a] =>
          pose proof (exchange_late_grows u b a Hready) as H;
          by destruct (exchange_start E u b a) as [[stage|outcome] a1]
      end.
    + match goal with
      | |- context [setBreakpointsExchange E ?u ?b a] =>
          pose proof (setBreakpointsExchange_grows u b a Hready) as H;
          destruct (setBreakpointsExchange E u b a) as [p a1]
      end.
      simpl in *. exact H.
  - match goal with
    | |- context [unverifiedBpResponse ?x ?m a] =>
        pose proof (unverifiedBpResponse_grows x m a Hready) as H;
        by destruct (unverifiedBpResponse x m a)
    end.
Qed.

Lemma handle_grows (ev : Event) (a : Adapter) : ready a → grows a (handle E a ev).
Proof.
  intros Hready. destruct (handle_keeps ev a) as (_ & Hregistry & _).
  cbv zeta in Hregistry.
  destruct ev; try (destruct Hregistry; by apply grows_same).
  - by apply setBreakpoints_grows.
  - by apply continueExchange_grows.
Qed.

Lemma fold_grows (trace : list Event) (a : Adapter) :
  ready a → grows a (fold_left (handle E) trace a).
Proof.
  revert a. induction trace as [|ev rest IH]; intros a Hready; [apply grows_refl|].
  simpl. eapply grows_trans; [by apply handle_grows|].
  apply IH. by apply handle_ready.
Qed.

(** X19: breakpoint ids are lent for good.  Whatever follows in a
    session, a handle that the registry of breakpoint ids resolves keeps
    resolving to the same breakpoint id, also across navigations, which
    clear the committed breakpoints but not the registry; and the counter
    behind the ids of unbound breakpoints never goes back. *)
Theorem breakpoint_ids_for_good (start : nat) (trace more : list Event) :
  grows (run E start trace) (run E start (trace ++ more)).
Proof.
  unfold run. rewrite fold_left_app. apply fold_grows.
  assert (ready (new_ChromeDebugAdapter start)) as Hinit.
  { split; [done|]. apply Handles_new_wf. }
  revert Hinit. generalize (new_ChromeDebugAdapter start).
  induction trace as [|ev rest IH]; intros a Hready; [done|].
  simpl. apply IH. by apply handle_ready.
Qed.

End Invariants.

Section Untouched.
Context (E : Env).

(** X20: what the requests leave alone, whether they return, throw or
    reject.  stackTrace and scopes change nothing in the adapter but the
    registries of frame, variable and source handles: they send nothing to
    the target or to the client and leave the stack, the exception, the
    scripts and the breakpoints as they are.  setBreakpoints touches only
    the book-keeping of breakpoints and what was sent to the target: it
    sends no event to the client and leaves the stack, the handles of
    frames, variables and sources, the scripts and the stepping state as
    they are. *)
Theorem requests_footprints (levels : option nat) (frameId : nat)
    (args : ISetBreakpointsArgs) (requestSeq elapsed : nat) (a : Adapter) :
  besides_registries (stackTrace E levels a).2 = besides_registries a ∧
  besides_registries (scopes E frameId a).2 = besides_registries a ∧
  besides_breakpoints (setBreakpoints E args requestSeq elapsed a).2 = besides_breakpoints a.
Proof.
  split; [apply stackTrace_besides|]. split; [apply scopes_besides|].
  apply setBreakpoints_besides.
Qed.

End Untouched.

Section Completions.
Context (E : Env).

Lemma fold_left_concat {A B} (f : A → B → A) (ls : list (list B)) (x : A) :
  fold_left (λ state l, fold_left f l state) ls x = fold_left f (concat ls) x.
Proof.
  revert x. induction ls as [|l ls IH]; intros x; [done|].
  simpl. by rewrite fold_left_app, IH.
Qed.

Lemma sublist_full {A} (l k : list A) :
  l `sublist_of` k → (length k ≤ length l)%nat → l = k.
Proof.
  induction 1 as [|x l k Hsub IH|x l k Hsub IH]; intros Hlength; [done| |].
  - f_equal. apply IH. simpl in Hlength. lia.
  - apply sublist_length in Hsub. simpl in Hlength. lia.
Qed.

(** What the loop has gathered after the names [processed]. *)
Lemma addCompletionItem_gathers (names processed : list string)
    (state : gset string * list CompletionItem) :
  let wanted := filter (λ name, isIndexedPropName E name = false) in
  let gathered (state : gset string * list CompletionItem) (processed : list string) :=
    (∀ name, name ∈ state.1 ↔ name ∈ label <$> state.2) ∧
    NoDup (label <$> state.2) ∧
    (∀ name, name ∈ label <$> state.2 ↔ name ∈ wanted processed) ∧
    label <$> state.2 `sublist_of` wanted processed ∧
    Forall (λ item, ci_type item = "property") state.2 in
  gathered state processed →
  gathered (fold_left (addCompletionItem E) names state) (processed ++ names)%list.
Proof.
  intros wanted gathered. revert state processed.
  induction names as [|name rest IH]; intros [seen items] processed Hstate.
  { by rewrite app_nil_r. }
  cbn [fold_left].
  replace (processed ++ name :: rest)%list with ((processed ++ [name]) ++ rest)%list
    by (by rewrite <- app_assoc).
  apply IH. clear IH. destruct Hstate as (Hseen & Hnodup & Hin & Hsub & Hkind).
  subst wanted gathered. cbn [fst snd] in *.
  unfold addCompletionItem.
  destruct (isIndexedPropName E name) eqn:Hindexed; cbn [negb andb].
  { cbn [fst snd]. rewrite list.filter_app, filter_cons_False, filter_nil, app_nil_r
      by (by rewrite Hindexed). done. }
  rewrite list.filter_app, filter_cons_True, filter_nil by done.
  destruct (bool_decide_reflect (name ∈ seen)) as [Hold | Hnew]; cbn [negb fst snd].
  - split; [exact Hseen|]. split; [exact Hnodup|]. split; [|split; [|exact Hkind]].
    + intros n. rewrite elem_of_app, list_elem_of_singleton, <- Hin.
      split; [by left|]. intros [Hn | ->]; [done | by apply Hseen].
    + by apply sublist_inserts_r.
  - rewrite fmap_app. cbn [fmap list_fmap label].
    assert (name ∉ label <$> items) as Hfresh by (by rewrite <- Hseen).
    split; [|split; [|split; [|split]]].
    + intros n. rewrite elem_of_union, elem_of_singleton, elem_of_app,
        list_elem_of_singleton, Hseen. tauto.
    + apply list.NoDup_app. split; [done|]. split; [|apply NoDup_singleton].
      intros x Hx ->%list_elem_of_singleton. done.
    + intros n. rewrite !elem_of_app, Hin. done.
    + by apply sublist_app.
    + apply Forall_app. split; [done|]. by apply Forall_singleton.
Qed.

Lemma firstOccurrences_filter (Q : string → Prop) `{!∀ name, Decision (Q name)}
    (names : list string) :
  filter Q (firstOccurrences names) = firstOccurrences (filter Q names).
Proof.
  induction names as [|name rest IH]; [done|]. cbn [firstOccurrences].
  destruct (decide (Q name)) as [Hname | Hname].
  - rewrite !filter_cons_True by done. cbn [firstOccurrences]. f_equal.
    rewrite <- IH, !list_filter_filter. apply list_filter_iff. tauto.
  - rewrite !filter_cons_False by done. rewrite <- IH.
    apply list_filter_filter_l. by intros other Hother ->.
Qed.

(** The items that the loop appends are the first occurrences of the
    names it has not seen. *)
Lemma addCompletionItem_appends (names : list string) (seen : gset string)
    (items : list CompletionItem) :
  (fold_left (addCompletionItem E) names (seen, items)).2
  = (items ++ ((λ name, mkCompletionItem name "property")
                 <$> firstOccurrences
                       (filter (λ name, name ∉ seen)
                          (filter (λ name, isIndexedPropName E name = false) names))))%list.
Proof.
  revert seen items. induction names as [|name rest IH]; intros seen items.
  { simpl. by rewrite app_nil_r. }
  cbn [fold_left]. unfold addCompletionItem at 2.
  destruct (isIndexedPropName E name) eqn:Hindexed; cbn [negb andb].
  { rewrite IH. by rewrite (filter_cons_False _ name) by (by rewrite Hindexed). }
  rewrite (filter_cons_True (λ name, isIndexedPropName E name = false) name) by done.
  destruct (bool_decide_reflect (name ∈ seen)) as [Hold | Hnew]; cbn [negb].
  { rewrite IH. by rewrite (filter_cons_False (λ name, name ∉ seen)) by tauto. }
  rewrite IH, <- app_assoc. f_equal.
  rewrite (filter_cons_True (λ name, name ∉ seen)) by done.
  cbn [firstOccurrences fmap list_fmap app]. do 2 f_equal.
  rewrite firstOccurrences_filter, (list_filter_filter (λ other, other ≠ name)). f_equal.
  apply list_filter_iff.
  intros other. rewrite not_elem_of_union, not_elem_of_singleton. tauto.
Qed.

(** X21: the completion items are the names of the arrays, flattened in
    order, without the indexed names and without repetition: every name
    that is not indexed appears exactly once, at the place of its first
    occurrence, and every item is a property. *)
Theorem completion_items_flat_and_unique (arrays : list (list string)) :
  let items := getFlatAndUniqueCompletionItems E arrays in
  let wanted := filter (λ name, isIndexedPropName E name = false) (concat arrays) in
  NoDup (label <$> items) ∧
  (∀ name, name ∈ label <$> items ↔ name ∈ wanted) ∧
  label <$> items `sublist_of` wanted ∧
  (NoDup wanted → label <$> items = wanted) ∧
  (∀ item, item ∈ items → ci_type item = "property") ∧
  items = (λ name, mkCompletionItem name "property") <$> firstOccurrences wanted.
Proof.
  intros items wanted.
  assert (items = (λ name, mkCompletionItem name "property") <$> firstOccurrences wanted)
    as Hitems.
  { subst items wanted. unfold getFlatAndUniqueCompletionItems.
    rewrite fold_left_concat, addCompletionItem_appends. cbn [app]. do 2 f_equal.
    apply list_filter_filter_r. intros name _. apply not_elem_of_empty. }
  split; [|split; [|split; [|split; [|split; [|exact Hitems]]]]]; clear Hitems;
    revert items wanted; cbv zeta.
  all: unfold getFlatAndUniqueCompletionItems.
  all: rewrite fold_left_concat.
  all: pose proof (addCompletionItem_gathers (concat arrays) [] (∅, [])) as H.
  all: cbv zeta in H; cbn [app] in H.
  all: destruct H as (_ & Hnodup & Hin & Hsub & Hkind);
    [ cbn [fst snd fmap list_fmap filter list_filter];
      split; [intros name; by rewrite elem_of_empty, elem_of_nil|];
      split; [constructor|]; split; [done|]; split; [done | constructor] |].
  all: cbn [fst snd] in *.
  - exact Hnodup.
  - exact Hin.
  - exact Hsub.
  - intros Hwanted. apply sublist_full; [done|].
    apply submseteq_length, NoDup_submseteq; [done|]. intros name. apply Hin.
  - by apply list.Forall_forall.
Qed.

End Completions.

Section Resolved.
Context (E : Env) (H : Hooks).
Local Open Scope nat_scope.

(** X22: a breakpoint resolved in a known script is committed for the URL
    of the script, after what is committed there, a cleared (null) list
    counting as empty and no check being made that the id is new; so on a
    target that removes what it is asked to, the next clearAllBreakpoints
    for that URL resolves and asks for the removal of the old ids and then
    of the resolved one, also when the list had been left cleared, where
    clearAllBreakpoints would have thrown.  A breakpoint resolved in an
    unknown script changes nothing. *)
Theorem resolved_breakpoint_committed (params : BreakpointResolvedEvent) (a : Adapter) :
  (_scriptsById a !! loc_scriptId (br_location params) = None →
   onBreakpointResolved H params a = a) ∧
  (∀ script,
     _scriptsById a !! loc_scriptId (br_location params) = Some script →
     let old := match _committedBreakpointsByUrl a !! url script with
                | Some (Some ids) => ids
                | _ => []
                end in
     let a' := onBreakpointResolved H params a in
     _committedBreakpointsByUrl a'
     = <[url script := Some (old ++ [br_breakpointId params])%list]>
         (_committedBreakpointsByUrl a) ∧
     _chrome a' = _chrome a ∧
     ((∀ id, id ∈ (old ++ [br_breakpointId params])%list →
         chrome_command E (Debugger_removeBreakpoint id) = Resolved tt) →
      (clearAllBreakpoints E (url script) a').1 = Resolved tt ∧
      _chrome (clearAllBreakpoints E (url script) a').2
      = (_chrome a ++ (Debugger_removeBreakpoint <$> old)
           ++ [Debugger_removeBreakpoint (br_breakpointId params)])%list ∧
      _committedBreakpointsByUrl (clearAllBreakpoints E (url script) a').2 !! url script
      = Some None)).
Proof.
  split.
  { intros Hunknown. unfold onBreakpointResolved. by rewrite Hunknown. }
  intros script Hknown old a'.
  assert (_committedBreakpointsByUrl a'
          = <[url script := Some (old ++ [br_breakpointId params])%list]>
              (_committedBreakpointsByUrl a) ∧ _chrome a' = _chrome a) as [Hcommitted Hchrome].
  { subst a'. unfold onBreakpointResolved. rewrite Hknown.
    destruct (path_breakpointResolved H _ (url script)) as [bp scriptPath]. done. }
  split; [exact Hcommitted|]. split; [exact Hchrome|]. intros Hremoves.
  rewrite (clearAllBreakpoints_resolved E (url script)
             (old ++ [br_breakpointId params])%list a')
    by (by rewrite ?Hcommitted, ?lookup_insert_eq).
  cbn [fst snd]. split; [done|]. simpl.
  rewrite Hchrome, fmap_app, lookup_insert_eq. done.
Qed.

(** The handle under which the registry files a breakpoint id after a
    translation is that of the last response that carries the id. *)
Lemma responsesToODPBreakpoints_lookup (responses : list SetBreakpointResponse)
    (a : Adapter) :
  let a' := (responsesToODPBreakpoints (Some <$> responses) a).2 in
  let next := _nextHandle (rh_handles (_breakpointIdHandles a)) in
  (∀ i response, responses !! i = Some response →
     (∀ j later, i < j → responses !! j = Some later →
        breakpointId later ≠ breakpointId response) →
     ReverseHandles_lookup (_breakpointIdHandles a') (breakpointId response)
     = Some (next + i)) ∧
  (∀ v, (∀ response, response ∈ responses → breakpointId response ≠ v) →
     ReverseHandles_lookup (_breakpointIdHandles a') v
     = ReverseHandles_lookup (_breakpointIdHandles a) v) ∧
  _scriptsById a' = _scriptsById a ∧ _session a' = _session a.
Proof.
  revert a. induction responses as [|response rest IH]; intros a.
  { cbn. split; [intros i r Hr; by rewrite lookup_nil in Hr | done]. }
  cbn [fmap list_fmap responsesToODPBreakpoints]. fold (Some <$> rest).
  assert (∃ bp, responseToODPBreakpoint (Some response) a
                = (bp, set_breakpointIdHandles
                         (ReverseHandles_create (breakpointId response)
                            (_breakpointIdHandles a)).2 a)) as [bp ->].
  { unfold responseToODPBreakpoint, ReverseHandles_create, Handles_create.
    destruct (actualLocation response); by eexists. }
  set (a1 := set_breakpointIdHandles _ a).
  destruct (IH a1) as (Hlast & Hother & Hscripts & Hsession).
  destruct (responsesToODPBreakpoints (Some <$> rest) a1) as [bps a2].
  cbn [fst snd] in *.
  assert (_nextHandle (rh_handles (_breakpointIdHandles a1))
          = S (_nextHandle (rh_handles (_breakpointIdHandles a)))) as Hnext by done.
  rewrite Hnext in Hlast.
  split; [|split; [|by rewrite Hscripts, Hsession]].
  - intros [|i] r Hr Hlater.
    + cbn in Hr. injection Hr as <-. rewrite Hother.
      * unfold ReverseHandles_lookup. subst a1. cbn.
        rewrite lookup_insert_eq. f_equal. lia.
      * intros later [j Hj]%list_elem_of_lookup. apply (Hlater (S j) later); [lia | done].
    + cbn in Hr. rewrite (Hlast i r Hr).
      * f_equal. lia.
      * intros j later Hij Hj. apply (Hlater (S j) later); [lia | done].
  - intros v Hv. rewrite Hother.
    + unfold ReverseHandles_lookup. subst a1. cbn.
      apply lookup_insert_ne. apply Hv. apply list_elem_of_here.
    + intros r Hr. apply Hv. by apply list_elem_of_further.
Qed.

Lemma translation_lookup (url_ : string) (responses : list SetBreakpointResponse)
    (requestBps : list SourceBreakpoint) (a : Adapter) :
  let r := chromeBreakpointResponsesToODPBreakpoints url_ (Some <$> responses) requestBps a in
  let next := _nextHandle (rh_handles (_breakpointIdHandles a)) in
  r.1 = Return (zip_with translated (seq next (length responses)) responses) ∧
  (∀ i response, responses !! i = Some response →
     (∀ j later, i < j → responses !! j = Some later →
        breakpointId later ≠ breakpointId response) →
     ReverseHandles_lookup (_breakpointIdHandles r.2) (breakpointId response)
     = Some (next + i)) ∧
  _scriptsById r.2 = _scriptsById a ∧ _session r.2 = _session a.
Proof.
  unfold chromeBreakpointResponsesToODPBreakpoints. rewrite committedBpIds_some.
  match goal with
  | |- context [responsesToODPBreakpoints _ ?a1] =>
      pose proof (responsesToODPBreakpoints_spec responses a1) as (Hbps & _);
      pose proof (responsesToODPBreakpoints_lookup responses a1)
        as (Hlast & _ & Hscripts & Hsession);
      destruct (responsesToODPBreakpoints (Some <$> responses) a1) as [bps a2]
  end.
  cbn [fst snd] in *. by rewrite Hbps.
Qed.

(** X23: the event of a resolved breakpoint names the breakpoint as the
    response to setBreakpoints did.  After the translation of the
    target's responses, a breakpoint id that the target reports as
    resolved in a known script is announced to the client with one
    BreakpointEvent 'new'.  Its breakpoint is what the three transformers
    make of a verified breakpoint at the resolved line and column, without
    message, whose id is the handle of the breakpoint id; when the
    transformers pass the id on, it is the id of the breakpoint that the
    translation made of the last response with that breakpoint id. *)
Theorem resolved_breakpoint_announced (url_ : string)
    (responses : list SetBreakpointResponse) (requestBps : list SourceBreakpoint)
    (i : nat) (response : SetBreakpointResponse) (id : string) (location : Location)
    (script : ScriptParsedEvent) (a : Adapter) :
  responses !! i = Some response → breakpointId response = Some id →
  (∀ j later, i < j → responses !! j = Some later → breakpointId later ≠ Some id) →
  _scriptsById a !! loc_scriptId location = Some script →
  let r := chromeBreakpointResponsesToODPBreakpoints url_ (Some <$> responses) requestBps a in
  let a' := onBreakpointResolved H (mkBreakpointResolvedEvent id location) r.2 in
  let handle := _nextHandle (rh_handles (_breakpointIdHandles a)) + i in
  let resolved := mkBreakpoint (Some handle) true (Some (lineNumber location))
                    (columnNumber location) None in
  let mapped := path_breakpointResolved H resolved (url script) in
  let announced :=
    lineCol_breakpointResolved H (sourceMap_breakpointResolved H mapped.1 mapped.2) in
  ∃ reported,
    r.1 = Return reported ∧
    _session a' = (_session a ++ [BreakpointEvent "new" announced])%list ∧
    bp_id <$> reported !! i = Some (Some handle) ∧
    ((∀ bp u, bp_id (path_breakpointResolved H bp u).1 = bp_id bp) →
     (∀ bp p, bp_id (sourceMap_breakpointResolved H bp p) = bp_id bp) →
     (∀ bp, bp_id (lineCol_breakpointResolved H bp) = bp_id bp) →
     bp_id announced = Some handle).
Proof.
  intros Hi Hid Hlast Hscript r a' handle resolved mapped announced.
  pose proof (translation_lookup url_ responses requestBps a) as Haux.
  cbv zeta in Haux. fold r in Haux.
  destruct Haux as (Hreported & Hlookup & Hscripts & Hsession).
  exists (zip_with translated
            (seq (_nextHandle (rh_handles (_breakpointIdHandles a))) (length responses))
            responses).
  assert (ReverseHandles_lookup (_breakpointIdHandles r.2) (Some id) = Some handle)
    as Hhandle.
  { rewrite <- Hid. apply Hlookup; [done|]. intros j later Hij Hj. rewrite Hid. eauto. }
  split; [exact Hreported|]. split; [|split].
  - subst a' announced mapped resolved. clearbody r. unfold onBreakpointResolved.
    cbn [br_location br_breakpointId]. rewrite Hscripts, Hscript.
    cbn [set_committedBreakpointsByUrl _breakpointIdHandles]. rewrite Hhandle.
    destruct (path_breakpointResolved H _ (url script)) as [bp scriptPath].
    cbn [fst snd]. by rewrite <- Hsession.
  - rewrite lookup_zip_with, lookup_seq_lt by (by eapply lookup_lt_Some).
    cbn. rewrite Hi. cbn. unfold translated. by destruct (actualLocation response).
  - intros Hpath HsourceMap HlineCol. subst announced mapped resolved.
    by rewrite HlineCol, HsourceMap, Hpath.
Qed.

End Resolved.

Lemma resolved_breakpoint_announced_witness :
  let E := sample_env binds found in
  let H := sample_hooks "" (Rejected TypeError) in
  let script := mkScriptParsedEvent "42" "http://localhost/app.js" None in
  let a := (onScriptParsed E script (new_ChromeDebugAdapter 1000)).2 in
  let response := mkSetBreakpointResponse (Some "1:0") None in
  let r := chromeBreakpointResponsesToODPBreakpoints "http://localhost/app.js"
             [Some response] [mkSourceBreakpoint 10 None None] a in
  _scriptsById a !! "42" = Some script ∧
  _session (onBreakpointResolved H
              (mkBreakpointResolvedEvent "1:0" (mkLocation "42" 10 (Some 0))) r.2)
  = [BreakpointEvent "new" (mkBreakpoint (Some 1000%nat) true (Some 10) (Some 0) None)].
Proof.
  intros E H script a response r.
  assert (Hscript : _scriptsById a !! "42" = Some script) by reflexivity.
  split; [exact Hscript|].
  destruct (resolved_breakpoint_announced H "http://localhost/app.js" [response]
              [mkSourceBreakpoint 10 None None] 0 response "1:0"
              (mkLocation "42" 10 (Some 0)) script a eq_refl eq_refl)
    as (reported & _ & Hsession & _).
  - intros j later Hj Hlater. destruct j as [|j]; [lia | discriminate Hlater].
  - exact Hscript.
  - exact Hsession.
Defined.

Section Termination.
Local Open Scope nat_scope.

(** X24: a session is terminated once.  Of any number of calls of
    terminateSession only the first has an effect: the client is sent at
    most one TerminatedEvent, with the restart flag of the first call and
    only when a client is attached, and the connection is closed at most
    once, whatever the later calls are made with. *)
Theorem terminated_once (first : string * option bool * bool)
    (rest : list (string * option bool * bool)) (l : Lifecycle) :
  let call := λ l '(reason, restart, isAttached), terminateSession reason restart isAttached l in
  let l' := fold_left call (first :: rest) l in
  l' = call l first ∧
  _hasTerminated l' = true ∧
  (_hasTerminated l = true → l' = l) ∧
  (_hasTerminated l = false →
     terminated l' = (terminated l ++ (if _clientAttached l then [first.1.2] else []))%list ∧
     closed l' = closed l + (if first.2 then 1 else 0)).
Proof.
  intros call l'. subst l'. cbn [fold_left].
  assert (_hasTerminated (call l first) = true) as Hlatch.
  { destruct first as [[reason restart] isAttached]. unfold call, terminateSession.
    destruct (_hasTerminated l) eqn:Hflag; [exact Hflag|]. simpl.
    destruct (_clientAttached l), isAttached; reflexivity. }
  assert (fold_left call rest (call l first) = call l first) as ->.
  { revert Hlatch. generalize (call l first). clear.
    induction rest as [|[[reason restart] isAttached] rest IH]; intros l Hlatch; [done|].
    cbn [fold_left]. unfold call at 2, terminateSession. rewrite Hlatch. cbn [negb].
    by apply IH. }
  split; [done|]. split; [exact Hlatch|].
  destruct first as [[reason restart] isAttached]. unfold call, terminateSession.
  split; intros Hflag; rewrite Hflag; [done|]. simpl.
  destruct (_clientAttached l) eqn:Hclient, isAttached; simpl;
    rewrite ?Hclient, ?app_nil_r; split; (done || lia).
Qed.

End Termination.

Section Sources.
Context (E : Env) (H : Hooks).

(** X25: the source of a frame is asked from the target.  The stack
    frame made of a call frame that is not nonsense has a source
    reference, and in a state whose script indexes agree (as in every
    session) the source request for that reference asks the target for the
    source of the script of the frame's location and answers with it as
    JavaScript; it rejects exactly when the target does. *)
Theorem source_of_frame (frame : CallFrame) (a : Adapter) :
  indexed a → nonsense a frame = false →
  let r := callFrameToStackFrame E frame a in
  sourceReference (sf_source r.1) = Some (_nextHandle (_sourceHandles a)) ∧
  source_request H (_nextHandle (_sourceHandles a)) r.2
  = then_val (chrome_getScriptSource H (Some (loc_scriptId (location frame))))
      (λ scriptSource, mkISourceResponseBody scriptSource (Some "text/javascript")).
Proof.
  intros [Hid _] Hsense. unfold nonsense in Hsense.
  unfold callFrameToStackFrame, callFrameToStackFrame_try, source_request.
  destruct (_scriptsById a !! loc_scriptId (location frame)) as [s|] eqn:Hs.
  - destruct (Hid _ _ Hs) as [Hkey _].
    destruct (shouldIgnoreScript s), (truthy (functionName frame)); simpl;
      unfold Handles_get; simpl; rewrite lookup_insert_eq; simpl; by rewrite ?Hkey.
  - destruct (truthy (functionName frame)); simpl in *;
      [|discriminate Hsense].
    unfold Handles_get. simpl. by rewrite lookup_insert_eq.
Qed.

(** X26: a pause takes back the source references lent before it.  After
    a paused notification is handled, the source request is rejected as an
    illegal handle for every reference but the first number of the
    registry, which a smart step may have lent again. *)
Theorem pause_revokes_source_references (notification : PausedEvent) (reference : nat)
    (a : Adapter) :
  reference ≠ START_HANDLE (_sourceHandles a) →
  source_request H reference (handle_paused E notification a)
  = Rejected (Domain sourceRequestIllegalHandle).
Proof.
  intros Hreference.
  assert (∀ k, k ≠ START_HANDLE (_sourceHandles a) →
               Handles_get (_sourceHandles (handle_paused E notification a)) k = None)
    as Hrevoked.
  { intros k Hk.
    assert (∀ a1, _sourceHandles a1 = Handles_reset (_sourceHandles a) →
              ∀ frame, Handles_get (_sourceHandles (callFrameToStackFrame E frame a1).2) k
                       = None) as Hframe.
    { intros a1 Hreset frame. unfold callFrameToStackFrame, callFrameToStackFrame_try.
      destruct (_scriptsById a1 !! loc_scriptId (location frame)) as [s|];
        [destruct (shouldIgnoreScript s)|];
        destruct (truthy (functionName frame)); simpl;
        unfold Handles_get; simpl; rewrite Hreset; simpl;
        by rewrite lookup_insert_ne, lookup_empty. }
    assert (Handles_get (_sourceHandles (onDebuggerPaused E notification a).2) k = None)
      as Hsync.
    { unfold onDebuggerPaused, setOverlay.
      destruct (String.eqb (reason notification) "exception"); [done|].
      destruct (hasHitBreakpoints notification); [done|].
      simpl. destruct (truthy_opt (_expectingStopReason a)); [|done].
      destruct (_smartStep a); [|done].
      unfold shouldSmartStep. simpl. destruct (_sourceMaps a); simpl; [|done].
      destruct (list.head (callFrames notification)) as [frame|]; [|done].
      match goal with
      | |- context [callFrameToStackFrame E frame ?a1] =>
          pose proof (Hframe a1 eq_refl frame) as Hlent;
          by destruct (callFrameToStackFrame E frame a1)
      end. }
    unfold handle_paused.
    destruct (onDebuggerPaused E notification a) as [[[chosen [should|e]]|e] a1];
      cbn [fst snd] in *; try done.
    unfold onDebuggerPaused_then. destruct should; simpl; [done|].
    by destruct (0 <? _smartStepCount a1)%nat. }
  unfold source_request. by rewrite Hrevoked.
Qed.

End Sources.

Lemma source_of_frame_witness :
  let E := sample_env binds found in
  let H := sample_hooks "function main() {}" (Rejected TypeError) in
  let a := new_ChromeDebugAdapter 1000 in
  source_request H 1000 (callFrameToStackFrame E sample_frame a).2
  = Resolved (mkISourceResponseBody "function main() {}" (Some "text/javascript")).
Proof.
  intros E H a.
  assert (indexed a) as Hindexed.
  { split; intros k s Hs; discriminate Hs. }
  exact (proj2 (source_of_frame E H sample_frame a Hindexed eq_refl)).
Defined.

Lemma pause_revokes_source_references_witness :
  let E := sample_env binds found in
  let H := sample_hooks "" (Rejected TypeError) in
  let paused := mkPausedEvent [sample_frame; sample_frame] "other" None None in
  let a := (stackTrace E None (handle_paused E paused (new_ChromeDebugAdapter 1000))).2 in
  Handles_get (_sourceHandles a) 1001 = Some (mkISourceContainer (Some "42") None None) ∧
  source_request H 1001 (handle_paused E paused a)
  = Rejected (Domain sourceRequestIllegalHandle).
Proof.
  intros E H paused a. split; [reflexivity|].
  apply (pause_revokes_source_references E H paused 1001 a). discriminate.
Defined.

Section Evaluation.
Context (E : Env) (H : Hooks).
Local Open Scope nat_scope.

(** X27: evaluate needs a live frame.  With a frame id that the registry
    does not resolve, or resolves to null as it does for the dummy frame
    made of a nonsense call frame, evaluate throws a TypeError where it
    stands, before anything is asked of the target, and leaves the adapter
    as it was. *)
Theorem evaluate_needs_live_frame (expression : string) (context : option string)
    (a : Adapter) :
  (∀ frameId, Handles_get (_frameHandles a) frameId = None →
     evaluate E H (mkEvaluateArguments expression (Some frameId) context) a
     = (Throw TypeError, a)) ∧
  (∀ frame, nonsense a frame = true →
     let r := callFrameToStackFrame E frame a in
     evaluate E H (mkEvaluateArguments expression (Some (sf_id r.1)) context) r.2
     = (Throw TypeError, r.2)).
Proof.
  split.
  - intros frameId Hstale. unfold evaluate. cbn [ea_frameId]. by rewrite Hstale.
  - intros frame Hnonsense.
    pose proof (callFrameToStackFrame_handle E frame a) as (Hid & _ & _ & _ & Hreg).
    destruct (callFrameToStackFrame E frame a) as [sf a1]. cbn [fst snd] in *.
    rewrite Hnonsense in Hreg.
    unfold evaluate, Handles_get. cbn [ea_frameId]. rewrite Hreg, Hid. cbn [_handleMap].
    by rewrite lookup_insert_eq.
Qed.

(** The variable made of an error object. *)
Lemma createObjectVariable_error (name : string) (object : RemoteObject) (d : string)
    (a : Adapter) :
  subtype object = Some "error" → description object = Some d →
  createObjectVariable E name object a
  = (Return (Resolved (mkVariable name (JsString (firstLine d))
                         (_nextHandle (_variableHandles a))
                         (Some (JsString (firstLine d))) None None)),
     set_variableHandles
       (Handles_create (PropertyContainer (objectId object)) (_variableHandles a)).2 a).
Proof.
  intros Hsubtype Hdescription. unfold createObjectVariable, subtype_is, firstLine.
  rewrite Hsubtype, Hdescription. cbn.
  by destruct (String.index 0 _ d).
Qed.

(** X28: an evaluation that throws an Error is rejected, and lends a
    variable handle all the same.  When the target answers the evaluation
    with exception details and an error object as result, the request is
    rejected with what errP makes of the first line of the error's
    description, or of the localized 'not available' when that line starts
    with 'ReferenceError: ' and the context is not the REPL; the error
    object has been made a variable first, so the next variable handle
    resolves to its property container. *)
Theorem failed_evaluation_lends_handle (args : EvaluateArguments)
    (object : RemoteObject) (d : string) (a : Adapter) :
  match ea_frameId args with
  | Some frameId =>
      ∃ frame, Handles_get (_frameHandles a) frameId = Some (Some frame) ∧
               chrome_evaluateOnCallFrame H (callFrameId frame) (ea_expression args)
               = Resolved (mkEvaluateResponse (Some object) true)
  | None => chrome_evaluate H (ea_expression args)
            = Resolved (mkEvaluateResponse (Some object) true)
  end →
  type object = "object" → subtype object = Some "error" → description object = Some d →
  let next := _nextHandle (_variableHandles a) in
  let r := evaluate E H args a in
  let reworded :=
    truthy (firstLine d) && startsWith (firstLine d) "ReferenceError: " &&
    negb (bool_decide (ea_context args = Some "repl")) in
  r.1 = Return (Rejected (errP H (JsString (if reworded
                                            then localize E "eval.not.available" "not available"
                                            else firstLine d)))) ∧
  Handles_get (_variableHandles r.2) next = Some (PropertyContainer (objectId object)) ∧
  _nextHandle (_variableHandles r.2) = S next.
Proof.
  intros Hanswer Htype Hsubtype Hdescription next r reworded. subst r.
  assert (evaluate E H args a
          = match remoteObjectToVariable E "" (Some object) true a with
            | (Throw e, a) => (Return (Rejected e), a)
            | (Return p, a) =>
                (Return (then_ p (λ variable,
                   match evaluate_resultValue E (var_value variable) (ea_context args) with
                   | Return resultValue => Rejected (errP H resultValue)
                   | Throw e => Rejected e
                   end)), a)
            end) as ->.
  { unfold evaluate. destruct (ea_frameId args) as [frameId|].
    - destruct Hanswer as (frame & -> & ->). cbn [er_result er_exceptionDetails].
      reflexivity.
    - rewrite Hanswer. cbn [er_result er_exceptionDetails]. reflexivity. }
  unfold remoteObjectToVariable. rewrite Htype. cbn [String.eqb Ascii.eqb Bool.eqb].
  assert (subtype_is object "internal#location" = false) as ->
    by (unfold subtype_is; rewrite Hsubtype; by apply bool_decide_eq_false_2).
  assert (subtype_is object "null" = false) as ->
    by (unfold subtype_is; rewrite Hsubtype; by apply bool_decide_eq_false_2).
  rewrite (createObjectVariable_error "" object d a Hsubtype Hdescription).
  cbn [then_ var_value evaluate_resultValue fst snd]. fold reworded.
  split; [by destruct reworded|]. split; [|done].
  unfold Handles_get. cbn. apply lookup_insert_eq.
Qed.

(** X29: a getter that fails is a value, not a failure.  For a property
    with a getter the target is asked once to read it; when the call is
    rejected the variable shows the error's text, and when the getter
    throws it shows the description of what was thrown: either way the
    promise resolves with a variable without children, no handle is lent,
    and nothing throws.  A property with a setter only is shown as
    'setter' without asking the target. *)
Theorem getter_failure_is_a_value (propDesc : PropertyDescriptor)
    (owningObjectId : option string) (a : Adapter) :
  let r := propertyDescriptorToVariable E H propDesc owningObjectId a in
  let plain value := Return (Resolved (mkVariable (pd_name propDesc) value 0 None None None)) in
  let asked := issue (Runtime_callFunctionOn owningObjectId grabGetterValue) a in
  (is_Some (pd_get propDesc) →
     (∃ p, r.1 = Return p) ∧
     (∀ error, chrome_callGetter H owningObjectId (pd_name propDesc) = Rejected error →
        r = (plain (JsString (error_toString H error)), asked)) ∧
     (∀ result thrown,
        chrome_callGetter H owningObjectId (pd_name propDesc)
        = Resolved (mkGetterResponse result (Some (mkExceptionDetails (Some thrown)))) →
        r = (plain (js_of_opt (description thrown)), asked))) ∧
  (pd_get propDesc = None → is_Some (pd_set propDesc) → r = (plain (JsString "setter"), a)).
Proof.
  intros r plain asked. subst r plain asked. unfold propertyDescriptorToVariable. split.
  - intros [getter ->]. split; [|split].
    + destruct (chrome_callGetter H owningObjectId (pd_name propDesc))
        as [[result [[[thrown|]]|]]|error]; try by eexists.
      destruct (remoteObjectToVariable E _ _ _ _) as [[p|e] a1]; by eexists.
    + by intros error ->.
    + by intros result thrown ->.
  - by intros -> [setter ->].
Qed.

End Evaluation.

Lemma failed_evaluation_lends_handle_witness :
  let E := sample_env binds found in
  let object := mkRemoteObject "object" (Some "error") JsUndefined
                  (Some "ReferenceError: x is not defined") (Some "err-1") None in
  let H := sample_hooks "" (Resolved (mkEvaluateResponse (Some object) true)) in
  let r := evaluate E H (mkEvaluateArguments "x" None (Some "hover"))
             (new_ChromeDebugAdapter 1000) in
  r.1 = Return (Rejected (Error "not available")) ∧
  Handles_get (_variableHandles r.2) 1000 = Some (PropertyContainer (Some "err-1")).
Proof.
  intros E object H r.
  destruct (failed_evaluation_lends_handle E H (mkEvaluateArguments "x" None (Some "hover"))
              object "ReferenceError: x is not defined" (new_ChromeDebugAdapter 1000)
              eq_refl eq_refl eq_refl eq_refl) as (Hrejected & Hhandle & _).
  split; [exact Hrejected | exact Hhandle].
Defined.
